(** * Decision trees with incremental updates: a shallow embedding

    The development follows [PointSet.py] (Gini impurity and the split
    search) and [Tree.py] (construction, decision, online insertion and
    deletion of training points).

    Modelling conventions.
    - Python floats (feature values, Gini scores, gains, [beta]) are
      exact rationals [Q]; [==] on floats is [Qeq_bool], [<] and [>=]
      are [Qlt_bool] and [Qle_bool].
    - Python integers are [Z]; the operation counter of a node, which is
      initialised to 0 and only ever incremented or reset, is a [nat].
    - [None] is [None]; an attribute that may hold [None] is an [option].
    - A raised exception is [Raise e]; a method that mutates [self]
      returns the new object next to its result.
    - A numpy array of points is the list of its rows; numpy arrays are
      rectangular, and the failure of [np.array] on rows of different
      lengths is not represented.  The class invariant stated in the
      docstring of [PointSet.__init__] (all rows as long as [types], as
      many labels as rows) is the predicate [well_formed]. *)

From Stdlib Require Import ZArith QArith Qfield Lqa List Bool Lia.
From Stdlib Require Import Permutation Sorted.
Import ListNotations.


(** ** Exceptions and the result monad *)

Inductive exn : Type :=
| IndexError
| ZeroDivisionError
| TypeError
| AttributeError
| CallGetBestGainFirst   (* Exception('Please call get_best_gain() first') *)
| RecursionDepth.        (* the recursion budget of [build_tree] ran out *)

Inductive result (A : Type) : Type :=
| Ok (a : A)
| Raise (e : exn).

Arguments Ok {A} a.
Arguments Raise {A} e.

Definition bind {A B : Type} (m : result A) (f : A -> result B) : result B :=
  match m with
  | Ok a => f a
  | Raise e => Raise e
  end.

Notation "x <- m ;; k" := (bind m (fun x => k))
  (at level 61, m at next level, right associativity).
Notation "' pat <- m ;; k" := (bind m (fun x => match x with pat => k end))
  (at level 61, pat pattern, m at next level, right associativity).

(** [l[i]] on a Python list or numpy row. *)
Definition index {A : Type} (l : list A) (i : nat) : result A :=
  match nth_error l i with
  | Some a => Ok a
  | None => Raise IndexError
  end.

(** [for x in xs: s = body(s, x)] with exceptions. *)
Fixpoint for_each {A S : Type} (xs : list A) (body : S -> A -> result S)
         (s : S) : result S :=
  match xs with
  | [] => Ok s
  | x :: xs' => s' <- body s x ;; for_each xs' body s'
  end.

Definition Qlt_bool (x y : Q) : bool := negb (Qle_bool y x).

(** ** PointSet.py *)

Inductive FeaturesTypes : Type := BOOLEAN | CLASSES | REAL.

Definition FeaturesTypes_eqb (a b : FeaturesTypes) : bool :=
  match a, b with
  | BOOLEAN, BOOLEAN | CLASSES, CLASSES | REAL, REAL => true
  | _, _ => false
  end.

Record PointSet : Type := mkPointSet {
  types : list FeaturesTypes;
  features : list (list Q);
  labels : list bool;
  threshold : option Q;
  selected_feature_id : option nat;
  category_id : option Q
}.

(** [PointSet.__init__].  The comprehension that drops [None] entries of
    [types] is the identity on a list of [FeaturesTypes]. *)
Definition PointSet_init (fs : list (list Q)) (ls : list bool)
           (ts : list FeaturesTypes) : PointSet :=
  {| types := ts; features := fs; labels := ls;
     threshold := None; selected_feature_id := None; category_id := None |}.

Definition well_formed (ps : PointSet) : Prop :=
  length (labels ps) = length (features ps) /\
  Forall (fun row => length row = length (types ps)) (features ps).

(** The loop of [get_gini]: the number of true labels. *)
Definition count_label_true (ls : list bool) : Z :=
  fold_left (fun c (label : bool) => if label then (c + 1)%Z else c) ls 0%Z.

(** [a / b] on two Python integers. *)
Definition int_div (a b : Z) : Q := (inject_Z a / inject_Z b)%Q.

Definition gini_of (c total : Z) : Q :=
  (1 - int_div c total ^ 2 - int_div (total - c) total ^ 2)%Q.

Definition get_gini (ps : PointSet) : result Q :=
  let total := Z.of_nat (length (labels ps)) in
  let c := count_label_true (labels ps) in
  if (total =? 0)%Z then Raise ZeroDivisionError
  else Ok (gini_of c total).

(** *** The split search [get_best_gain] *)

(** [features.shape[1]] of a non-empty array. *)
Definition ncols (fs : list (list Q)) : nat :=
  match fs with
  | [] => 0
  | row :: _ => length row
  end.

(** [features[:, i]]. *)
Definition column (i : nat) (fs : list (list Q)) : list Q :=
  map (fun row => nth i row 0%Q) fs.

(** [np.argsort]: indices in ascending order of their value.  It is an
    insertion sort that keeps equal values in index order; the counts at
    the candidate cuts do not depend on the order among equal values
    (lemma [cut_counts_of_sort]). *)
Fixpoint insert_index (key : nat -> Q) (j : nat) (l : list nat) : list nat :=
  match l with
  | [] => [j]
  | x :: l' => if Qle_bool (key j) (key x) then j :: l
               else x :: insert_index key j l'
  end.

Definition argsort (vs : list Q) : list nat :=
  fold_right (insert_index (fun j => nth j vs 0%Q)) [] (seq 0 (length vs)).

(** [a[indices]] for an array [a] and an array of indices. *)
Fixpoint fancy_index {A : Type} (a : list A) (indices : list nat)
  : result (list A) :=
  match indices with
  | [] => Ok []
  | j :: indices' =>
      x <- index a j ;;
      xs <- fancy_index a indices' ;;
      Ok (x :: xs)
  end.

(** The same where every index is in range. *)
Definition take {A : Type} (a : list A) (d : A) (indices : list nat) : list A :=
  map (fun j => nth j a d) indices.

(** [np.unique]: the sorted distinct values. *)
Fixpoint drop_repeats (vs : list Q) : list Q :=
  match vs with
  | [] => []
  | v :: vs' =>
      match vs' with
      | [] => [v]
      | w :: _ => if Qeq_bool v w then drop_repeats vs'
                  else v :: drop_repeats vs'
      end
  end.

Definition unique (vs : list Q) : list Q :=
  drop_repeats (take vs 0%Q (argsort vs)).

(** The four counts [c00, c01, c10, c11]. *)
Record counts : Type := mkCounts { c00 : Z; c01 : Z; c10 : Z; c11 : Z }.

(** The local variables of [get_best_gain] that survive an iteration. *)
Record search : Type := mkSearch {
  res : option nat * option Q;
  threshold_found : option Q;
  category_id_found : option Q
}.

Definition search_start : search :=
  {| res := (None, None); threshold_found := None; category_id_found := None |}.

(** Lines 136-139: the point at index [j] is counted; [f] is the
    element of [f_values] the enumeration yields. *)
Definition count_step (f_values : list Q) (ls : list bool) (val : Q)
           (c : counts) (j : nat) : result counts :=
  let f := nth j f_values 0%Q in
  label <- index ls j ;;
  Ok (if negb label && Qeq_bool f val then
        mkCounts (c00 c + 1) (c01 c) (c10 c) (c11 c)
      else if label && Qeq_bool f val then
        mkCounts (c00 c) (c01 c + 1) (c10 c) (c11 c)
      else if negb label && negb (Qeq_bool f val) then
        mkCounts (c00 c) (c01 c) (c10 c + 1) (c11 c)
      else if label && negb (Qeq_bool f val) then
        mkCounts (c00 c) (c01 c) (c10 c) (c11 c + 1)
      else c).

(** Lines 132-139: the counting pass of a categorical or boolean
    candidate [val]. *)
Definition count_pass (f_values : list Q) (ls : list bool) (val : Q)
  : result counts :=
  for_each (seq 0 (length f_values)) (count_step f_values ls val)
           (mkCounts 0 0 0 0).

(** Lines 122-127: one sorted point crosses the cut. *)
Definition move_point (k : nat) (sorted_labels : list bool) (c : counts) : counts :=
  if (0 <? k)%nat && nth (k - 1) sorted_labels false then
    mkCounts (c00 c) (c01 c + 1) (c10 c) (c11 c - 1)
  else if (0 <? k)%nat && negb (nth (k - 1) sorted_labels false) then
    mkCounts (c00 c + 1) (c01 c) (c10 c - 1) (c11 c)
  else c.

(** Line 129: the positions the continuous scan skips. *)
Definition skip_position (k : nat) (values : list Q) : bool :=
  (k =? 0)%nat ||
  ((0 <? k)%nat && Qeq_bool (nth k values 0%Q) (nth (k - 1) values 0%Q)).

(** Line 157: the threshold of a cut at sorted position [k]. *)
Definition cut_threshold (k : nat) (values : list Q) : Q :=
  if (k =? 0)%nat then nth k values 0%Q
  else ((nth (k - 1) values 0%Q + nth k values 0%Q) / 2)%Q.

Definition gini_gain_of (parent : Q) (total : Z) (c : counts) : Q :=
  let gini0 := (1 - int_div (c00 c) (c00 c + c01 c) ^ 2
                  - int_div (c01 c) (c00 c + c01 c) ^ 2)%Q in
  let gini1 := (1 - int_div (c10 c) (c10 c + c11 c) ^ 2
                  - int_div (c11 c) (c10 c + c11 c) ^ 2)%Q in
  let gini_split := (int_div (c00 c + c01 c) total * gini0
                     + int_div (c10 c + c11 c) total * gini1)%Q in
  (parent - gini_split)%Q.

(** Line 154: the floor on both sides of a split. *)
Definition below_floor (min_split_points : option Z) (c : counts) : bool :=
  match min_split_points with
  | None => false
  | Some m => ((c00 c + c01 c <? m) || (c10 c + c11 c <? m))%Z
  end.

(** Lines 141-160: a candidate with counts [c] is weighed against the
    best split so far. *)
Definition consider (ps : PointSet) (min_split_points : option Z)
           (f_type : FeaturesTypes) (i k : nat) (values : list Q)
           (c : counts) (s : search) : result search :=
  if ((c00 c + c01 c =? 0) || (c10 c + c11 c =? 0))%Z then Ok s
  else
    parent <- get_gini ps ;;
    let total := Z.of_nat (length (labels ps)) in
    let gini_gain := gini_gain_of parent total c in
    if match snd (res s) with
       | None => true
       | Some best => Qlt_bool best gini_gain
       end
    then
      if below_floor min_split_points c then Ok s
      else
        Ok {| res := (Some i, Some gini_gain);
              threshold_found :=
                if FeaturesTypes_eqb f_type REAL
                then Some (cut_threshold k values) else threshold_found s;
              category_id_found :=
                if FeaturesTypes_eqb f_type CLASSES
                then Some (nth k values 0%Q) else category_id_found s |}
    else Ok s.

(** Lines 118-160 for a continuous feature: the running counts are part
    of the loop state. *)
Definition real_step (ps : PointSet) (min_split_points : option Z) (i : nat)
           (values : list Q) (sorted_labels : list bool)
           (st : counts * search) (k : nat) : result (counts * search) :=
  let c := move_point k sorted_labels (fst st) in
  if skip_position k values then Ok (c, snd st)
  else s <- consider ps min_split_points REAL i k values c (snd st) ;; Ok (c, s).

(** Lines 118-160 for a categorical or boolean feature. *)
Definition class_step (ps : PointSet) (min_split_points : option Z)
           (f_type : FeaturesTypes) (i : nat) (f_values values : list Q)
           (s : search) (k : nat) : result search :=
  c <- count_pass f_values (labels ps) (nth k values 0%Q) ;;
  consider ps min_split_points f_type i k values c s.

(** Lines 96-160: the body of the loop over the features. *)
Definition feature_step (ps : PointSet) (min_split_points : option Z)
           (s : search) (i : nat) : result search :=
  let f_values := column i (features ps) in
  f_type <- index (types ps) i ;;
  match f_type with
  | REAL =>
      let sorted_indices := argsort f_values in
      sorted_labels <- fancy_index (labels ps) sorted_indices ;;
      values <- fancy_index f_values sorted_indices ;;
      let total := Z.of_nat (length (labels ps)) in
      let s0 := count_label_true (labels ps) in
      let c := mkCounts 0 0 (total - s0) s0 in
      st <- for_each (seq 0 (length values))
                     (real_step ps min_split_points i values sorted_labels)
                     (c, s) ;;
      Ok (snd st)
  | CLASSES =>
      let values := unique f_values in
      for_each (seq 0 (length values))
               (class_step ps min_split_points CLASSES i f_values values) s
  | BOOLEAN =>
      let values := [0%Q] in
      for_each (seq 0 (length values))
               (class_step ps min_split_points BOOLEAN i f_values values) s
  end.

Definition with_threshold (ps : PointSet) (v : option Q) : PointSet :=
  {| types := types ps; features := features ps; labels := labels ps;
     threshold := v; selected_feature_id := selected_feature_id ps;
     category_id := category_id ps |}.

Definition with_category_id (ps : PointSet) (v : option Q) : PointSet :=
  {| types := types ps; features := features ps; labels := labels ps;
     threshold := threshold ps; selected_feature_id := selected_feature_id ps;
     category_id := v |}.

Definition with_selected_feature_id (ps : PointSet) (v : option nat) : PointSet :=
  {| types := types ps; features := features ps; labels := labels ps;
     threshold := threshold ps; selected_feature_id := v;
     category_id := category_id ps |}.

(** [get_best_gain]: the pair it returns and the point set with the
    winner stored. *)
Definition get_best_gain (ps : PointSet) (min_split_points : option Z)
  : result ((option nat * option Q) * PointSet) :=
  if (length (features ps) =? 0)%nat then Ok ((None, None), ps)
  else
    s <- for_each (seq 0 (ncols (features ps)))
                  (feature_step ps min_split_points) search_start ;;
    match fst (res s) with
    | None => Ok (res s, ps)
    | Some best =>
        t <- index (types ps) best ;;
        let ps := if FeaturesTypes_eqb t REAL
                  then with_threshold ps (threshold_found s) else ps in
        let ps := if FeaturesTypes_eqb t CLASSES
                  then with_category_id ps (category_id_found s) else ps in
        Ok (res s, with_selected_feature_id ps (fst (res s)))
    end.

(** [get_best_threshold]. *)
Definition get_best_threshold (ps : PointSet) : result (option Q) :=
  match selected_feature_id ps with
  | None => Raise CallGetBestGainFirst
  | Some i =>
      t <- index (types ps) i ;;
      match t with
      | REAL => Ok (threshold ps)
      | BOOLEAN => Ok None
      | CLASSES => Ok (category_id ps)
      end
  end.

(** ** Tree.py *)

#[warnings="-register-all"]
Inductive Tree : Type := mkTree {
  h : Z;
  feature_id : option nat;
  feature_threshold : option Q;
  feature_split : option (list Q * list Q);
  points : PointSet;
  min_split_points : Z;
  counter : nat;
  beta : Q;
  left : option Tree;      (* [None]: the attribute was never assigned *)
  right : option Tree
}.

Definition with_h (t : Tree) (v : Z) : Tree :=
  mkTree v (feature_id t) (feature_threshold t) (feature_split t) (points t)
         (min_split_points t) (counter t) (beta t) (left t) (right t).

Definition with_feature_id (t : Tree) (v : option nat) : Tree :=
  mkTree (h t) v (feature_threshold t) (feature_split t) (points t)
         (min_split_points t) (counter t) (beta t) (left t) (right t).

Definition with_feature_threshold (t : Tree) (v : option Q) : Tree :=
  mkTree (h t) (feature_id t) v (feature_split t) (points t)
         (min_split_points t) (counter t) (beta t) (left t) (right t).

Definition with_feature_split (t : Tree) (v : option (list Q * list Q)) : Tree :=
  mkTree (h t) (feature_id t) (feature_threshold t) v (points t)
         (min_split_points t) (counter t) (beta t) (left t) (right t).

Definition with_points (t : Tree) (v : PointSet) : Tree :=
  mkTree (h t) (feature_id t) (feature_threshold t) (feature_split t) v
         (min_split_points t) (counter t) (beta t) (left t) (right t).

Definition with_counter (t : Tree) (v : nat) : Tree :=
  mkTree (h t) (feature_id t) (feature_threshold t) (feature_split t) (points t)
         (min_split_points t) v (beta t) (left t) (right t).

Definition with_left (t : Tree) (v : option Tree) : Tree :=
  mkTree (h t) (feature_id t) (feature_threshold t) (feature_split t) (points t)
         (min_split_points t) (counter t) (beta t) v (right t).

Definition with_right (t : Tree) (v : option Tree) : Tree :=
  mkTree (h t) (feature_id t) (feature_threshold t) (feature_split t) (points t)
         (min_split_points t) (counter t) (beta t) (left t) v.

(** Reading an attribute that holds [None] where a number is needed. *)
Definition number {A : Type} (o : option A) : result A :=
  match o with
  | Some a => Ok a
  | None => Raise TypeError
  end.

(** [x in l] on a list of floats. *)
Definition member (x : Q) (l : list Q) : bool := existsb (Qeq_bool x) l.

(** [list(set(l))]: the distinct elements; the order Python gives them
    is not specified and nothing routes by this list. *)
Fixpoint distinct (l : list Q) : list Q :=
  match l with
  | [] => []
  | x :: l' => if member x l' then distinct l' else x :: distinct l'
  end.

(** The four lists filled by the partition loop of [build_tree]. *)
Record partition : Type := mkPartition {
  left_features : list (list Q);
  left_labels : list bool;
  right_features : list (list Q);
  right_labels : list bool
}.

(** Lines 95-101. *)
Definition partition_step (ps : PointSet) (fid : nat) (is_continous : bool)
           (thr : option Q) (split : list Q * list Q)
           (acc : partition) (i : nat) : result partition :=
  point <- index (features ps) i ;;
  x <- index point fid ;;
  goes_left <- (if is_continous
                then t <- number thr ;; Ok (Qlt_bool x t)
                else Ok (member x (fst split))) ;;
  label <- index (labels ps) i ;;
  if goes_left
  then Ok (mkPartition (left_features acc ++ [point]) (left_labels acc ++ [label])
                       (right_features acc) (right_labels acc))
  else Ok (mkPartition (left_features acc) (left_labels acc)
                       (right_features acc ++ [point]) (right_labels acc ++ [label])).

(** [Tree.__init__], with the [build_tree] it calls as an argument. *)
Definition Tree_init_with (build : Tree -> result Tree)
           (fs : list (list Q)) (ls : list bool) (ts : list FeaturesTypes)
           (h0 : Z) (msp : Z) (beta0 : Q) : result Tree :=
  let self := mkTree h0 None None None (PointSet_init fs ls ts) msp 0 beta0
                     None None in
  if (h0 >? 0)%Z then build self else Ok self.

(** [build_tree].  The recursion goes through the constructor of the
    children, whose height is one less; [budget] bounds its depth and
    [build_tree] below gives it the height of the node, which is enough
    (lemma [build_tree_budget]).  The variable [split] is bound here in
    both branches; the code binds it, and the partition loop reads it,
    only when the feature is not continuous. *)
Fixpoint build_tree_within (budget : nat) (self : Tree) : result Tree :=
  let self := with_counter self 0 in
  if (h self >? 0)%Z then
    match budget with
    | O => Raise RecursionDepth
    | S budget' =>
        '(r, ps) <- get_best_gain (points self) (Some (min_split_points self)) ;;
        let self := with_points self ps in
        match fst r with
        | None => Ok (with_h self 0)
        | Some fid =>
            ty <- index (types (points self)) fid ;;
            let is_continous := FeaturesTypes_eqb ty REAL in
            thr <- get_best_threshold (points self) ;;
            let split :=
              match thr with
              | Some th =>
                  ([th], distinct (filter (fun f => negb (Qeq_bool f th))
                                          (column fid (features (points self)))))
              | None => ([0%Q], [1%Q])
              end in
            let self := if negb is_continous
                        then with_feature_split self (Some split)
                        else with_feature_threshold self thr in
            let self := with_feature_id self (Some fid) in
            parts <- for_each (seq 0 (length (features (points self))))
                              (partition_step (points self) fid is_continous
                                              thr split)
                              (mkPartition [] [] [] []) ;;
            let left_points_count := Z.of_nat (length (left_features parts)) in
            let right_points_count := Z.of_nat (length (right_features parts)) in
            if ((left_points_count <? min_split_points self)
                || (right_points_count <? min_split_points self))%Z
            then Ok (with_h self 0)
            else
              l <- Tree_init_with (build_tree_within budget')
                     (left_features parts) (left_labels parts)
                     (types (points self)) (h self - 1)
                     (min_split_points self) (beta self) ;;
              let self := with_left self (Some l) in
              r <- Tree_init_with (build_tree_within budget')
                     (right_features parts) (right_labels parts)
                     (types (points self)) (h self - 1)
                     (min_split_points self) (beta self) ;;
              Ok (with_right self (Some r))
        end
    end
  else Ok self.

Definition build_tree (self : Tree) : result Tree :=
  build_tree_within (Z.to_nat (h self)) self.

Definition Tree_init (fs : list (list Q)) (ls : list bool)
           (ts : list FeaturesTypes) (h0 : Z) (msp : Z) (beta0 : Q)
  : result Tree :=
  Tree_init_with build_tree fs ls ts h0 msp beta0.

(** [np.count_nonzero] on an array of booleans. *)
Definition count_nonzero (ls : list bool) : Z :=
  Z.of_nat (length (filter (fun b : bool => b) ls)).

(** Lines 140-142: what a leaf answers. *)
Definition leaf_decision (ps : PointSet) : bool :=
  let true_count := count_nonzero (labels ps) in
  let false_count := (Z.of_nat (length (labels ps)) - true_count)%Z in
  (true_count >=? false_count)%Z.

(** Lines 145-154, 176-185 and 207-216: the side the split descriptor
    of [self] sends a point to ([true] is left). *)
Definition goes_left (self : Tree) (fs : list Q) : result bool :=
  match feature_split self with
  | None =>
      fid <- number (feature_id self) ;;
      x <- index fs fid ;;
      thr <- number (feature_threshold self) ;;
      Ok (Qlt_bool x thr)
  | Some split =>
      fid <- number (feature_id self) ;;
      x <- index fs fid ;;
      Ok (member x (fst split))
  end.

Fixpoint decide (self : Tree) (fs : list Q) : result bool :=
  if (h self =? 0)%Z then Ok (leaf_decision (points self))
  else
    to_left <- goes_left self fs ;;
    if to_left
    then match left self with
         | Some l => decide l fs
         | None => Raise AttributeError
         end
    else match right self with
         | Some r => decide r fs
         | None => Raise AttributeError
         end.

(** [all(f == point[j] for j, f in enumerate(features))], from position
    [j] on: it stops at the first difference. *)
Fixpoint all_match (j : nat) (fs : list Q) (point : list Q) : result bool :=
  match fs with
  | [] => Ok true
  | f :: fs' =>
      x <- index point j ;;
      if Qeq_bool f x then all_match (S j) fs' point else Ok false
  end.

(** Lines 164-168: the indices of all the stored points equal to the
    given one. *)
Fixpoint all_matches (i : nat) (pts : list (list Q)) (fs : list Q)
  : result (list nat) :=
  match pts with
  | [] => Ok []
  | point :: pts' =>
      m <- all_match 0 fs point ;;
      rest <- all_matches (S i) pts' fs ;;
      Ok (if m then i :: rest else rest)
  end.

(** Lines 189-194: the index of the first stored point equal to the
    given one; the loop breaks there. *)
Fixpoint first_match (i : nat) (pts : list (list Q)) (fs : list Q)
  : result (list nat) :=
  match pts with
  | [] => Ok []
  | point :: pts' =>
      m <- all_match 0 fs point ;;
      if m then Ok [i] else first_match (S i) pts' fs
  end.

(** [[x for i, x in enumerate(xs) if i not in indices_to_remove]]. *)
Definition without {A : Type} (indices_to_remove : list nat) (xs : list A)
  : list A :=
  map snd (filter (fun ix => negb (existsb (Nat.eqb (fst ix)) indices_to_remove))
                  (combine (seq 0 (length xs)) xs)).

(** Lines 162 and 199: the amortized-rebuild condition
    [counter >= beta * len(points.features)]. *)
Definition rebuild_due (self : Tree) : bool :=
  Qle_bool (beta self * inject_Z (Z.of_nat (length (features (points self)))))
           (inject_Z (Z.of_nat (counter self))).

(** Lines 157-160: the local update of an insertion. *)
Definition add_local (self : Tree) (fs : list Q) (label : bool) : Tree :=
  let self := with_counter self (counter self + 1) in
  if (h self >? 0)%Z
  then with_points self
         (PointSet_init (features (points self) ++ [fs])
                        (labels (points self) ++ [label])
                        (types (points self)))
  else self.

Fixpoint add_training_point (self : Tree) (fs : list Q) (label : bool)
  : result Tree :=
  let self' := add_local self fs label in
  if rebuild_due self' then
    let self' := with_counter self' 0 in
    _ <- all_matches 0 (features (points self')) fs ;;
    build_tree self'
  else if (h self' =? 0)%Z then Ok self'
  else
    to_left <- goes_left self' fs ;;
    if to_left
    then match left self with
         | Some l => l' <- add_training_point l fs label ;;
                     Ok (with_left self' (Some l'))
         | None => Raise AttributeError
         end
    else match right self with
         | Some r => r' <- add_training_point r fs label ;;
                     Ok (with_right self' (Some r'))
         | None => Raise AttributeError
         end.

(** Lines 188-197: the local update of a deletion. *)
Definition del_local (self : Tree) (fs : list Q) : result Tree :=
  let self := with_counter self (counter self + 1) in
  indices_to_remove <- first_match 0 (features (points self)) fs ;;
  if (h self >? 0)%Z
  then Ok (with_points self
             (PointSet_init (without indices_to_remove (features (points self)))
                            (without indices_to_remove (labels (points self)))
                            (types (points self))))
  else Ok self.

Fixpoint del_training_point (self : Tree) (fs : list Q) (label : bool)
  : result Tree :=
  self' <- del_local self fs ;;
  if rebuild_due self' then
    let self' := with_counter self' 0 in
    build_tree self'
  else if (h self' =? 0)%Z then Ok self'
  else
    to_left <- goes_left self' fs ;;
    if to_left
    then match left self with
         | Some l => l' <- del_training_point l fs label ;;
                     Ok (with_left self' (Some l'))
         | None => Raise AttributeError
         end
    else match right self with
         | Some r => r' <- del_training_point r fs label ;;
                     Ok (with_right self' (Some r'))
         | None => Raise AttributeError
         end.

(** ** Notions the statements are phrased with *)

(** The number of labels equal to [b]. *)
Definition count_label (b : bool) (ls : list bool) : Z :=
  Z.of_nat (length (filter (Bool.eqb b) ls)).

(** The sorted values of the continuous column [i], as lines 102-104
    compute them, and the labels in the same order. *)
Definition sorted_values (ps : PointSet) (i : nat) : list Q :=
  take (column i (features ps)) 0%Q (argsort (column i (features ps))).

Definition sorted_labels_of (ps : PointSet) (i : nat) : list bool :=
  take (labels ps) false (argsort (column i (features ps))).

(** The counts of the cut that leaves the first [k] sorted points below
    it. *)
Definition cut_counts (sorted_labels : list bool) (k : nat) : counts :=
  mkCounts (count_label false (firstn k sorted_labels))
           (count_label true (firstn k sorted_labels))
           (count_label false (skipn k sorted_labels))
           (count_label true (skipn k sorted_labels)).

(** The number of points whose feature value and label satisfy [p]. *)
Definition count_where (p : Q -> bool -> bool) (f_values : list Q)
           (ls : list bool) : Z :=
  Z.of_nat (length (filter (fun fl => p (fst fl) (snd fl))
                           (combine f_values ls))).

(** The counts of the one-against-the-rest split on the value [val]:
    the points equal to [val] on one side, the others on the other. *)
Definition class_counts (f_values : list Q) (ls : list bool) (val : Q) : counts :=
  mkCounts (count_where (fun f l => negb l && Qeq_bool f val) f_values ls)
           (count_where (fun f l => l && Qeq_bool f val) f_values ls)
           (count_where (fun f l => negb l && negb (Qeq_bool f val)) f_values ls)
           (count_where (fun f l => l && negb (Qeq_bool f val)) f_values ls).

(** The counts of the split of a continuous column at the value [v]:
    the points whose value is less than [v] on one side, the others on
    the other. *)
Definition below_counts (f_values : list Q) (ls : list bool) (v : Q) : counts :=
  mkCounts (count_where (fun f l => negb l && Qlt_bool f v) f_values ls)
           (count_where (fun f l => l && Qlt_bool f v) f_values ls)
           (count_where (fun f l => negb l && negb (Qlt_bool f v)) f_values ls)
           (count_where (fun f l => l && negb (Qlt_bool f v)) f_values ls).

(** A candidate split is usable when both sides are inhabited and
    neither is below the floor. *)
Definition usable (min_split_points : option Z) (c : counts) : bool :=
  negb ((c00 c + c01 c =? 0) || (c10 c + c11 c =? 0))%Z
  && negb (below_floor min_split_points c).

(** The counts of every candidate of feature [i], in the order of the
    scan. *)
Definition candidates (ps : PointSet) (i : nat) (f_type : FeaturesTypes)
  : list counts :=
  let f_values := column i (features ps) in
  match f_type with
  | REAL =>
      map (cut_counts (sorted_labels_of ps i))
          (filter (fun k => negb (skip_position k (sorted_values ps i)))
                  (seq 0 (length (sorted_values ps i))))
  | CLASSES => map (class_counts f_values (labels ps)) (unique f_values)
  | BOOLEAN => [class_counts f_values (labels ps) 0%Q]
  end.

Definition no_usable_split (ps : PointSet) (min_split_points : option Z) : bool :=
  forallb (fun i =>
             match nth_error (types ps) i with
             | Some f_type =>
                 forallb (fun c => negb (usable min_split_points c))
                         (candidates ps i f_type)
             | None => false
             end)
          (seq 0 (ncols (features ps))).

(** The threshold kept while a continuous feature leads is the one of a
    cut of that feature. *)
Definition cut_recorded (ps : PointSet) (s : search) : Prop :=
  forall i,
    fst (res s) = Some i ->
    nth_error (types ps) i = Some REAL ->
    exists k,
      (k < length (sorted_values ps i))%nat /\
      skip_position k (sorted_values ps i) = false /\
      threshold_found s = Some (cut_threshold k (sorted_values ps i)).

(** A sequence of split searches on one point set. *)
Fixpoint run_searches (ps : PointSet) (floors : list (option Z))
  : result (list (option nat * option Q) * PointSet) :=
  match floors with
  | [] => Ok ([], ps)
  | m :: floors' =>
      '(r, ps1) <- get_best_gain ps m ;;
      '(rs, ps2) <- run_searches ps1 floors' ;;
      Ok (r :: rs, ps2)
  end.

(** The answers of the leaves, left to right; a leaf is a node of
    height 0, where [decide] stops. *)
Fixpoint leaf_predictions (t : Tree) : list bool :=
  if (h t =? 0)%Z then [leaf_decision (points t)]
  else match left t with Some l => leaf_predictions l | None => [] end
       ++ match right t with Some r => leaf_predictions r | None => [] end.

(** The number of points a node holds. *)
Definition point_count (t : Tree) : nat := length (features (points t)).

(** The number of points of each leaf, left to right. *)
Fixpoint leaf_sizes (t : Tree) : list nat :=
  if (h t =? 0)%Z then [point_count t]
  else match left t with Some l => leaf_sizes l | None => [] end
       ++ match right t with Some r => leaf_sizes r | None => [] end.

(** [t'] is [t] with, at most, another value of the operation counter. *)
Definition unchanged_but_counter (t t' : Tree) : Prop :=
  t' = with_counter t (counter t').

(** The computation did not stop for want of recursion budget. *)
Definition within_budget {A : Type} (r : result A) : Prop :=
  r <> Raise RecursionDepth.

(** What an operation that meets no rebuild condition leaves in place. *)
Definition same_leaves (t u : Tree) : Prop :=
  h u = h t /\
  leaf_predictions u = leaf_predictions t /\
  leaf_sizes u = leaf_sizes t.

(** An insertion is absorbed when no node on its path meets the rebuild
    condition. *)
Fixpoint add_absorbed (self : Tree) (fs : list Q) (label : bool) : bool :=
  let self' := add_local self fs label in
  negb (rebuild_due self') &&
  ((h self' =? 0)%Z ||
   match goes_left self' fs with
   | Ok true => match left self with
                | Some l => add_absorbed l fs label
                | None => false
                end
   | Ok false => match right self with
                 | Some r => add_absorbed r fs label
                 | None => false
                 end
   | Raise _ => false
   end).

(** A deletion is absorbed when no node on its path meets the rebuild
    condition. *)
Fixpoint del_absorbed (self : Tree) (fs : list Q) (label : bool) : bool :=
  match del_local self fs with
  | Ok self' =>
      negb (rebuild_due self') &&
      ((h self' =? 0)%Z ||
       match goes_left self' fs with
       | Ok true => match left self with
                    | Some l => del_absorbed l fs label
                    | None => false
                    end
       | Ok false => match right self with
                     | Some r => del_absorbed r fs label
                     | None => false
                     end
       | Raise _ => false
       end)
  | Raise _ => false
  end.

(** The scenario of the specification: two continuous-and-categorical
    points of each label; the categories are coded 1 and 0. *)
Definition true_cat : Q := 1.
Definition false_cat : Q := 0.

Definition scenario_points : list (list Q) :=
  [[1 # 10; true_cat]; [2 # 10; true_cat]; [9 # 10; false_cat]; [8 # 10; false_cat]].

Definition scenario_tree : result Tree :=
  Tree_init scenario_points [true; true; false; false] [REAL; CLASSES] 1 1 0.

(** The same tree with a rebuild factor of 10: its nodes absorb the
    operations of a short session. *)
Definition patient_scenario_tree : result Tree :=
  Tree_init scenario_points [true; true; false; false] [REAL; CLASSES] 1 1 10.

(** ** Further notions: the split search *)

(** Two point sets hold the same data; the stored winner of a search may
    differ. *)
Definition same_data (ps ps' : PointSet) : Prop :=
  types ps' = types ps /\ features ps' = features ps /\ labels ps' = labels ps.

(** The gain line 148 computes for a candidate with counts [c]. *)
Definition split_gain (ps : PointSet) (c : counts) : Q :=
  let total := Z.of_nat (length (labels ps)) in
  gini_gain_of (gini_of (count_label_true (labels ps)) total) total c.

(** [c] is the counts of a candidate split of feature [i]. *)
Definition candidate_of (ps : PointSet) (i : nat) (c : counts) : Prop :=
  exists f_type,
    nth_error (types ps) i = Some f_type /\ In c (candidates ps i f_type).

(** The best split so far is a usable candidate among those seen, and no
    usable candidate seen has a larger gain. *)
Definition best_of (ps : PointSet) (m : option Z)
           (seen : nat -> counts -> Prop) (s : search) : Prop :=
  (res s = (None, None) \/
   exists i c, res s = (Some i, Some (split_gain ps c)) /\
               seen i c /\ usable m c = true) /\
  (forall i c, seen i c -> usable m c = true ->
               exists g, snd (res s) = Some g /\ (split_gain ps c <= g)%Q).

(** The four counts split the points of [ps]: they are not negative,
    add up to the number of points, and the two counts of true labels
    add up to the number of true labels. *)
Definition splits_points (ps : PointSet) (c : counts) : Prop :=
  (0 <= c00 c /\ 0 <= c01 c /\ 0 <= c10 c /\ 0 <= c11 c)%Z /\
  (c00 c + c01 c + c10 c + c11 c = Z.of_nat (length (labels ps)))%Z /\
  (c01 c + c11 c = count_label true (labels ps))%Z.

(** The feature a search has in hand, if any, is one of the typed
    columns. *)
Definition leader_typed (ps : PointSet) (s : search) : Prop :=
  (res s = (None, None) \/ exists i g, res s = (Some i, Some g)) /\
  forall b, fst (res s) = Some b -> (b < length (types ps))%nat.

(** ** Further notions: trees *)

(** Lines 82-85: the pair stored as the split of a feature that is not
    continuous. *)
Definition split_of (ps : PointSet) (fid : nat) (thr : option Q)
  : list Q * list Q :=
  match thr with
  | Some th =>
      ([th], distinct (filter (fun f => negb (Qeq_bool f th))
                              (column fid (features ps))))
  | None => ([0%Q], [1%Q])
  end.

(** Lines 81-90: the node with the split descriptor of the winner. *)
Definition install_split (self : Tree) (fid : nat) (f_type : FeaturesTypes)
           (thr : option Q) : Tree :=
  with_feature_id
    (if negb (FeaturesTypes_eqb f_type REAL)
     then with_feature_split self (Some (split_of (points self) fid thr))
     else with_feature_threshold self thr)
    (Some fid).

(** Lines 92-101: the partition of the points of [ps] by the winner. *)
Definition partition_of (ps : PointSet) (fid : nat) (f_type : FeaturesTypes)
           (thr : option Q) : result partition :=
  for_each (seq 0 (length (features ps)))
           (partition_step ps fid (FeaturesTypes_eqb f_type REAL) thr
                           (split_of ps fid thr))
           (mkPartition [] [] [] []).

(** Line 117: a side of the partition is below the floor. *)
Definition side_too_small (self : Tree) (parts : partition) : bool :=
  ((Z.of_nat (length (left_features parts)) <? min_split_points self)
   || (Z.of_nat (length (right_features parts)) <? min_split_points self))%Z.

(** What a run of [build_tree] on a node of positive height does:
    the node collapses for want of a split, or collapses because a side
    is too small, or gets two children built from the two sides. *)
Inductive built (budget : nat) (self : Tree) : Tree -> Prop :=
| built_no_split r ps :
    get_best_gain (points self) (Some (min_split_points self)) = Ok (r, ps) ->
    fst r = None ->
    built budget self (with_h (with_points (with_counter self 0) ps) 0)
| built_small_side r ps fid f_type thr parts :
    get_best_gain (points self) (Some (min_split_points self)) = Ok (r, ps) ->
    fst r = Some fid ->
    index (types ps) fid = Ok f_type ->
    get_best_threshold ps = Ok thr ->
    partition_of ps fid f_type thr = Ok parts ->
    side_too_small self parts = true ->
    built budget self
          (with_h (install_split (with_points (with_counter self 0) ps)
                                 fid f_type thr) 0)
| built_children r ps fid f_type thr parts l r' :
    get_best_gain (points self) (Some (min_split_points self)) = Ok (r, ps) ->
    fst r = Some fid ->
    index (types ps) fid = Ok f_type ->
    get_best_threshold ps = Ok thr ->
    partition_of ps fid f_type thr = Ok parts ->
    side_too_small self parts = false ->
    Tree_init_with (build_tree_within budget)
                   (left_features parts) (left_labels parts) (types ps)
                   (h self - 1) (min_split_points self) (beta self) = Ok l ->
    Tree_init_with (build_tree_within budget)
                   (right_features parts) (right_labels parts) (types ps)
                   (h self - 1) (min_split_points self) (beta self) = Ok r' ->
    built budget self
          (with_right
             (with_left (install_split (with_points (with_counter self 0) ps)
                                       fid f_type thr)
                        (Some l))
             (Some r')).

(** A tree is sound when the point set of every node [decide] can reach
    is well formed and every such node of height other than 0 has a
    positive height, a split on one of the typed columns, a threshold if
    it has no categorical split, and two sound children of smaller
    height over the same feature types. *)
Fixpoint sound (t : Tree) : Prop :=
  well_formed (points t) /\
  (h t = 0%Z \/
   ((0 < h t)%Z /\
    (exists fid, feature_id t = Some fid /\
                 (fid < length (types (points t)))%nat) /\
    (feature_split t = None -> feature_threshold t <> None) /\
    match left t, right t with
    | Some l, Some r =>
        types (points l) = types (points t) /\
        types (points r) = types (points t) /\
        (h l < h t)%Z /\ (h r < h t)%Z /\
        sound l /\ sound r
    | _, _ => False
    end)).

(** The number of decisions on the longest path [decide] can take. *)
Fixpoint depth (t : Tree) : nat :=
  if (h t =? 0)%Z then 0%nat
  else Datatypes.S (Nat.max match left t with Some l => depth l | None => 0%nat end
                            match right t with Some r => depth r | None => 0%nat end).

(** Line 96: the rule the partition loop sends a point left by. *)
Definition routes_left (fid : nat) (f_type : FeaturesTypes) (thr : option Q)
           (split : list Q * list Q) (point : list Q) : bool :=
  let x := nth fid point 0%Q in
  if FeaturesTypes_eqb f_type REAL
  then match thr with
       | Some t => Qlt_bool x t
       | None => false
       end
  else member x (fst split).

(** The labelled points that satisfy [go] and those that do not, each in
    the order of the list. *)
Definition sides (go : list Q -> bool) (pairs : list (list Q * bool))
  : partition :=
  mkPartition (map fst (filter (fun pl => go (fst pl)) pairs))
              (map snd (filter (fun pl => go (fst pl)) pairs))
              (map fst (filter (fun pl => negb (go (fst pl))) pairs))
              (map snd (filter (fun pl => negb (go (fst pl))) pairs)).

(** ** evaluation.py *)

(** [sum(1 for expected, actual in zip(...) if p(expected, actual))]. *)
Definition count_pairs (p : bool -> bool -> bool)
           (expected_results actual_results : list bool) : Z :=
  Z.of_nat (length (filter (fun ea => p (fst ea) (snd ea))
                           (combine expected_results actual_results))).

(** [a / b] on two numbers, with the exception of a zero divisor. *)
Definition true_div (a b : Q) : result Q :=
  if Qeq_bool b 0 then Raise ZeroDivisionError else Ok (a / b)%Q.

Definition true_positive : list bool -> list bool -> Z :=
  count_pairs (fun expected actual => expected && actual).

Definition false_negative : list bool -> list bool -> Z :=
  count_pairs (fun expected actual => expected && negb actual).

Definition false_positive : list bool -> list bool -> Z :=
  count_pairs (fun expected actual => negb expected && actual).

Definition precision_recall (expected_results actual_results : list bool)
  : result (Q * Q) :=
  let tp := true_positive expected_results actual_results in
  let fn := false_negative expected_results actual_results in
  let fp := false_positive expected_results actual_results in
  if (tp + fp =? 0)%Z then Ok (1%Q, 1%Q)
  else
    precision <- true_div (inject_Z tp) (inject_Z (tp + fp)) ;;
    recall <- true_div (inject_Z tp) (inject_Z (tp + fn)) ;;
    Ok (precision, recall).

Definition F1_score (expected_results actual_results : list bool)
  : result Q :=
  pr <- precision_recall expected_results actual_results ;;
  true_div (2 * (fst pr * snd pr))%Q (fst pr + snd pr)%Q.

(** The pairs [zip] makes of the two lists. *)
Definition graded (expected_results actual_results : list bool)
  : list (bool * bool) :=
  combine expected_results actual_results.

(** ** main.py *)

(** Lines 13-15 of [build]: the predictions of the tree for the points
    held back. *)
Definition predictions (current_tree : Tree) (pts : list (list Q))
  : result (list bool) :=
  for_each pts
           (fun actual_results point_features =>
              d <- decide current_tree point_features ;;
              Ok (actual_results ++ [d]))
           [].

(** [build] from line 11 on.  The data [load_data] returns and the
    number [training_nb] line 10 computes, which is not negative, are
    parameters; the tree printed on line 16 is not part of the value
    returned. *)
Definition build (fs : list (list Q)) (ls : list bool)
           (ts : list FeaturesTypes) (training_nb : nat)
           (h0 msp : Z) (beta0 : Q) : result Q :=
  current_tree <- Tree_init (firstn training_nb fs) (firstn training_nb ls)
                            ts h0 msp beta0 ;;
  let expected_results := skipn training_nb ls in
  actual_results <- predictions current_tree (skipn training_nb fs) ;;
  F1_score expected_results actual_results.

(** Lines 30-33: one round of [build_FuDyADT], on the point at position
    [i] of those held back. *)
Definition FuDyADT_step (fs : list (list Q)) (ls : list bool)
           (st : Tree * list bool) (x : nat * (list Q * bool))
  : result (Tree * list bool) :=
  let current_tree := fst st in
  let actual_results := snd st in
  let i := fst x in
  let point_features := fst (snd x) in
  let point_label := snd (snd x) in
  d <- decide current_tree point_features ;;
  t1 <- add_training_point current_tree point_features point_label ;;
  del_point_feat <- index fs i ;;
  del_point_lab <- index ls i ;;
  t2 <- del_training_point t1 del_point_feat del_point_lab ;;
  Ok (t2, actual_results ++ [d]).

(** [enumerate(xs)]. *)
Definition enumerate {A : Type} (xs : list A) : list (nat * A) :=
  combine (seq 0 (length xs)) xs.

(** [build_FuDyADT] from line 25 on, with the same parameters as
    [build]. *)
Definition build_FuDyADT (fs : list (list Q)) (ls : list bool)
           (ts : list FeaturesTypes) (training_nb : nat)
           (h0 msp : Z) (beta0 : Q) : result Q :=
  current_tree <- Tree_init (firstn training_nb fs) (firstn training_nb ls)
                            ts h0 msp beta0 ;;
  let expected_results := skipn training_nb ls in
  st <- for_each (enumerate (combine (skipn training_nb fs)
                                     (skipn training_nb ls)))
                 (FuDyADT_step fs ls) (current_tree, []) ;;
  F1_score expected_results (snd st).

(** ** Further notions: routing *)

(** The side [decide] sends a point to at the node [t]. *)
Definition decides_left (t : Tree) (point : list Q) : bool :=
  match goes_left t point with
  | Ok to_left => to_left
  | Raise _ => false
  end.

(** At every node [decide] can reach, the children hold the points of
    the node that [decide] sends to them, with their labels, in the
    order of the node. *)
Fixpoint routed (t : Tree) : Prop :=
  h t = 0%Z \/
  match left t, right t with
  | Some l, Some r =>
      mkPartition (features (points l)) (labels (points l))
                  (features (points r)) (labels (points r))
      = sides (decides_left t)
              (combine (features (points t)) (labels (points t))) /\
      routed l /\ routed r
  | _, _ => False
  end.

(** ** Further notions: the sizes of the two sides *)

(** The split in hand is the candidate it was taken from: the threshold
    or the category kept with it is the one of a candidate whose two
    sides are inhabited and not below the floor, and the gain kept with
    it is the gain of that candidate. *)
Definition split_recorded (ps : PointSet) (m : option Z) (s : search) : Prop :=
  forall i,
    fst (res s) = Some i ->
    match nth_error (types ps) i with
    | Some REAL =>
        exists k,
          (k < length (sorted_values ps i))%nat /\
          skip_position k (sorted_values ps i) = false /\
          threshold_found s = Some (cut_threshold k (sorted_values ps i)) /\
          usable m (cut_counts (sorted_labels_of ps i) k) = true /\
          snd (res s)
          = Some (split_gain ps (cut_counts (sorted_labels_of ps i) k))
    | Some CLASSES =>
        exists val,
          category_id_found s = Some val /\
          usable m (class_counts (column i (features ps)) (labels ps) val)
          = true /\
          snd (res s)
          = Some (split_gain ps (class_counts (column i (features ps))
                                              (labels ps) val))
    | Some BOOLEAN =>
        usable m (class_counts (column i (features ps)) (labels ps) 0%Q)
        = true /\
        snd (res s)
        = Some (split_gain ps (class_counts (column i (features ps))
                                            (labels ps) 0%Q))
    | None => False
    end.

(** The number of points on each side of a split. *)
Definition left_size (c : counts) : Z := (c00 c + c01 c)%Z.
Definition right_size (c : counts) : Z := (c10 c + c11 c)%Z.

(** ** Further notions: answers *)

(** Two children, both there or both missing, give the same answer to
    the query [q]. *)
Definition same_answer (q : list Q) (a b : option Tree) : Prop :=
  match a, b with
  | Some x, Some y => decide x q = decide y q
  | None, None => True
  | _, _ => False
  end.


(** Two nodes that [decide] cannot tell apart: the same height and
    points and, unless they are leaves, the same feature, the same
    categorical split, the same threshold where there is no such split,
    and the same children. *)
Definition decides_alike (a b : Tree) : Prop :=
  h a = h b /\
  points a = points b /\
  ((h a =? 0)%Z = false ->
   feature_id a = feature_id b /\
   feature_split a = feature_split b /\
   (feature_split a = None -> feature_threshold a = feature_threshold b) /\
   left a = left b /\
   right a = right b).

(** ** Further notions: the operation counters *)

(** No node [decide] can reach is left with a rebuild due: its
    operation counter is 0 or below [beta] times the number of its
    points. *)
Fixpoint amortized (t : Tree) : Prop :=
  (counter t = 0%nat \/ rebuild_due t = false) /\
  (h t = 0%Z \/
   (match left t with Some l => amortized l | None => True end /\
    match right t with Some r => amortized r | None => True end)).

(** ** Further notions: a session *)

(** [t'] is what a sequence of insertions and deletions of points with
    one feature per feature type of [ts] makes of [t]. *)
Inductive updated (ts : list FeaturesTypes) (t : Tree) : Tree -> Prop :=
| updated_none : updated ts t t
| updated_add t1 t2 fs label :
    updated ts t t1 ->
    length fs = length ts ->
    add_training_point t1 fs label = Ok t2 ->
    updated ts t t2
| updated_del t1 t2 fs label :
    updated ts t t1 ->
    length fs = length ts ->
    del_training_point t1 fs label = Ok t2 ->
    updated ts t t2.

(** Every node [decide] can reach has its operation counter at 0. *)
Fixpoint counters_reset (t : Tree) : Prop :=
  counter t = 0%nat /\
  (h t = 0%Z \/
   (match left t with Some l => counters_reset l | None => True end /\
    match right t with Some r => counters_reset r | None => True end)).

(** * Properties *)

(** ** Comparisons and the result monad *)

Lemma Qlt_bool_iff (x y : Q) : Qlt_bool x y = true <-> (x < y)%Q.
Proof.
  unfold Qlt_bool. rewrite negb_true_iff.
  split; intro H.
  - apply Qnot_le_lt. intro Hle. apply Qle_bool_iff in Hle. congruence.
  - destruct (Qle_bool y x) eqn:E; trivial.
    apply Qle_bool_iff in E. exfalso. exact (Qlt_not_le _ _ H E).
Qed.

Lemma Qeq_bool_refl (x : Q) : Qeq_bool x x = true.
Proof. apply Qeq_bool_iff. reflexivity. Qed.

Lemma bind_Ok {A B : Type} (m : result A) (f : A -> result B) (b : B) :
  bind m f = Ok b -> exists a, m = Ok a /\ f a = Ok b.
Proof. destruct m as [a|e]; simpl; intro H; [eauto | discriminate]. Qed.

(** Inverts a hypothesis [x <- m ;; k = Ok b]. *)
Ltac bind_inv H :=
  let a := fresh "a" in
  let Ha := fresh "Ha" in
  apply bind_Ok in H; destruct H as (a & Ha & H).

(** ** Gini impurity *)

Lemma count_label_true_from (ls : list bool) (c : Z) :
  fold_left (fun c (label : bool) => if label then (c + 1)%Z else c) ls c
  = (c + count_nonzero ls)%Z.
Proof.
  revert c. induction ls as [|b ls IH]; intro c; simpl.
  - unfold count_nonzero; simpl; lia.
  - rewrite IH. unfold count_nonzero. destruct b; simpl length; lia.
Qed.

Lemma count_label_true_nonzero (ls : list bool) :
  count_label_true ls = count_nonzero ls.
Proof. unfold count_label_true. rewrite count_label_true_from. lia. Qed.

Lemma count_nonzero_true (ls : list bool) :
  count_nonzero ls = count_label true ls.
Proof.
  unfold count_nonzero, count_label. do 2 f_equal.
  apply filter_ext. intros []; reflexivity.
Qed.

Lemma count_label_split (ls : list bool) :
  (count_label true ls + count_label false ls = Z.of_nat (length ls))%Z.
Proof.
  unfold count_label. induction ls as [|[] ls IH];
    cbn [filter Bool.eqb length] in *; lia.
Qed.

Lemma count_label_nonneg (b : bool) (ls : list bool) :
  (0 <= count_label b ls)%Z.
Proof. unfold count_label. lia. Qed.


Lemma inject_Z_nonzero (n : Z) : n <> 0%Z -> ~ (inject_Z n == 0)%Q.
Proof. intros Hn E. unfold Qeq in E. simpl in E. lia. Qed.

Lemma gini_of_closed (c n : Z) :
  (0 < n)%Z ->
  (gini_of c n == inject_Z (2 * c * (n - c)) / inject_Z (n * n))%Q.
Proof.
  intro Hn. unfold gini_of, int_div.
  rewrite !inject_Z_mult.
  assert (Hm : (inject_Z (n - c) == inject_Z n - inject_Z c)%Q)
    by (unfold Qminus; rewrite <- inject_Z_opp, <- inject_Z_plus; reflexivity).
  rewrite !Hm.
  field. apply inject_Z_nonzero. lia.
Qed.

Lemma gini_of_range (c n : Z) :
  (0 < n)%Z -> (0 <= c <= n)%Z ->
  (0 <= gini_of c n <= 1 # 2)%Q.
Proof.
  intros Hn Hc. rewrite (gini_of_closed c n Hn).
  assert (Hnn : (0 < inject_Z (n * n))%Q).
  { change 0%Q with (inject_Z 0). rewrite <- Zlt_Qlt. nia. }
  split.
  - apply Qle_shift_div_l; trivial. rewrite Qmult_0_l.
    change 0%Q with (inject_Z 0). rewrite <- Zle_Qle. nia.
  - apply Qle_shift_div_r; trivial.
    unfold Qle, Qmult, inject_Z; cbn [Qnum Qden].
    change (Z.pos (2 * 1)) with 2%Z.
    pose proof (Z.square_nonneg (n - 2 * c)). nia.
Qed.



Lemma get_gini_nonempty (ps : PointSet) :
  labels ps <> [] ->
  get_gini ps
  = Ok (gini_of (count_label true (labels ps)) (Z.of_nat (length (labels ps)))).
Proof.
  intro Hne. unfold get_gini.
  destruct (labels ps) as [|b ls] eqn:E; [congruence|].
  rewrite count_label_true_nonzero, count_nonzero_true.
  reflexivity.
Qed.



(** ** The stored winner of the split search *)

Lemma get_best_gain_selected (ps : PointSet) (m : option Z)
      (r : option nat * option Q) (ps' : PointSet) :
  get_best_gain ps m = Ok (r, ps') ->
  types ps' = types ps /\
  selected_feature_id ps'
  = match fst r with
    | Some i => Some i
    | None => selected_feature_id ps
    end.
Proof.
  unfold get_best_gain.
  destruct (length (features ps) =? 0)%nat.
  - intro H. injection H as <- <-. auto.
  - intro H. bind_inv H.
    destruct (fst (res a)) as [best|] eqn:Eb.
    + bind_inv H. injection H as <- <-. rewrite Eb.
      destruct (FeaturesTypes_eqb a0 REAL), (FeaturesTypes_eqb a0 CLASSES);
        simpl; auto.
    + injection H as <- <-. rewrite Eb. auto.
Qed.

Lemma get_best_threshold_unset (ps : PointSet) :
  get_best_threshold ps = Raise CallGetBestGainFirst
  <-> selected_feature_id ps = None.
Proof.
  unfold get_best_threshold.
  destruct (selected_feature_id ps) as [i|].
  - split; [|discriminate].
    unfold index. destruct (nth_error (types ps) i) as [[]|]; discriminate.
  - split; trivial.
Qed.

Lemma run_searches_selected (floors : list (option Z)) :
  forall ps rs ps',
    run_searches ps floors = Ok (rs, ps') ->
    (selected_feature_id ps' = None <->
     selected_feature_id ps = None /\ Forall (fun r => fst r = None) rs).
Proof.
  induction floors as [|m floors IH]; intros ps rs ps' H; simpl in H.
  - injection H as <- <-. split; [auto | tauto].
  - bind_inv H. destruct a as [r ps1]. bind_inv H. destruct a as [rs' ps2].
    injection H as <- <-.
    apply get_best_gain_selected in Ha as [_ Hsel].
    apply IH in Ha0. rewrite Ha0, Hsel. split.
    + intros [H1 H2]. destruct (fst r) eqn:E; [discriminate|]. auto.
    + intros [H1 H2]. inversion H2 as [|? ? Hr Hrs]; subst.
      rewrite Hr. auto.
Qed.

(** C4, as the code has it.  [get_best_threshold] raises exactly when
    no search run so far on the point set has found a split: on a fresh
    point set, and after searches that all returned [(None, None)].
    After a search that returned feature [i] it returns the stored
    threshold when [i] is continuous, the stored category when [i] is
    categorical and [None] when [i] is boolean. *)
Theorem get_best_threshold_after_searches
        (fs : list (list Q)) (ls : list bool) (ts : list FeaturesTypes)
        (floors : list (option Z)) :
  forall rs ps',
    run_searches (PointSet_init fs ls ts) floors = Ok (rs, ps') ->
    (get_best_threshold ps' = Raise CallGetBestGainFirst
     <-> Forall (fun r => fst r = None) rs) /\
    (forall m i g ps'',
        get_best_gain ps' m = Ok ((Some i, g), ps'') ->
        exists t,
          nth_error (types ps'') i = Some t /\
          get_best_threshold ps''
          = Ok match t with
               | REAL => threshold ps''
               | CLASSES => category_id ps''
               | BOOLEAN => None
               end).
Proof.
  intros rs ps' H. split.
  - rewrite get_best_threshold_unset.
    apply run_searches_selected in H. rewrite H. simpl. tauto.
  - intros m i g ps'' Hg.
    pose proof (get_best_gain_selected _ _ _ _ Hg) as [Hty Hsel].
    simpl in Hsel.
    unfold get_best_gain in Hg.
    destruct (length (features ps') =? 0)%nat; [discriminate|].
    bind_inv Hg. destruct (fst (res a)) as [best|] eqn:Eb.
    2:{ injection Hg as Hr _. rewrite Hr in Eb. discriminate. }
    bind_inv Hg. injection Hg as Hr _.
    rewrite Hr in Eb. simpl in Eb. injection Eb as <-.
    unfold index in Ha0.
    destruct (nth_error (types ps') i) as [t|] eqn:Et; [|discriminate].
    exists t. rewrite Hty. split; trivial.
    unfold get_best_threshold. rewrite Hsel, Hty. unfold index. rewrite Et.
    simpl. destruct t; reflexivity.
Qed.

Lemma get_best_threshold_after_searches_witness :
  let ps := PointSet_init [[1%Q]; [2%Q]] [true; false] [REAL] in
  exists rs ps',
    run_searches ps [Some 1%Z] = Ok (rs, ps') /\
    (get_best_threshold ps' = Raise CallGetBestGainFirst
     <-> Forall (fun r => fst r = None) rs).
Proof.
  intro ps.
  destruct (run_searches ps [Some 1%Z]) as [[rs ps']|e] eqn:E;
    [|vm_compute in E; discriminate].
  exists rs, ps'. split; trivial.
  exact (proj1 (get_best_threshold_after_searches
                  [[1%Q]; [2%Q]] [true; false] [REAL] [Some 1%Z] rs ps' E)).
Defined.

(** C4 as stated fails: a search has been run on this one-point set, it
    found no split, and [get_best_threshold] still raises. *)
Lemma get_best_threshold_raises_after_search :
  let ps := PointSet_init [[1%Q]] [true] [REAL] in
  exists ps',
    get_best_gain ps (Some 1%Z) = Ok ((None, None), ps') /\
    get_best_threshold ps' = Raise CallGetBestGainFirst.
Proof. eexists. split; vm_compute; reflexivity. Qed.

(** ** Sorting *)

Lemma insert_index_perm (key : nat -> Q) (j : nat) (l : list nat) :
  Permutation (insert_index key j l) (j :: l).
Proof.
  induction l as [|x l IH]; simpl; [reflexivity|].
  destruct (Qle_bool (key j) (key x)); [reflexivity|].
  rewrite IH. apply perm_swap.
Qed.

Lemma argsort_perm (vs : list Q) :
  Permutation (argsort vs) (seq 0 (length vs)).
Proof.
  unfold argsort. induction (seq 0 (length vs)) as [|j l IH]; simpl.
  - reflexivity.
  - rewrite insert_index_perm. apply perm_skip, IH.
Qed.

Lemma argsort_length (vs : list Q) : length (argsort vs) = length vs.
Proof.
  rewrite (Permutation_length (argsort_perm vs)). apply length_seq.
Qed.

Lemma insert_index_sorted (key : nat -> Q) (j : nat) (l : list nat) :
  StronglySorted Qle (map key l) ->
  StronglySorted Qle (map key (insert_index key j l)).
Proof.
  induction l as [|x l IH]; simpl; intro Hs.
  - constructor; constructor.
  - destruct (Qle_bool (key j) (key x)) eqn:E.
    + apply Qle_bool_iff in E. inversion Hs as [|? ? Hs' Hall]; subst.
      simpl. constructor; [exact Hs|].
      constructor; [exact E|].
      eapply Forall_impl; [|exact Hall].
      intros y Hy. eapply Qle_trans; eassumption.
    + inversion Hs as [|? ? Hs' Hall]; subst.
      simpl. constructor; [apply IH; exact Hs'|].
      assert (Hlt : (key x <= key j)%Q).
      { apply Qlt_le_weak, Qnot_le_lt. intro Hle.
        apply Qle_bool_iff in Hle. congruence. }
      rewrite (Permutation_map key (insert_index_perm key j l)).
      simpl. constructor; assumption.
Qed.

Lemma argsort_sorted (vs : list Q) :
  StronglySorted Qle (take vs 0%Q (argsort vs)).
Proof.
  unfold take, argsort. induction (seq 0 (length vs)) as [|j l IH]; simpl.
  - constructor.
  - apply insert_index_sorted. exact IH.
Qed.

Lemma sorted_nth (l : list Q) :
  StronglySorted Qle l ->
  forall a b, (a <= b < length l)%nat -> (nth a l 0 <= nth b l 0)%Q.
Proof.
  induction 1 as [|x l Hs IH Hall]; intros a b Hab; simpl in Hab; [lia|].
  destruct a as [|a], b as [|b]; simpl; try lia.
  - apply Qle_refl.
  - rewrite Forall_forall in Hall. apply Hall, nth_In. lia.
  - apply IH. lia.
Qed.

Lemma argsort_in_range (vs : list Q) :
  Forall (fun j => (j < length vs)%nat) (argsort vs).
Proof.
  apply Forall_forall. intros j Hj.
  apply (Permutation_in _ (argsort_perm vs)) in Hj.
  apply in_seq in Hj. lia.
Qed.

Lemma fancy_index_Ok {A : Type} (a : list A) (d : A) (idx : list nat) :
  forall l, fancy_index a idx = Ok l -> l = take a d idx.
Proof.
  induction idx as [|j idx IH]; intros l H; simpl in H.
  - injection H as <-. reflexivity.
  - bind_inv H. bind_inv H. injection H as <-. simpl.
    rewrite <- (IH a1 Ha0). f_equal.
    unfold index in Ha. destruct (nth_error a j) as [x|] eqn:E; [|discriminate].
    injection Ha as <-. symmetry. apply nth_error_nth. exact E.
Qed.

Lemma fancy_index_in_range {A : Type} (a : list A) (d : A) (idx : list nat) :
  Forall (fun j => (j < length a)%nat) idx ->
  fancy_index a idx = Ok (take a d idx).
Proof.
  induction 1 as [|j idx Hj _ IH]; simpl; trivial.
  unfold index. destruct (nth_error a j) as [x|] eqn:E.
  - simpl. rewrite IH. simpl. rewrite (nth_error_nth _ _ d E). reflexivity.
  - apply nth_error_None in E. lia.
Qed.

Lemma take_length {A : Type} (a : list A) (d : A) (idx : list nat) :
  length (take a d idx) = length idx.
Proof. apply length_map. Qed.

Lemma sorted_values_length (ps : PointSet) (i : nat) :
  length (sorted_values ps i) = length (features ps).
Proof.
  unfold sorted_values. rewrite take_length, argsort_length.
  unfold column. apply length_map.
Qed.

(** ** The cuts of a continuous feature *)

Lemma skip_position_false (k : nat) (values : list Q) :
  skip_position k values = false <->
  (0 < k)%nat /\ ~ (nth k values 0 == nth (k - 1) values 0)%Q.
Proof.
  unfold skip_position. rewrite orb_false_iff, andb_false_iff.
  rewrite Nat.eqb_neq, Nat.ltb_ge. split.
  - intros [Hk [Hz|He]]; [lia|]. split; [lia|].
    intro E. apply Qeq_bool_iff in E. congruence.
  - intros [Hk Hne]. split; [lia|]. right.
    destruct (Qeq_bool (nth k values 0) (nth (k - 1) values 0)) eqn:E; trivial.
    apply Qeq_bool_iff in E. contradiction.
Qed.

Lemma cut_position_unique (values : list Q) (k1 k2 : nat) :
  StronglySorted Qle values ->
  (k1 < length values)%nat -> (k2 < length values)%nat ->
  skip_position k1 values = false ->
  skip_position k2 values = false ->
  (nth k1 values 0 == nth k2 values 0)%Q ->
  k1 = k2.
Proof.
  intros Hs.
  assert (G : forall a b, (a < b)%nat -> (b < length values)%nat ->
                          skip_position b values = false ->
                          (nth a values 0 == nth b values 0)%Q -> False).
  { intros a b Hab Hb Hsk E.
    apply skip_position_false in Hsk as [Hpos Hne]. apply Hne.
    apply Qle_antisym.
    - rewrite <- E. apply sorted_nth; trivial. lia.
    - apply sorted_nth; trivial. lia. }
  intros H1 H2 S1 S2 E.
  destruct (Nat.lt_trichotomy k1 k2) as [Hlt|[Heq|Hgt]]; trivial.
  - exfalso. exact (G k1 k2 Hlt H2 S2 E).
  - exfalso. symmetry in E. exact (G k2 k1 Hgt H1 S1 E).
Qed.

Lemma for_each_preserves {A S : Type} (P : S -> Prop)
      (body : S -> A -> result S) (xs : list A) :
  (forall s x s', In x xs -> P s -> body s x = Ok s' -> P s') ->
  forall s s', P s -> for_each xs body s = Ok s' -> P s'.
Proof.
  induction xs as [|x xs IH]; intros Hb s s' Hs H; simpl in H.
  - injection H as <-. exact Hs.
  - bind_inv H. apply (IH (fun s0 y s1 Hy => Hb s0 y s1 (or_intror Hy)) a s');
      trivial.
    apply (Hb s x a); simpl; auto.
Qed.

Lemma consider_cut_recorded (ps : PointSet) (m : option Z)
      (f_type : FeaturesTypes) (i k : nat) (values : list Q)
      (c : counts) (s s' : search) :
  nth_error (types ps) i = Some f_type ->
  (f_type = REAL ->
   values = sorted_values ps i /\ (k < length values)%nat /\
   skip_position k values = false) ->
  cut_recorded ps s ->
  consider ps m f_type i k values c s = Ok s' ->
  cut_recorded ps s'.
Proof.
  intros Hty Hreal Hs. unfold consider.
  destruct ((c00 c + c01 c =? 0) || (c10 c + c11 c =? 0))%Z;
    [intro H; injection H as <-; exact Hs|].
  destruct (get_gini ps) as [parent|e]; simpl; [|discriminate].
  match goal with |- (if ?b then _ else _) = _ -> _ => destruct b end;
    [|intro H; injection H as <-; exact Hs].
  destruct (below_floor m c); intro H; injection H as <-; [exact Hs|].
  intros j Hj Hreal_j. simpl in Hj. injection Hj as <-.
  rewrite Hty in Hreal_j. injection Hreal_j as ->.
  destruct (Hreal eq_refl) as (-> & Hk & Hsk).
  exists k. simpl. auto.
Qed.

Lemma feature_step_cut_recorded (ps : PointSet) (m : option Z)
      (s s' : search) (i : nat) :
  cut_recorded ps s ->
  feature_step ps m s i = Ok s' ->
  cut_recorded ps s'.
Proof.
  intros Hs H. unfold feature_step in H. bind_inv H.
  unfold index in Ha.
  destruct (nth_error (types ps) i) as [ty|] eqn:Ety; [|discriminate].
  injection Ha as <-. destruct ty.
  - revert H. apply for_each_preserves; trivial.
    intros s0 k s1 _ Hs0. unfold class_step. intro H. bind_inv H.
    revert H. apply consider_cut_recorded; trivial. discriminate.
  - revert H. apply for_each_preserves; trivial.
    intros s0 k s1 _ Hs0. unfold class_step. intro H. bind_inv H.
    revert H. apply consider_cut_recorded; trivial. discriminate.
  - bind_inv H. bind_inv H. bind_inv H. injection H as <-.
    apply (fancy_index_Ok _ 0%Q) in Ha0. fold (sorted_values ps i) in Ha0.
    subst a0. clear Ha. revert Ha1.
    apply (for_each_preserves (fun st => cut_recorded ps (snd st))); trivial.
    intros [c0 s0] k [c1 s1] Hk Hs0. unfold real_step. simpl in *.
    destruct (skip_position k _) eqn:Esk.
    + intro H. injection H as _ <-. exact Hs0.
    + intro H. bind_inv H. injection H as _ <-.
      revert Ha. apply consider_cut_recorded; trivial.
      intros _. apply in_seq in Hk. split; [reflexivity|]. split; [lia|].
      exact Esk.
Qed.

Lemma get_best_gain_cut (ps : PointSet) (m : option Z) (i : nat)
      (g : option Q) (ps' : PointSet) :
  get_best_gain ps m = Ok ((Some i, g), ps') ->
  nth_error (types ps) i = Some REAL ->
  exists k,
    (k < length (sorted_values ps i))%nat /\
    skip_position k (sorted_values ps i) = false /\
    threshold ps' = Some (cut_threshold k (sorted_values ps i)).
Proof.
  unfold get_best_gain. intros H Hty.
  destruct (length (features ps) =? 0)%nat; [discriminate|].
  bind_inv H.
  assert (Hrec : cut_recorded ps a).
  { revert Ha. apply for_each_preserves.
    - intros s0 j s1 _. apply feature_step_cut_recorded.
    - intros j Hj. discriminate Hj. }
  destruct (fst (res a)) as [best|] eqn:Eb.
  2:{ injection H as Hr _. rewrite Hr in Eb. discriminate. }
  bind_inv H. injection H as Hr <-.
  rewrite Hr in Eb. simpl in Eb. injection Eb as ->.
  unfold index in Ha0. rewrite Hty in Ha0. injection Ha0 as <-. simpl.
  apply Hrec; trivial. rewrite Hr. reflexivity.
Qed.

Lemma real_step_skipped (ps : PointSet) (m : option Z) (i k : nat)
      (values : list Q) (sorted_labels : list bool) (st : counts * search) :
  skip_position k values = true ->
  real_step ps m i values sorted_labels st k
  = Ok (move_point k sorted_labels (fst st), snd st).
Proof. intro Hsk. unfold real_step. rewrite Hsk. reflexivity. Qed.


(** ** Searches that find no split *)

Lemma take_all {A : Type} (a : list A) (d : A) :
  take a d (seq 0 (length a)) = a.
Proof.
  unfold take. induction a as [|x a IH]; simpl; trivial.
  f_equal. rewrite <- seq_shift, map_map. exact IH.
Qed.

Lemma count_label_perm (b : bool) (l l' : list bool) :
  Permutation l l' -> count_label b l = count_label b l'.
Proof.
  unfold count_label. intro H. f_equal.
  induction H as [|x l l' H IH|x y l|l l' l'' H1 IH1 H2 IH2]; simpl; trivial.
  - destruct (Bool.eqb b x); simpl; congruence.
  - destruct (Bool.eqb b x), (Bool.eqb b y); reflexivity.
  - congruence.
Qed.

Lemma sorted_labels_perm (ps : PointSet) (i : nat) :
  length (labels ps) = length (features ps) ->
  Permutation (sorted_labels_of ps i) (labels ps).
Proof.
  intro Hlen. unfold sorted_labels_of.
  rewrite <- (take_all (labels ps) false) at 2.
  unfold take. apply Permutation_map.
  rewrite Hlen.
  replace (length (features ps)) with (length (column i (features ps)))
    by apply length_map.
  apply argsort_perm.
Qed.

Lemma cut_counts_start (ps : PointSet) (i : nat) :
  length (labels ps) = length (features ps) ->
  cut_counts (sorted_labels_of ps i) 0
  = mkCounts 0 0
             (Z.of_nat (length (labels ps)) - count_label_true (labels ps))
             (count_label_true (labels ps)).
Proof.
  intro Hlen. unfold cut_counts. simpl.
  rewrite !(count_label_perm _ _ _ (sorted_labels_perm ps i Hlen)).
  rewrite count_label_true_nonzero, count_nonzero_true.
  pose proof (count_label_split (labels ps)).
  f_equal; try reflexivity. lia.
Qed.

Lemma count_label_app (b : bool) (l l' : list bool) :
  count_label b (l ++ l') = (count_label b l + count_label b l')%Z.
Proof. unfold count_label. rewrite filter_app, length_app. lia. Qed.

Lemma firstn_snoc (sl : list bool) (k : nat) :
  (k < length sl)%nat ->
  firstn (S k) sl = firstn k sl ++ [nth k sl false].
Proof.
  revert k. induction sl as [|x sl IH]; intros k Hk; simpl in Hk; [lia|].
  destruct k as [|k]; simpl; trivial. f_equal. apply IH. lia.
Qed.

Lemma skipn_cons (sl : list bool) (k : nat) :
  (k < length sl)%nat ->
  skipn k sl = nth k sl false :: skipn (S k) sl.
Proof.
  revert k. induction sl as [|x sl IH]; intros k Hk; simpl in Hk; [lia|].
  destruct k as [|k]; trivial. simpl. apply IH. lia.
Qed.

Lemma count_label_cons (b x : bool) (l : list bool) :
  count_label b (x :: l)
  = ((if Bool.eqb b x then 1 else 0) + count_label b l)%Z.
Proof.
  unfold count_label. cbn [filter]. destruct (Bool.eqb b x); cbn [length]; lia.
Qed.

Lemma cut_counts_next (sl : list bool) (k : nat) :
  (k < length sl)%nat ->
  cut_counts sl (S k)
  = let c := cut_counts sl k in
    if nth k sl false
    then mkCounts (c00 c) (c01 c + 1) (c10 c) (c11 c - 1)
    else mkCounts (c00 c + 1) (c01 c) (c10 c - 1) (c11 c).
Proof.
  intro Hk. unfold cut_counts. cbv zeta. cbn [c00 c01 c10 c11].
  rewrite (firstn_snoc sl k Hk), (skipn_cons sl k Hk).
  rewrite !count_label_app, !count_label_cons.
  unfold count_label at 2 4. cbn [filter length].
  destruct (nth k sl false); cbn [Bool.eqb filter length]; f_equal; lia.
Qed.

Lemma move_point_cut (sl : list bool) (k : nat) :
  (k <= length sl)%nat ->
  move_point k sl (cut_counts sl (k - 1)) = cut_counts sl k.
Proof.
  intro Hk. unfold move_point. destruct k as [|k].
  - reflexivity.
  - replace (S k - 1)%nat with k by lia.
    rewrite (cut_counts_next sl k) by lia. cbv zeta.
    change (0 <? S k)%nat with true. cbn [andb].
    destruct (nth k sl false); reflexivity.
Qed.

Lemma consider_unusable (ps : PointSet) (m : option Z) (f_type : FeaturesTypes)
      (i k : nat) (values : list Q) (c : counts) (s : search) (g : Q) :
  get_gini ps = Ok g ->
  usable m c = false ->
  consider ps m f_type i k values c s = Ok s.
Proof.
  intros Hg Hu. unfold consider. unfold usable in Hu.
  destruct ((c00 c + c01 c =? 0) || (c10 c + c11 c =? 0))%Z; trivial.
  simpl in Hu. apply negb_false_iff in Hu. rewrite Hg, Hu. simpl.
  match goal with |- (if ?b then _ else _) = _ => destruct b end; reflexivity.
Qed.

Lemma count_where_cons (p : Q -> bool -> bool) (f : Q) (l : bool)
      (fv : list Q) (ls : list bool) :
  count_where p (f :: fv) (l :: ls)
  = ((if p f l then 1 else 0) + count_where p fv ls)%Z.
Proof.
  unfold count_where. cbn [combine filter fst snd].
  destruct (p f l); cbn [length]; lia.
Qed.

Lemma count_loop_counts (val : Q) (fv : list Q) :
  forall (ls : list bool) (pre_f : list Q) (pre_l : list bool) (c : counts),
    length pre_f = length pre_l ->
    (length fv <= length ls)%nat ->
    for_each (seq (length pre_f) (length fv))
             (count_step (pre_f ++ fv) (pre_l ++ ls) val) c
    = Ok (mkCounts (c00 c + c00 (class_counts fv ls val))
                   (c01 c + c01 (class_counts fv ls val))
                   (c10 c + c10 (class_counts fv ls val))
                   (c11 c + c11 (class_counts fv ls val))).
Proof.
  induction fv as [|f fv IH]; intros ls pre_f pre_l c Hpre Hlen.
  - simpl. destruct c; simpl. unfold count_where. simpl.
    do 2 f_equal; lia.
  - destruct ls as [|l ls]; [simpl in Hlen; lia|].
    cbn [length seq for_each]. unfold count_step at 1.
    unfold index. rewrite nth_error_app2 by lia.
    replace (length pre_f - length pre_l)%nat with 0%nat by lia.
    cbn [nth_error bind].
    rewrite app_nth2, Nat.sub_diag by lia. cbn [nth].
    specialize (IH ls (pre_f ++ [f]) (pre_l ++ [l])).
    rewrite <- !app_assoc in IH. cbn [app] in IH.
    rewrite length_app in IH. cbn [length] in IH.
    replace (length pre_f + 1)%nat with (S (length pre_f)) in IH by lia.
    rewrite IH; [|rewrite !length_app; simpl; lia | simpl in Hlen; lia].
    unfold class_counts. cbn [c00 c01 c10 c11].
    rewrite !count_where_cons.
    destruct l, (Qeq_bool f val); cbn [negb andb c00 c01 c10 c11];
      do 2 f_equal; lia.
Qed.

Lemma count_pass_counts (f_values : list Q) (ls : list bool) (val : Q) :
  (length f_values <= length ls)%nat ->
  count_pass f_values ls val = Ok (class_counts f_values ls val).
Proof.
  intro Hlen. unfold count_pass.
  pose proof (count_loop_counts val f_values ls [] [] (mkCounts 0 0 0 0)
                eq_refl Hlen) as H.
  cbn [app length] in H. rewrite H.
  destruct (class_counts f_values ls val); reflexivity.
Qed.

Lemma for_each_fixed {A S : Type} (body : S -> A -> result S) (xs : list A)
      (s : S) :
  (forall x, In x xs -> body s x = Ok s) -> for_each xs body s = Ok s.
Proof.
  induction xs as [|x xs IH]; intro H; simpl; trivial.
  rewrite (H x (or_introl eq_refl)). simpl. apply IH.
  intros y Hy. apply H. right. exact Hy.
Qed.

Lemma real_loop_unusable (ps : PointSet) (m : option Z) (i : nat)
      (values : list Q) (sl : list bool) (s : search) (g : Q) :
  get_gini ps = Ok g ->
  forall n a,
    (a + n <= length sl)%nat ->
    (forall k, (a <= k < a + n)%nat -> skip_position k values = false ->
               usable m (cut_counts sl k) = false) ->
    for_each (seq a n) (real_step ps m i values sl) (cut_counts sl (a - 1), s)
    = Ok (cut_counts sl (a + n - 1), s).
Proof.
  intros Hg. induction n as [|n IH]; intros a Hlen Hun; simpl.
  - do 3 f_equal. lia.
  - unfold real_step at 1. cbn [fst snd].
    rewrite move_point_cut by lia.
    assert (Hstep : (if skip_position a values
                     then Ok (cut_counts sl a, s)
                     else s0 <- consider ps m REAL i a values (cut_counts sl a) s ;;
                          Ok (cut_counts sl a, s0))
                    = Ok (cut_counts sl a, s)).
    { destruct (skip_position a values) eqn:Esk; trivial.
      rewrite (consider_unusable ps m REAL i a values _ s g Hg); trivial.
      apply Hun; [lia | exact Esk]. }
    rewrite Hstep. simpl.
    specialize (IH (S a)). replace (S a - 1)%nat with a in IH by lia.
    rewrite IH.
    + do 3 f_equal. lia.
    + lia.
    + intros k Hk. apply Hun. lia.
Qed.

Lemma feature_step_unusable (ps : PointSet) (m : option Z) (s : search)
      (i : nat) (f_type : FeaturesTypes) (g : Q) :
  length (labels ps) = length (features ps) ->
  get_gini ps = Ok g ->
  nth_error (types ps) i = Some f_type ->
  forallb (fun c => negb (usable m c)) (candidates ps i f_type) = true ->
  feature_step ps m s i = Ok s.
Proof.
  intros Hlen Hg Hty Hc. unfold feature_step, index. rewrite Hty.
  cbn [bind]. rewrite forallb_forall in Hc. unfold candidates in Hc.
  assert (Hcol : length (column i (features ps)) = length (labels ps))
    by (unfold column; rewrite length_map; congruence).
  destruct f_type; cbv zeta.
  - apply for_each_fixed. intros k Hk. unfold class_step.
    rewrite count_pass_counts by lia. cbn [bind].
    apply (consider_unusable ps m BOOLEAN i k _ _ s g Hg).
    apply negb_true_iff, Hc.
    simpl in Hk. destruct Hk as [<-|[]]. simpl. auto.
  - apply for_each_fixed. intros k Hk. unfold class_step.
    rewrite count_pass_counts by lia. cbn [bind].
    apply (consider_unusable ps m CLASSES i k _ _ s g Hg).
    apply negb_true_iff, Hc. apply in_map, nth_In.
    apply in_seq in Hk. lia.
  - rewrite (fancy_index_in_range (labels ps) false)
      by (rewrite <- Hcol; apply argsort_in_range).
    rewrite (fancy_index_in_range (column i (features ps)) 0%Q)
      by apply argsort_in_range.
    cbn [bind].
    fold (sorted_values ps i). fold (sorted_labels_of ps i).
    rewrite <- (cut_counts_start ps i Hlen).
    pose proof (real_loop_unusable ps m i (sorted_values ps i)
                  (sorted_labels_of ps i) s g Hg
                  (length (sorted_values ps i)) 0) as Hloop.
    simpl in Hloop. rewrite Hloop; trivial.
    + unfold sorted_labels_of, sorted_values. rewrite !take_length. lia.
    + intros k Hk Hsk. apply negb_true_iff, Hc.
      apply in_map, filter_In. split.
      * apply in_seq. lia.
      * rewrite Hsk. reflexivity.
Qed.

Lemma get_gini_well_formed (ps : PointSet) :
  length (labels ps) = length (features ps) ->
  features ps <> [] ->
  exists g, get_gini ps = Ok g.
Proof.
  intros Hlen Hne. eexists. apply get_gini_nonempty.
  destruct (labels ps), (features ps); simpl in *; congruence.
Qed.

(** C7. On an empty point set, and on a point set of which every
    candidate split has an empty side or a side below the floor,
    [get_best_gain] returns the pair [(None, None)] and leaves the point
    set as it was; the value returned is the same in both cases. *)
Theorem get_best_gain_no_split (ps : PointSet) (m : option Z) :
  features ps = [] \/ (well_formed ps /\ no_usable_split ps m = true) ->
  get_best_gain ps m = Ok ((None, None), ps).
Proof.
  unfold get_best_gain. intros [He | [[Hlen Hrows] Hno]].
  - rewrite He. reflexivity.
  - destruct (length (features ps) =? 0)%nat eqn:E0; trivial.
    apply Nat.eqb_neq in E0.
    assert (Hne : features ps <> []) by (destruct (features ps); simpl in *; congruence).
    destruct (get_gini_well_formed ps Hlen Hne) as [g Hg].
    rewrite (for_each_fixed (feature_step ps m)); [reflexivity|].
    intros i Hi. unfold no_usable_split in Hno.
    rewrite forallb_forall in Hno. specialize (Hno i Hi).
    destruct (nth_error (types ps) i) as [ty|] eqn:Ety; [|discriminate].
    eapply feature_step_unusable; eassumption.
Qed.

Lemma get_best_gain_no_split_witness :
  let ps := PointSet_init [[1%Q]; [2%Q]] [true; false] [REAL] in
  (features ps = [] \/ (well_formed ps /\ no_usable_split ps (Some 2%Z) = true)) /\
  get_best_gain ps (Some 2%Z) = Ok ((None, None), ps).
Proof.
  intro ps.
  assert (H : features ps = [] \/
              (well_formed ps /\ no_usable_split ps (Some 2%Z) = true)).
  { right. split.
    - split; [reflexivity|]. repeat constructor.
    - vm_compute. reflexivity. }
  split; [exact H|]. exact (get_best_gain_no_split ps (Some 2%Z) H).
Defined.

(** ** The counts of a cut do not depend on the order of equal values *)

Lemma filter_length_perm {A : Type} (p : A -> bool) (l l' : list A) :
  Permutation l l' -> length (filter p l) = length (filter p l').
Proof.
  induction 1 as [|x l l' H IH|x y l|l l' l'' H1 IH1 H2 IH2]; simpl; trivial.
  - destruct (p x); simpl; congruence.
  - destruct (p x), (p y); reflexivity.
  - congruence.
Qed.

Lemma filter_length_split {A : Type} (p q : A -> bool) (l1 l2 : list A) :
  Forall (fun x => q x = true) l1 ->
  Forall (fun x => q x = false) l2 ->
  length (filter (fun x => p x && q x) (l1 ++ l2)) = length (filter p l1) /\
  length (filter (fun x => p x && negb (q x)) (l1 ++ l2)) = length (filter p l2).
Proof.
  intros H1 H2. rewrite !filter_app, !length_app.
  assert (E1 : filter (fun x => p x && q x) l1 = filter p l1
               /\ filter (fun x => p x && negb (q x)) l1 = []).
  { induction H1 as [|x l Hx _ [IHa IHb]]; simpl; [auto|].
    rewrite Hx, IHa, IHb. simpl. rewrite !andb_true_r, !andb_false_r. auto. }
  assert (E2 : filter (fun x => p x && q x) l2 = []
               /\ filter (fun x => p x && negb (q x)) l2 = filter p l2).
  { induction H2 as [|x l Hx _ [IHa IHb]]; simpl; [auto|].
    rewrite Hx, IHa, IHb. simpl. rewrite !andb_true_r, !andb_false_r. auto. }
  destruct E1 as [-> ->], E2 as [-> ->]. simpl. lia.
Qed.

Lemma combine_as_map (fv : list Q) (ls : list bool) :
  length fv = length ls ->
  combine fv ls
  = map (fun j => (nth j fv 0%Q, nth j ls false)) (seq 0 (length fv)).
Proof.
  revert ls. induction fv as [|f fv IH]; intros [|l ls] Hlen;
    simpl in *; try lia; trivial.
  f_equal. rewrite <- seq_shift, map_map. apply IH. lia.
Qed.

Lemma skipn_combine {A B : Type} (n : nat) :
  forall (l : list A) (l' : list B),
    skipn n (combine l l') = combine (skipn n l) (skipn n l').
Proof.
  induction n as [|n IH]; intros [|x l] [|y l']; simpl; trivial.
  destruct (skipn n l); reflexivity.
Qed.

Lemma map_snd_combine {A B : Type} (l : list A) :
  forall l' : list B, length l = length l' -> map snd (combine l l') = l'.
Proof.
  induction l as [|x l IH]; intros [|y l'] H; simpl in *; try lia; trivial.
  f_equal. apply IH. lia.
Qed.

(** The points in the order of [idx]: values and labels side by side. *)
Lemma sorted_points_perm (fv : list Q) (ls : list bool) (idx : list nat) :
  length fv = length ls ->
  Permutation idx (seq 0 (length fv)) ->
  Permutation (combine (take fv 0%Q idx) (take ls false idx)) (combine fv ls).
Proof.
  intros Hlen Hperm. rewrite (combine_as_map fv ls Hlen).
  replace (combine (take fv 0%Q idx) (take ls false idx))
    with (map (fun j => (nth j fv 0%Q, nth j ls false)) idx).
  - apply Permutation_map, Hperm.
  - unfold take. clear Hperm. induction idx as [|j l IH]; simpl; congruence.
Qed.

Lemma sorted_around_cut (values : list Q) (k : nat) :
  StronglySorted Qle values ->
  (k < length values)%nat ->
  skip_position k values = false ->
  Forall (fun f => Qlt_bool f (nth k values 0) = true) (firstn k values) /\
  Forall (fun f => Qlt_bool f (nth k values 0) = false) (skipn k values).
Proof.
  intros Hs Hk Hsk. apply skip_position_false in Hsk as [Hpos Hne].
  assert (Hlt : (nth (k - 1) values 0 < nth k values 0)%Q).
  { assert (Hle : (nth (k - 1) values 0 <= nth k values 0)%Q)
      by (apply sorted_nth; trivial; lia).
    apply Qle_lt_or_eq in Hle as [H|H]; trivial.
    exfalso. apply Hne. symmetry. exact H. }
  split; apply Forall_forall; intros f Hf.
  - apply (In_nth _ _ 0%Q) in Hf as (j & Hj & <-).
    rewrite length_firstn in Hj.
    rewrite nth_firstn. replace (j <? k)%nat with true
      by (symmetry; apply Nat.ltb_lt; lia).
    apply Qlt_bool_iff. eapply Qle_lt_trans; [|exact Hlt].
    apply sorted_nth; trivial. lia.
  - apply (In_nth _ _ 0%Q) in Hf as (j & Hj & <-).
    rewrite length_skipn in Hj. rewrite nth_skipn.
    unfold Qlt_bool. apply negb_false_iff, Qle_bool_iff.
    apply sorted_nth; trivial. lia.
Qed.

Lemma count_label_snd (b : bool) (P : list (Q * bool)) :
  count_label b (map snd P)
  = Z.of_nat (length (filter (fun fl => Bool.eqb b (snd fl)) P)).
Proof.
  unfold count_label. f_equal.
  induction P as [|x P IH]; simpl; trivial.
  destruct (Bool.eqb b (snd x)); simpl; congruence.
Qed.

Lemma Forall_fst_combine (q : Q -> bool) (b : bool) (fv : list Q) :
  forall ls, Forall (fun f => q f = b) fv ->
             Forall (fun fl : Q * bool => q (fst fl) = b) (combine fv ls).
Proof.
  induction fv as [|f fv IH]; intros [|l ls] H; simpl; try constructor.
  - inversion H; assumption.
  - apply IH. inversion H; assumption.
Qed.

(** Whatever order [idx] sorts the column in, at a position where the
    value differs from its predecessor the first [k] sorted points are
    those whose value is less than [values[k]]: the counts of the cut do
    not depend on the order the sort gives to equal values. *)
Lemma cut_counts_of_sort (fv : list Q) (ls : list bool) (idx : list nat)
      (k : nat) :
  length fv = length ls ->
  Permutation idx (seq 0 (length fv)) ->
  StronglySorted Qle (take fv 0%Q idx) ->
  (k < length idx)%nat ->
  skip_position k (take fv 0%Q idx) = false ->
  cut_counts (take ls false idx) k
  = below_counts fv ls (nth k (take fv 0%Q idx) 0).
Proof.
  intros Hfv Hidx Hsorted Hk Hsk.
  set (values := take fv 0%Q idx) in *.
  set (sl := take ls false idx) in *.
  set (v := nth k values 0).
  assert (Hvl : length values = length sl)
    by (unfold values, sl; rewrite !take_length; reflexivity).
  assert (Hkv : (k < length values)%nat)
    by (unfold values; rewrite take_length; exact Hk).
  pose (P := combine values sl).
  assert (Hperm : Permutation P (combine fv ls))
    by (apply sorted_points_perm; assumption).
  assert (Hsplit : P = combine (firstn k values) (firstn k sl)
                       ++ combine (skipn k values) (skipn k sl)).
  { unfold P. rewrite <- combine_firstn, <- skipn_combine.
    symmetry. apply firstn_skipn. }
  destruct (sorted_around_cut values k Hsorted Hkv Hsk) as [Hbelow Habove].
  pose proof (Forall_fst_combine (fun f => Qlt_bool f v) true
                (firstn k values) (firstn k sl) Hbelow) as Hb.
  pose proof (Forall_fst_combine (fun f => Qlt_bool f v) false
                (skipn k values) (skipn k sl) Habove) as Ha.
  assert (Hfst : map snd (combine (firstn k values) (firstn k sl)) = firstn k sl).
  { apply map_snd_combine. rewrite !length_firstn. lia. }
  assert (Hsnd : map snd (combine (skipn k values) (skipn k sl)) = skipn k sl).
  { apply map_snd_combine. rewrite !length_skipn. lia. }
  assert (Hcount : forall b : bool,
             count_where (fun f l => Bool.eqb b l && Qlt_bool f v) fv ls
             = count_label b (firstn k sl) /\
             count_where (fun f l => Bool.eqb b l && negb (Qlt_bool f v)) fv ls
             = count_label b (skipn k sl)).
  { intro b. unfold count_where.
    rewrite <- !(filter_length_perm _ _ _ Hperm), Hsplit.
    destruct (filter_length_split
                (fun fl : Q * bool => Bool.eqb b (snd fl))
                (fun fl : Q * bool => Qlt_bool (fst fl) v) _ _ Hb Ha)
      as [E1 E2].
    rewrite E1, E2, <- !count_label_snd, Hfst, Hsnd. auto. }
  unfold cut_counts, below_counts.
  destruct (Hcount false) as [F1 F2], (Hcount true) as [T1 T2].
  simpl Bool.eqb in *.
  rewrite <- F1, <- F2, <- T1, <- T2.
  f_equal; unfold count_where; do 2 f_equal; apply filter_ext;
    intros [f []]; reflexivity.
Qed.

(** In particular, at a position the scan does not skip, the running
    counts are those of the split "value less than [values[k]]" against
    the rest. *)
Lemma cut_counts_below (ps : PointSet) (i k : nat) :
  length (labels ps) = length (features ps) ->
  (k < length (sorted_values ps i))%nat ->
  skip_position k (sorted_values ps i) = false ->
  cut_counts (sorted_labels_of ps i) k
  = below_counts (column i (features ps)) (labels ps)
                 (nth k (sorted_values ps i) 0).
Proof.
  intros Hlen Hk Hsk. unfold sorted_labels_of, sorted_values in *.
  rewrite take_length in Hk.
  apply cut_counts_of_sort; trivial.
  - unfold column. rewrite length_map. congruence.
  - apply argsort_perm.
  - apply argsort_sorted.
Qed.

(** ** The scenario of the specification *)

(** C1. The tree built from the four points of the scenario splits its
    root on feature 0, the continuous one, at threshold 1/2; both
    children are leaves, the left one answers [true] and the right one
    [false]; the two queries of the scenario are decided [true] and
    [false]. *)
Theorem scenario_tree_shape :
  exists root l r thr,
    scenario_tree = Ok root /\
    h root = 1%Z /\
    feature_id root = Some 0%nat /\
    feature_split root = None /\
    feature_threshold root = Some thr /\ (thr == 1 # 2)%Q /\
    left root = Some l /\ right root = Some r /\
    h l = 0%Z /\ h r = 0%Z /\
    (forall q, decide l q = Ok true) /\
    (forall q, decide r q = Ok false) /\
    decide root [3 # 10; true_cat] = Ok true /\
    decide root [95 # 100; false_cat] = Ok false.
Proof.
  destruct scenario_tree as [root|e] eqn:E; [|vm_compute in E; discriminate].
  vm_compute in E. injection E as <-.
  do 4 eexists.
  repeat match goal with |- _ /\ _ => split end;
    try reflexivity; intro q; reflexivity.
Qed.

(** ** Leaves decide by majority *)

(** C5. A node of height 0 answers every query with [true] exactly when
    its stored labels hold at least as many [true] as [false]. *)
Theorem decide_leaf_majority (t : Tree) (fs : list Q) :
  h t = 0%Z ->
  exists b,
    decide t fs = Ok b /\
    (b = true <->
     (count_label false (labels (points t))
      <= count_label true (labels (points t)))%Z).
Proof.
  intro Hh. exists (leaf_decision (points t)). split.
  - destruct t; simpl in *. subst. reflexivity.
  - unfold leaf_decision. rewrite count_nonzero_true.
    pose proof (count_label_split (labels (points t))).
    rewrite Z.geb_le. lia.
Qed.

Lemma decide_leaf_majority_witness :
  let t := mkTree 0 None None None
                  (PointSet_init [[1%Q]; [2%Q]] [true; false] [REAL])
                  1 0 0 None None in
  h t = 0%Z /\
  exists b,
    decide t [5%Q] = Ok b /\
    (b = true <->
     (count_label false (labels (points t))
      <= count_label true (labels (points t)))%Z).
Proof.
  intro t. split.
  - reflexivity.
  - apply (decide_leaf_majority t [5%Q]). reflexivity.
Defined.

(** ** Induction on trees and unfolding equations *)

Lemma Tree_induction (P : Tree -> Prop) :
  (forall t,
      (forall l, left t = Some l -> P l) ->
      (forall r, right t = Some r -> P r) -> P t) ->
  forall t, P t.
Proof.
  intro step. fix IH 1. intro t. destruct t as [a b c d e f g i l r].
  apply step; simpl; intros x E.
  - destruct l as [l|]; [|discriminate]. injection E as <-. apply IH.
  - destruct r as [r|]; [|discriminate]. injection E as <-. apply IH.
Qed.

Lemma add_training_point_eq (self : Tree) (fs : list Q) (label : bool) :
  add_training_point self fs label
  = let self' := add_local self fs label in
    if rebuild_due self' then
      _ <- all_matches 0 (features (points (with_counter self' 0))) fs ;;
      build_tree (with_counter self' 0)
    else if (h self' =? 0)%Z then Ok self'
    else
      to_left <- goes_left self' fs ;;
      if to_left
      then match left self with
           | Some l => l' <- add_training_point l fs label ;;
                       Ok (with_left self' (Some l'))
           | None => Raise AttributeError
           end
      else match right self with
           | Some r => r' <- add_training_point r fs label ;;
                       Ok (with_right self' (Some r'))
           | None => Raise AttributeError
           end.
Proof. destruct self; reflexivity. Qed.

Lemma del_training_point_eq (self : Tree) (fs : list Q) (label : bool) :
  del_training_point self fs label
  = (self' <- del_local self fs ;;
     if rebuild_due self' then build_tree (with_counter self' 0)
     else if (h self' =? 0)%Z then Ok self'
     else
       to_left <- goes_left self' fs ;;
       if to_left
       then match left self with
            | Some l => l' <- del_training_point l fs label ;;
                        Ok (with_left self' (Some l'))
            | None => Raise AttributeError
            end
       else match right self with
            | Some r => r' <- del_training_point r fs label ;;
                        Ok (with_right self' (Some r'))
            | None => Raise AttributeError
            end).
Proof. destruct self; reflexivity. Qed.

Lemma add_absorbed_eq (self : Tree) (fs : list Q) (label : bool) :
  add_absorbed self fs label
  = let self' := add_local self fs label in
    negb (rebuild_due self') &&
    ((h self' =? 0)%Z ||
     match goes_left self' fs with
     | Ok true => match left self with
                  | Some l => add_absorbed l fs label
                  | None => false
                  end
     | Ok false => match right self with
                   | Some r => add_absorbed r fs label
                   | None => false
                   end
     | Raise _ => false
     end).
Proof. destruct self; reflexivity. Qed.

Lemma del_absorbed_eq (self : Tree) (fs : list Q) (label : bool) :
  del_absorbed self fs label
  = match del_local self fs with
    | Ok self' =>
        negb (rebuild_due self') &&
        ((h self' =? 0)%Z ||
         match goes_left self' fs with
         | Ok true => match left self with
                      | Some l => del_absorbed l fs label
                      | None => false
                      end
         | Ok false => match right self with
                       | Some r => del_absorbed r fs label
                       | None => false
                       end
         | Raise _ => false
         end)
    | Raise _ => false
    end.
Proof. destruct self; reflexivity. Qed.

Lemma leaf_predictions_eq (t : Tree) :
  leaf_predictions t
  = if (h t =? 0)%Z then [leaf_decision (points t)]
    else match left t with Some l => leaf_predictions l | None => [] end
         ++ match right t with Some r => leaf_predictions r | None => [] end.
Proof. destruct t; reflexivity. Qed.

Lemma leaf_sizes_eq (t : Tree) :
  leaf_sizes t
  = if (h t =? 0)%Z then [point_count t]
    else match left t with Some l => leaf_sizes l | None => [] end
         ++ match right t with Some r => leaf_sizes r | None => [] end.
Proof. destruct t; reflexivity. Qed.

(** ** The label argument of a deletion *)

Lemma del_training_point_any_label (fs : list Q) (l1 l2 : bool) :
  forall t, del_training_point t fs l1 = del_training_point t fs l2.
Proof.
  induction t as [t IHl IHr] using Tree_induction.
  rewrite !del_training_point_eq.
  destruct (del_local t fs) as [self'|e]; simpl; trivial.
  destruct (rebuild_due self'); trivial.
  destruct (h self' =? 0)%Z; trivial.
  destruct (goes_left self' fs) as [[]|e]; simpl; trivial.
  - destruct (left t) as [l|]; trivial. rewrite (IHl l eq_refl). reflexivity.
  - destruct (right t) as [r|]; trivial. rewrite (IHr r eq_refl). reflexivity.
Qed.

(** C10. [del_training_point] gives the same result whatever label it
    is passed; the point it removes is found by its features alone, so
    its stored label can differ from the argument: here the call with
    label [false] removes a point stored with label [true]. *)
Theorem del_training_point_ignores_label :
  (forall t fs l1 l2,
      del_training_point t fs l1 = del_training_point t fs l2) /\
  (exists t t',
      features (points t) = [[1%Q]; [2%Q]] /\
      labels (points t) = [true; false] /\
      del_training_point t [1%Q] false = Ok t' /\
      features (points t') = [[2%Q]] /\
      labels (points t') = [false]).
Proof.
  split.
  - intros t fs l1 l2. apply del_training_point_any_label.
  - destruct (Tree_init [[1%Q]; [2%Q]] [true; false] [REAL] 1 1 0)
      as [t|e] eqn:E; [|vm_compute in E; discriminate].
    exists t. vm_compute in E. injection E as <-.
    eexists.
    split; [reflexivity|]. split; [reflexivity|].
    split; [vm_compute; reflexivity|]. split; reflexivity.
Qed.

(** ** Rebuilding *)

Lemma Zgtb_low (z : Z) : (z <= 0)%Z -> (z >? 0)%Z = false.
Proof. intro H. rewrite Z.gtb_ltb. apply Z.ltb_ge. exact H. Qed.

Lemma build_tree_low (t : Tree) :
  (h t <= 0)%Z -> build_tree t = Ok (with_counter t 0).
Proof.
  intro Hh. unfold build_tree.
  destruct t as [h0 a b c d e f g l r]; simpl in *.
  destruct (Z.to_nat h0); simpl; rewrite (Zgtb_low h0 Hh); reflexivity.
Qed.

Lemma build_tree_within_counter (budget : nat) (t t' : Tree) :
  build_tree_within budget t = Ok t' -> counter t' = 0%nat.
Proof.
  destruct budget as [|budget]; simpl;
    destruct (h t >? 0)%Z; intro H;
    try discriminate; try (injection H as <-; reflexivity).
  bind_inv H. destruct a as [r ps].
  destruct (fst r) as [fid|]; [|injection H as <-; reflexivity].
  bind_inv H. bind_inv H. bind_inv H.
  match type of H with
  | (if ?c then _ else _) = _ => destruct c
  end.
  - injection H as <-. destruct (negb (FeaturesTypes_eqb a REAL)); reflexivity.
  - bind_inv H. bind_inv H. injection H as <-.
    destruct (negb (FeaturesTypes_eqb a REAL)); reflexivity.
Qed.

Lemma build_tree_counter (t t' : Tree) :
  build_tree t = Ok t' -> counter t' = 0%nat.
Proof. apply build_tree_within_counter. Qed.

Lemma add_local_fields (t : Tree) (fs : list Q) (label : bool) :
  h (add_local t fs label) = h t /\
  beta (add_local t fs label) = beta t /\
  counter (add_local t fs label) = (counter t + 1)%nat /\
  left (add_local t fs label) = left t /\
  right (add_local t fs label) = right t /\
  feature_id (add_local t fs label) = feature_id t /\
  feature_threshold (add_local t fs label) = feature_threshold t /\
  feature_split (add_local t fs label) = feature_split t.
Proof.
  unfold add_local. destruct t; simpl.
  match goal with |- context [if ?c then _ else _] => destruct c end;
    simpl; repeat split; reflexivity.
Qed.

Lemma del_local_fields (t t1 : Tree) (fs : list Q) :
  del_local t fs = Ok t1 ->
  h t1 = h t /\ beta t1 = beta t /\ counter t1 = (counter t + 1)%nat /\
  left t1 = left t /\ right t1 = right t /\
  feature_id t1 = feature_id t /\
  feature_threshold t1 = feature_threshold t /\
  feature_split t1 = feature_split t.
Proof.
  unfold del_local. intro H. bind_inv H. destruct t; simpl in *.
  match type of H with (if ?c then _ else _) = _ => destruct c end;
    injection H as <-; simpl; repeat split; reflexivity.
Qed.

Lemma rebuild_due_beta_zero (t : Tree) :
  (beta t == 0)%Q -> rebuild_due t = true.
Proof.
  intro Hb. unfold rebuild_due. apply Qle_bool_iff.
  rewrite Hb, Qmult_0_l.
  change 0%Q with (inject_Z 0). rewrite <- Zle_Qle. lia.
Qed.

(** C3. At a node whose [beta] is 0 every insertion and every deletion
    meets the rebuild condition: the operation is the local update
    followed by [build_tree] on the node with its counter reset, it does
    not go on into the children, and the node it returns has counter
    0. *)
Theorem beta_zero_forces_rebuild (t : Tree) (fs : list Q) (label : bool) :
  (beta t == 0)%Q ->
  (rebuild_due (add_local t fs label) = true /\
   add_training_point t fs label
   = (_ <- all_matches 0 (features (points (add_local t fs label))) fs ;;
      build_tree (with_counter (add_local t fs label) 0)) /\
   (forall t', add_training_point t fs label = Ok t' -> counter t' = 0%nat)) /\
  ((forall t1, del_local t fs = Ok t1 -> rebuild_due t1 = true) /\
   del_training_point t fs label
   = (t1 <- del_local t fs ;; build_tree (with_counter t1 0)) /\
   (forall t', del_training_point t fs label = Ok t' -> counter t' = 0%nat)).
Proof.
  intro Hb.
  assert (Hadd : rebuild_due (add_local t fs label) = true).
  { apply rebuild_due_beta_zero.
    destruct (add_local_fields t fs label) as (_ & -> & _). exact Hb. }
  assert (Hdel : forall t1, del_local t fs = Ok t1 -> rebuild_due t1 = true).
  { intros t1 H1. apply rebuild_due_beta_zero.
    destruct (del_local_fields t t1 fs H1) as (_ & -> & _). exact Hb. }
  assert (Eadd : add_training_point t fs label
                 = (_ <- all_matches 0 (features (points (add_local t fs label))) fs ;;
                    build_tree (with_counter (add_local t fs label) 0))).
  { rewrite add_training_point_eq. cbv zeta. rewrite Hadd.
    destruct (add_local t fs label); reflexivity. }
  assert (Edel : del_training_point t fs label
                 = (t1 <- del_local t fs ;; build_tree (with_counter t1 0))).
  { rewrite del_training_point_eq.
    destruct (del_local t fs) as [t1|e] eqn:E1; simpl; trivial.
    rewrite (Hdel t1 eq_refl). reflexivity. }
  split; (split; [assumption|]; split; [assumption|]).
  - intros t' H. rewrite Eadd in H. bind_inv H.
    eapply build_tree_counter; eassumption.
  - intros t' H. rewrite Edel in H. bind_inv H.
    eapply build_tree_counter; eassumption.
Qed.

Lemma beta_zero_forces_rebuild_witness :
  let t := mkTree 1 None None None
                  (PointSet_init [[1%Q]; [2%Q]] [true; false] [REAL])
                  1 0 0 None None in
  (beta t == 0)%Q /\
  (forall t', add_training_point t [3%Q] true = Ok t' -> counter t' = 0%nat) /\
  (forall t', del_training_point t [1%Q] true = Ok t' -> counter t' = 0%nat).
Proof.
  intro t.
  assert (Hb : (beta t == 0)%Q) by reflexivity.
  split; [exact Hb|]. split.
  - exact (proj2 (proj2 (proj1 (beta_zero_forces_rebuild t [3%Q] true Hb)))).
  - exact (proj2 (proj2 (proj2 (beta_zero_forces_rebuild t [1%Q] true Hb)))).
Defined.

(** ** Leaves *)

Lemma add_local_leaf (t : Tree) (fs : list Q) (label : bool) :
  (h t <= 0)%Z -> add_local t fs label = with_counter t (counter t + 1)%nat.
Proof.
  intro Hh. unfold add_local.
  replace (h (with_counter t (counter t + 1)%nat) >? 0)%Z with false; trivial.
  destruct t; simpl in *. symmetry. apply Zgtb_low. lia.
Qed.

Lemma del_local_leaf (t t1 : Tree) (fs : list Q) :
  (h t <= 0)%Z -> del_local t fs = Ok t1 ->
  t1 = with_counter t (counter t + 1)%nat.
Proof.
  intros Hh. unfold del_local. intro H. bind_inv H.
  replace (h (with_counter t (counter t + 1)%nat) >? 0)%Z with false in H.
  - injection H as <-. reflexivity.
  - destruct t; simpl in *. symmetry. apply Zgtb_low. lia.
Qed.

(** C9, as the code has it.  On a node of height 0, [build_tree] only
    resets the operation counter, and an insertion or a deletion that
    returns leaves every attribute but the counter as it was: the height
    stays 0, the point set, the split descriptor and the children are
    untouched. *)
Theorem leaf_stays_leaf (t : Tree) :
  h t = 0%Z ->
  build_tree t = Ok (with_counter t 0) /\
  (forall fs label t',
      add_training_point t fs label = Ok t' -> unchanged_but_counter t t') /\
  (forall fs label t',
      del_training_point t fs label = Ok t' -> unchanged_but_counter t t').
Proof.
  intro Hh. assert (Hle : (h t <= 0)%Z) by lia.
  split; [apply build_tree_low; trivial|]. split.
  - intros fs label t' H. rewrite add_training_point_eq in H. cbv zeta in H.
    rewrite add_local_leaf in H by trivial.
    destruct (rebuild_due (with_counter t (counter t + 1)%nat)).
    + bind_inv H. rewrite build_tree_low in H by (destruct t; simpl in *; lia).
      injection H as <-. destruct t; reflexivity.
    + replace (h (with_counter t (counter t + 1)%nat) =? 0)%Z with true in H
        by (destruct t; simpl in *; subst; reflexivity).
      injection H as <-. destruct t; reflexivity.
  - intros fs label t' H. rewrite del_training_point_eq in H. bind_inv H.
    apply del_local_leaf in Ha; trivial. subst a.
    destruct (rebuild_due (with_counter t (counter t + 1)%nat)).
    + rewrite build_tree_low in H by (destruct t; simpl in *; lia).
      injection H as <-. destruct t; reflexivity.
    + replace (h (with_counter t (counter t + 1)%nat) =? 0)%Z with true in H
        by (destruct t; simpl in *; subst; reflexivity).
      injection H as <-. destruct t; reflexivity.
Qed.

Lemma leaf_stays_leaf_witness :
  let t := mkTree 0 None None None
                  (PointSet_init [[1%Q]; [2%Q]] [true; false] [REAL])
                  1 3 (1 # 2) None None in
  h t = 0%Z /\ build_tree t = Ok (with_counter t 0).
Proof.
  intro t. split; [reflexivity|].
  exact (proj1 (leaf_stays_leaf t eq_refl)).
Defined.

(** C9 as stated fails on the counter: this leaf has absorbed one
    insertion, and [build_tree] on it returns a different node. *)
Lemma build_tree_changes_leaf :
  exists t0 t1 t2,
    Tree_init [[1%Q]] [true] [REAL] 0 1 10 = Ok t0 /\
    add_training_point t0 [2%Q] true = Ok t1 /\
    h t1 = 0%Z /\
    build_tree t1 = Ok t2 /\
    t2 <> t1.
Proof.
  do 3 eexists.
  split; [vm_compute; reflexivity|].
  split; [vm_compute; reflexivity|].
  split; [reflexivity|].
  split; [vm_compute; reflexivity|].
  intro E. discriminate E.
Qed.

(** ** Insertion followed by deletion *)

Lemma leaf_predictions_node (t u : Tree) :
  h u = h t ->
  (h t = 0%Z -> points u = points t) ->
  option_map leaf_predictions (left u) = option_map leaf_predictions (left t) ->
  option_map leaf_predictions (right u) = option_map leaf_predictions (right t) ->
  leaf_predictions u = leaf_predictions t.
Proof.
  intros Hh Hp Hl Hr. rewrite (leaf_predictions_eq u), (leaf_predictions_eq t).
  rewrite Hh. destruct (h t =? 0)%Z eqn:E.
  - apply Z.eqb_eq in E. rewrite (Hp E). reflexivity.
  - destruct (left u), (left t), (right u), (right t); simpl in *;
      congruence.
Qed.

Lemma leaf_sizes_node (t u : Tree) :
  h u = h t ->
  (h t = 0%Z -> points u = points t) ->
  option_map leaf_sizes (left u) = option_map leaf_sizes (left t) ->
  option_map leaf_sizes (right u) = option_map leaf_sizes (right t) ->
  leaf_sizes u = leaf_sizes t.
Proof.
  intros Hh Hp Hl Hr. rewrite (leaf_sizes_eq u), (leaf_sizes_eq t).
  rewrite Hh. destruct (h t =? 0)%Z eqn:E.
  - apply Z.eqb_eq in E. unfold point_count. rewrite (Hp E). reflexivity.
  - destruct (left u), (left t), (right u), (right t); simpl in *;
      congruence.
Qed.

Lemma same_leaves_child (t self' : Tree) (l l' : Tree) (on_left : bool) :
  h self' = h t -> left self' = left t -> right self' = right t ->
  (h t =? 0)%Z = false ->
  (if on_left then left t else right t) = Some l ->
  same_leaves l l' ->
  same_leaves t (if on_left then with_left self' (Some l')
                 else with_right self' (Some l')).
Proof.
  intros Hh Hl Hr Hz Hc (H1 & H2 & H3).
  assert (Hnz : h t = 0%Z -> False) by (intro E; rewrite E in Hz; discriminate).
  destruct on_left; (split; [destruct self'; exact Hh|]); split.
  - apply leaf_predictions_node;
      [destruct self'; exact Hh | tauto | | destruct self'; simpl in *; congruence].
    rewrite Hc. destruct self'; simpl. congruence.
  - apply leaf_sizes_node;
      [destruct self'; exact Hh | tauto | | destruct self'; simpl in *; congruence].
    rewrite Hc. destruct self'; simpl. congruence.
  - apply leaf_predictions_node;
      [destruct self'; exact Hh | tauto | destruct self'; simpl in *; congruence |].
    rewrite Hc. destruct self'; simpl. congruence.
  - apply leaf_sizes_node;
      [destruct self'; exact Hh | tauto | destruct self'; simpl in *; congruence |].
    rewrite Hc. destruct self'; simpl. congruence.
Qed.

Lemma add_absorbed_leaves (fs : list Q) (label : bool) :
  forall t t1,
    add_absorbed t fs label = true ->
    add_training_point t fs label = Ok t1 ->
    same_leaves t t1 /\ points t1 = points (add_local t fs label).
Proof.
  induction t as [t IHl IHr] using Tree_induction. intros t1 Ha H.
  rewrite add_absorbed_eq in Ha. rewrite add_training_point_eq in H.
  cbv zeta in Ha, H.
  destruct (add_local_fields t fs label) as (Fh & _ & _ & Fl & Fr & _).
  remember (add_local t fs label) as self' eqn:Es.
  destruct (rebuild_due self'); [discriminate|]. simpl in Ha.
  destruct (h self' =? 0)%Z eqn:Ez.
  - injection H as <-. split; trivial.
    apply Z.eqb_eq in Ez. rewrite Fh in Ez.
    rewrite Es, add_local_leaf by lia.
    split; [destruct t; reflexivity|].
    split; [apply leaf_predictions_node | apply leaf_sizes_node];
      destruct t; reflexivity.
  - simpl in Ha. rewrite Fh in Ez.
    destruct (goes_left self' fs) as [[]|e]; simpl in H; [| |discriminate].
    + destruct (left t) as [l|] eqn:El; [|discriminate].
      bind_inv H. injection H as <-.
      destruct (IHl l eq_refl a Ha Ha0) as [Hs _].
      split; [|destruct self'; reflexivity].
      rewrite <- El in Fl.
      exact (same_leaves_child t self' l a true Fh Fl Fr Ez El Hs).
    + destruct (right t) as [r|] eqn:Er; [|discriminate].
      bind_inv H. injection H as <-.
      destruct (IHr r eq_refl a Ha Ha0) as [Hs _].
      split; [|destruct self'; reflexivity].
      rewrite <- Er in Fr.
      exact (same_leaves_child t self' r a false Fh Fl Fr Ez Er Hs).
Qed.

Lemma del_absorbed_leaves (fs : list Q) (label : bool) :
  forall t t2,
    del_absorbed t fs label = true ->
    del_training_point t fs label = Ok t2 ->
    same_leaves t t2 /\ exists self', del_local t fs = Ok self' /\ points t2 = points self'.
Proof.
  induction t as [t IHl IHr] using Tree_induction. intros t2 Ha H.
  rewrite del_absorbed_eq in Ha. rewrite del_training_point_eq in H.
  destruct (del_local t fs) as [self'|e] eqn:Ed; [|discriminate].
  simpl in H.
  destruct (del_local_fields t self' fs Ed) as (Fh & _ & _ & Fl & Fr & _).
  destruct (rebuild_due self'); [discriminate|]. simpl in Ha.
  destruct (h self' =? 0)%Z eqn:Ez.
  - injection H as <-. split; [|eauto].
    apply Z.eqb_eq in Ez. rewrite Fh in Ez.
    apply del_local_leaf in Ed; [|lia]. subst self'.
    split; [destruct t; reflexivity|].
    split; [apply leaf_predictions_node | apply leaf_sizes_node];
      destruct t; reflexivity.
  - simpl in Ha. rewrite Fh in Ez.
    destruct (goes_left self' fs) as [[]|e]; simpl in H; [| |discriminate].
    + destruct (left t) as [l|] eqn:El; [|discriminate].
      bind_inv H. injection H as <-.
      destruct (IHl l eq_refl a Ha Ha0) as [Hs _].
      split; [|exists self'; split; trivial; destruct self'; reflexivity].
      rewrite <- El in Fl.
      exact (same_leaves_child t self' l a true Fh Fl Fr Ez El Hs).
    + destruct (right t) as [r|] eqn:Er; [|discriminate].
      bind_inv H. injection H as <-.
      destruct (IHr r eq_refl a Ha Ha0) as [Hs _].
      split; [|exists self'; split; trivial; destruct self'; reflexivity].
      rewrite <- Er in Fr.
      exact (same_leaves_child t self' r a false Fh Fl Fr Ez Er Hs).
Qed.

Lemma all_match_suffix (fs pre : list Q) :
  all_match (length pre) fs (pre ++ fs) = Ok true.
Proof.
  revert pre. induction fs as [|f fs IH]; intro pre; simpl; trivial.
  unfold index. rewrite nth_error_app2, Nat.sub_diag by lia. simpl.
  rewrite Qeq_bool_refl.
  specialize (IH (pre ++ [f])). rewrite <- app_assoc in IH. simpl in IH.
  rewrite length_app in IH. simpl in IH.
  replace (S (length pre)) with (length pre + 1)%nat by lia. exact IH.
Qed.

Lemma first_match_last (fs : list Q) (pts : list (list Q)) :
  forall i idx,
    first_match i (pts ++ [fs]) fs = Ok idx ->
    exists m, idx = [m] /\ (i <= m < i + S (length pts))%nat.
Proof.
  induction pts as [|p pts IH]; intros i idx H; simpl in H.
  - pose proof (all_match_suffix fs []) as Hself. simpl in Hself.
    rewrite Hself in H. simpl in H.
    injection H as <-. exists i. split; trivial. simpl. lia.
  - bind_inv H. destruct a.
    + injection H as <-. exists i. split; trivial. simpl. lia.
    + apply IH in H as (m & -> & Hm). exists m. split; trivial. simpl. lia.
Qed.

Lemma without_one_length {A : Type} (m : nat) (xs : list A) :
  forall a,
    (a <= m < a + length xs)%nat ->
    S (length (map snd
                 (filter (fun ix => negb (existsb (Nat.eqb (fst ix)) [m]))
                         (combine (seq a (length xs)) xs))))
    = length xs.
Proof.
  induction xs as [|x xs IH]; intros a Hm; simpl in *; [lia|].
  destruct (Nat.eqb_spec a m) as [->|Hne]; simpl.
  - f_equal. clear IH Hm. 
    assert (G : forall b, (m < b)%nat ->
              length (map snd
                 (filter (fun ix => negb (existsb (Nat.eqb (fst ix)) [m]))
                         (combine (seq b (length xs)) xs))) = length xs).
    { induction xs as [|y ys IHy]; intros b Hb; simpl; trivial.
      destruct (Nat.eqb_spec b m); [lia|]. simpl. f_equal. apply IHy. lia. }
    apply G. lia.
  - f_equal. apply IH. lia.
Qed.

Lemma without_found_length {A : Type} (m : nat) (xs : list A) :
  (m < length xs)%nat -> S (length (without [m] xs)) = length xs.
Proof. intro H. unfold without. apply without_one_length. lia. Qed.

Lemma add_local_features (t : Tree) (fs : list Q) (label : bool) :
  features (points (add_local t fs label))
  = if (h t >? 0)%Z then features (points t) ++ [fs] else features (points t).
Proof.
  unfold add_local. destruct t as [h0 a b c d e f g l r]; simpl.
  destruct (h0 >? 0)%Z; reflexivity.
Qed.

Lemma del_local_features (t self' : Tree) (fs : list Q) :
  del_local t fs = Ok self' ->
  exists idx,
    first_match 0 (features (points t)) fs = Ok idx /\
    features (points self')
    = if (h t >? 0)%Z then without idx (features (points t))
      else features (points t).
Proof.
  unfold del_local. intro H. bind_inv H. exists a.
  destruct t as [h0 b c d e f g i l r]; simpl in *. split; trivial.
  destruct (h0 >? 0)%Z; injection H as <-; reflexivity.
Qed.

(** C2. When neither the insertion nor the deletion that follows it
    meets the rebuild condition at a node of its path, the tree after
    both has the leaf predictions, the number of points and the leaf
    sizes it had before the insertion. *)
Theorem add_then_del_restores (t t1 t2 : Tree) (fs : list Q) (label : bool) :
  add_training_point t fs label = Ok t1 ->
  del_training_point t1 fs label = Ok t2 ->
  add_absorbed t fs label = true ->
  del_absorbed t1 fs label = true ->
  leaf_predictions t2 = leaf_predictions t /\
  point_count t2 = point_count t /\
  leaf_sizes t2 = leaf_sizes t.
Proof.
  intros Hadd Hdel Aadd Adel.
  destruct (add_absorbed_leaves fs label t t1 Aadd Hadd)
    as ((Hh1 & Hp1 & Hs1) & Hpts1).
  destruct (del_absorbed_leaves fs label t1 t2 Adel Hdel)
    as ((Hh2 & Hp2 & Hs2) & self' & Hloc & Hpts2).
  split; [congruence|]. split; [|congruence].
  unfold point_count. rewrite Hpts2.
  apply del_local_features in Hloc as (idx & Hidx & ->).
  rewrite Hh1, Hpts1, add_local_features in *.
  destruct (h t >? 0)%Z; trivial.
  apply first_match_last in Hidx as (m & -> & Hm).
  apply eq_add_S. rewrite without_found_length; rewrite length_app; simpl; lia.
Qed.

Lemma add_then_del_restores_witness :
  exists t t1 t2,
    patient_scenario_tree = Ok t /\
    add_training_point t [3 # 10; true_cat] true = Ok t1 /\
    del_training_point t1 [3 # 10; true_cat] true = Ok t2 /\
    add_absorbed t [3 # 10; true_cat] true = true /\
    del_absorbed t1 [3 # 10; true_cat] true = true /\
    leaf_predictions t2 = leaf_predictions t /\
    point_count t2 = point_count t /\
    leaf_sizes t2 = leaf_sizes t.
Proof.
  do 3 eexists.
  split; [vm_compute; reflexivity|].
  match goal with
  | |- ?A /\ ?B /\ ?C /\ ?D /\ _ =>
      assert (H1 : A) by (vm_compute; reflexivity)
  end.
  split; [exact H1|].
  match goal with
  | |- ?B /\ ?C /\ ?D /\ _ =>
      assert (H2 : B) by (vm_compute; reflexivity)
  end.
  split; [exact H2|].
  match goal with
  | |- ?C /\ ?D /\ _ =>
      assert (H3 : C) by (vm_compute; reflexivity);
      assert (H4 : D) by (vm_compute; reflexivity)
  end.
  split; [exact H3|]. split; [exact H4|].
  exact (add_then_del_restores _ _ _ _ _ H1 H2 H3 H4).
Defined.

(** ** The recursion budget of [build_tree] is never exhausted *)

Lemma bind_within {A B : Type} (m : result A) (f : A -> result B) :
  within_budget m -> (forall a, within_budget (f a)) ->
  within_budget (bind m f).
Proof.
  unfold within_budget. destruct m as [a|e]; simpl; intros Hm Hf.
  - apply Hf.
  - intro E. apply Hm. injection E as ->. reflexivity.
Qed.

Lemma Ok_within {A : Type} (a : A) : within_budget (Ok a).
Proof. discriminate. Qed.

Lemma index_within {A : Type} (l : list A) (i : nat) :
  within_budget (index l i).
Proof. unfold index. destruct (nth_error l i); discriminate. Qed.

Lemma number_within {A : Type} (o : option A) : within_budget (number o).
Proof. destruct o; discriminate. Qed.

Lemma get_gini_within (ps : PointSet) : within_budget (get_gini ps).
Proof. unfold get_gini. destruct (_ =? _)%Z; discriminate. Qed.

Lemma for_each_within {A S : Type} (body : S -> A -> result S) (xs : list A) :
  (forall s x, within_budget (body s x)) ->
  forall s, within_budget (for_each xs body s).
Proof.
  intro Hb. induction xs as [|x xs IH]; intro s; simpl.
  - apply Ok_within.
  - apply bind_within; auto.
Qed.

Lemma consider_within (ps : PointSet) (m : option Z) (ty : FeaturesTypes)
      (i k : nat) (values : list Q) (c : counts) (s : search) :
  within_budget (consider ps m ty i k values c s).
Proof.
  unfold consider.
  destruct (_ || _)%bool; [apply Ok_within|].
  apply bind_within; [apply get_gini_within|]. intro parent.
  destruct (match snd (res s) with None => true | Some best => _ end);
    [|apply Ok_within].
  destruct (below_floor m c); apply Ok_within.
Qed.

Lemma fancy_index_within {A : Type} (a : list A) (idx : list nat) :
  within_budget (fancy_index a idx).
Proof.
  induction idx as [|j idx IH]; simpl; [apply Ok_within|].
  apply bind_within; [apply index_within|]. intro x.
  apply bind_within; [exact IH | intros; apply Ok_within].
Qed.

Lemma count_pass_within (f_values : list Q) (ls : list bool) (val : Q) :
  within_budget (count_pass f_values ls val).
Proof.
  unfold count_pass. apply for_each_within. intros c j. unfold count_step.
  apply bind_within; [apply index_within | intros; apply Ok_within].
Qed.

Lemma class_step_within (ps : PointSet) (m : option Z) (ty : FeaturesTypes)
      (i : nat) (f_values values : list Q) (s : search) (k : nat) :
  within_budget (class_step ps m ty i f_values values s k).
Proof.
  unfold class_step. apply bind_within; [apply count_pass_within|].
  intro c. apply consider_within.
Qed.

Lemma feature_step_within (ps : PointSet) (m : option Z) (s : search) (i : nat) :
  within_budget (feature_step ps m s i).
Proof.
  unfold feature_step. apply bind_within; [apply index_within|].
  intros [| |].
  - apply for_each_within. intros. apply class_step_within.
  - apply for_each_within. intros. apply class_step_within.
  - apply bind_within; [apply fancy_index_within|]. intro sorted_labels.
    apply bind_within; [apply fancy_index_within|]. intro values.
    apply bind_within; [|intros; apply Ok_within].
    apply for_each_within. intros st k. unfold real_step.
    destruct (skip_position k _); [apply Ok_within|].
    apply bind_within; [apply consider_within | intros; apply Ok_within].
Qed.

Lemma get_best_gain_within (ps : PointSet) (m : option Z) :
  within_budget (get_best_gain ps m).
Proof.
  unfold get_best_gain. destruct (_ =? _)%nat; [apply Ok_within|].
  apply bind_within.
  - apply for_each_within. intros. apply feature_step_within.
  - intro s. destruct (fst (res s)); [|apply Ok_within].
    apply bind_within; [apply index_within | intros; apply Ok_within].
Qed.

Lemma get_best_threshold_within (ps : PointSet) :
  within_budget (get_best_threshold ps).
Proof.
  unfold get_best_threshold. destruct (selected_feature_id ps); [|discriminate].
  apply bind_within; [apply index_within|]. intros []; apply Ok_within.
Qed.

Lemma partition_step_within (ps : PointSet) (fid : nat) (is_continous : bool)
      (thr : option Q) (split : list Q * list Q) (acc : partition) (i : nat) :
  within_budget (partition_step ps fid is_continous thr split acc i).
Proof.
  unfold partition_step.
  apply bind_within; [apply index_within|]. intro point.
  apply bind_within; [apply index_within|]. intro x.
  apply bind_within.
  - destruct is_continous; [|apply Ok_within].
    apply bind_within; [apply number_within | intros; apply Ok_within].
  - intro b. apply bind_within; [apply index_within|]. intro label.
    destruct b; apply Ok_within.
Qed.

Lemma build_tree_within_budget (budget : nat) :
  forall t, (Z.to_nat (h t) <= budget)%nat ->
            within_budget (build_tree_within budget t).
Proof.
  induction budget as [|budget IH]; intros t Hb.
  - destruct t as [h0 a b c d e f g l r]; simpl in *.
    destruct (h0 >? 0)%Z eqn:E; [|apply Ok_within].
    exfalso. apply Z.gtb_lt in E. lia.
  - assert (Hinit : forall fs ls ts msp b,
               within_budget (Tree_init_with (build_tree_within budget)
                                             fs ls ts (h t - 1) msp b)).
    { intros. unfold Tree_init_with.
      destruct (h t - 1 >? 0)%Z; [|apply Ok_within].
      apply IH. simpl. lia. }
    simpl. destruct (h t >? 0)%Z; [|apply Ok_within].
    apply bind_within; [apply get_best_gain_within|]. intros [r ps].
    destruct (fst r) as [fid|]; [|apply Ok_within].
    apply bind_within; [apply index_within|]. intro ty.
    apply bind_within; [apply get_best_threshold_within|]. intro thr.
    apply bind_within;
      [apply for_each_within; intros; apply partition_step_within|].
    intro parts.
    match goal with |- within_budget (if ?c then _ else _) => destruct c end;
      [apply Ok_within|].
    apply bind_within.
    + destruct t; destruct (negb (FeaturesTypes_eqb ty REAL)); apply Hinit.
    + intro l. apply bind_within; [|intros; apply Ok_within].
      destruct t; destruct (negb (FeaturesTypes_eqb ty REAL)); apply Hinit.
Qed.

Lemma build_tree_budget (t : Tree) : within_budget (build_tree t).
Proof. apply build_tree_within_budget. lia. Qed.

(** * Further properties *)

(** ** Loops *)

Lemma for_each_seq_invariant {S : Type} (I : nat -> S -> Prop)
      (body : S -> nat -> result S) :
  forall n a s s',
    I a s ->
    (forall k t t', (a <= k < a + n)%nat -> I k t -> body t k = Ok t' ->
                    I (Datatypes.S k) t') ->
    for_each (seq a n) body s = Ok s' ->
    I (a + n)%nat s'.
Proof.
  induction n as [|n IH]; intros a s s' Hs Hstep H; simpl in H.
  - injection H as <-. rewrite Nat.add_0_r. exact Hs.
  - bind_inv H. replace (a + Datatypes.S n)%nat with (Datatypes.S a + n)%nat by lia.
    apply (IH (Datatypes.S a) a0 s'); trivial.
    + apply (Hstep a s a0); trivial. lia.
    + intros k t t' Hk. apply Hstep. lia.
Qed.

Lemma for_each_succeeds {A S : Type} (P : S -> Prop)
      (body : S -> A -> result S) (xs : list A) :
  (forall s x, In x xs -> P s -> exists s', body s x = Ok s' /\ P s') ->
  forall s, P s -> exists s', for_each xs body s = Ok s' /\ P s'.
Proof.
  induction xs as [|x xs IH]; intros Hb s Hs; simpl.
  - eauto.
  - destruct (Hb s x (or_introl eq_refl) Hs) as (s1 & E1 & H1).
    rewrite E1. simpl. apply IH; trivial.
    intros t y Hy. apply Hb. right. exact Hy.
Qed.

(** ** The search returns the best usable candidate *)

Lemma get_gini_value (ps : PointSet) (parent : Q) :
  get_gini ps = Ok parent ->
  parent = gini_of (count_label_true (labels ps))
                   (Z.of_nat (length (labels ps))).
Proof.
  unfold get_gini. destruct (_ =? _)%Z; [discriminate|].
  intro H. injection H as <-. reflexivity.
Qed.

Lemma usable_true (m : option Z) (c : counts) :
  ((c00 c + c01 c =? 0) || (c10 c + c11 c =? 0))%Z = false ->
  below_floor m c = false ->
  usable m c = true.
Proof. intros H1 H2. unfold usable. rewrite H1, H2. reflexivity. Qed.

Lemma best_of_ext (ps : PointSet) (m : option Z)
      (seen seen' : nat -> counts -> Prop) (s : search) :
  (forall j d, seen j d <-> seen' j d) ->
  best_of ps m seen s -> best_of ps m seen' s.
Proof.
  intros Hext [H1 H2]. split.
  - destruct H1 as [H1|(i & c & Hr & Hs & Hu)]; [left; exact H1|].
    right. exists i, c. rewrite <- Hext. auto.
  - intros i c Hs. apply (H2 i c). apply Hext. exact Hs.
Qed.

Lemma best_of_unusable (ps : PointSet) (m : option Z)
      (seen seen' : nat -> counts -> Prop) (i : nat) (c : counts) (s : search) :
  (forall j d, seen' j d <-> seen j d \/ (j = i /\ d = c)) ->
  usable m c = false ->
  best_of ps m seen s -> best_of ps m seen' s.
Proof.
  intros Hseen Hu [H1 H2]. split.
  - destruct H1 as [H1|(j & d & Hr & Hs & Hd)]; [left; exact H1|].
    right. exists j, d. rewrite Hseen. auto.
  - intros j d Hs Hd. apply Hseen in Hs as [Hs|[-> ->]];
      [apply (H2 j d Hs Hd) | congruence].
Qed.

Lemma consider_best_of (ps : PointSet) (m : option Z) (f_type : FeaturesTypes)
      (i k : nat) (values : list Q) (c : counts) (s s' : search)
      (seen seen' : nat -> counts -> Prop) :
  (forall j d, seen' j d <-> seen j d \/ (j = i /\ d = c)) ->
  best_of ps m seen s ->
  consider ps m f_type i k values c s = Ok s' ->
  best_of ps m seen' s'.
Proof.
  intros Hseen Hbest. unfold consider.
  destruct ((c00 c + c01 c =? 0) || (c10 c + c11 c =? 0))%Z eqn:Eside.
  { intro H. injection H as <-.
    apply (best_of_unusable ps m seen seen' i c); trivial.
    unfold usable. rewrite Eside. reflexivity. }
  destruct (get_gini ps) as [parent|e] eqn:Eg; simpl; [|discriminate].
  apply get_gini_value in Eg. subst parent. fold (split_gain ps c).
  destruct Hbest as [H1 H2].
  destruct (match snd (res s) with
            | Some best => Qlt_bool best (split_gain ps c)
            | None => true
            end) eqn:Ebetter.
  - destruct (below_floor m c) eqn:Efloor; intro H; injection H as <-.
    + apply (best_of_unusable ps m seen seen' i c); [trivial| |split; trivial].
      unfold usable. rewrite Efloor. apply andb_false_r.
    + split; simpl.
      * right. exists i, c. split; [reflexivity|]. split.
        -- apply Hseen. auto.
        -- apply usable_true; trivial.
      * intros j d Hs Hd. exists (split_gain ps c). split; [reflexivity|].
        apply Hseen in Hs as [Hs|[-> ->]]; [|apply Qle_refl].
        destruct (H2 j d Hs Hd) as (g & Hg & Hle).
        rewrite Hg in Ebetter. apply Qlt_bool_iff in Ebetter.
        apply Qlt_le_weak. eapply Qle_lt_trans; eassumption.
  - intro H. injection H as <-.
    destruct (snd (res s)) as [best|] eqn:Esnd; [|discriminate].
    split.
    + destruct H1 as [H1|(j & d & Hr & Hs & Hd)]; [left; exact H1|].
      right. exists j, d. rewrite Hseen. auto.
    + intros j d Hs Hd. rewrite Esnd.
      apply Hseen in Hs as [Hs|[-> ->]]; [apply (H2 j d Hs Hd)|].
      exists best. split; [reflexivity|].
      unfold Qlt_bool in Ebetter. apply negb_false_iff in Ebetter.
      apply Qle_bool_iff. exact Ebetter.
Qed.

Lemma class_loop_best_of (ps : PointSet) (m : option Z) (f_type : FeaturesTypes)
      (i : nat) (values : list Q) (seen : nat -> counts -> Prop)
      (s s' : search) :
  length (labels ps) = length (features ps) ->
  best_of ps m seen s ->
  for_each (seq 0 (length values))
           (class_step ps m f_type i (column i (features ps)) values) s
  = Ok s' ->
  best_of ps m
          (fun j d => seen j d \/
                      (j = i /\
                       In d (map (class_counts (column i (features ps)) (labels ps))
                                 values)))
          s'.
Proof.
  intros Hlen Hs H.
  set (fv := column i (features ps)) in *.
  assert (Hfv : (length fv <= length (labels ps))%nat)
    by (unfold fv, column; rewrite length_map; lia).
  pose (I := fun (k : nat) (t : search) =>
               best_of ps m
                 (fun j d => seen j d \/
                    (j = i /\ exists k', (k' < k)%nat /\
                       d = class_counts fv (labels ps) (nth k' values 0%Q)))
                 t).
  assert (Hend : I (0 + length values)%nat s').
  { apply (for_each_seq_invariant I) with (3 := H).
    - unfold I. eapply best_of_ext; [|exact Hs].
      intros j d. split; [auto|]. intros [Hj|(_ & k' & Hk' & _)]; [exact Hj|lia].
    - intros k t t' Hk Ht. unfold class_step.
      rewrite count_pass_counts by exact Hfv. cbn [bind].
      apply consider_best_of with (2 := Ht).
      intros j d. split.
      + intros [Hj|(-> & k' & Hk' & ->)]; [auto|].
        destruct (Nat.eq_dec k' k) as [->|Hne]; [auto|].
        left. right. split; trivial. exists k'. split; [lia|reflexivity].
      + intros [[Hj|(-> & k' & Hk' & ->)]|[-> ->]]; [auto| |].
        * right. split; trivial. exists k'. split; [lia|reflexivity].
        * right. split; trivial. exists k. split; [lia|reflexivity]. }
  unfold I in Hend. eapply best_of_ext; [|exact Hend].
  intros j d. split.
  - intros [Hj|(-> & k' & Hk' & ->)]; [auto|].
    right. split; trivial. apply in_map, nth_In. simpl in Hk'. exact Hk'.
  - intros [Hj|(-> & Hin)]; [auto|]. right. split; trivial.
    apply in_map_iff in Hin as (v & <- & Hv).
    apply (In_nth _ _ 0%Q) in Hv as (k' & Hk' & <-).
    exists k'. split; [simpl; exact Hk' | reflexivity].
Qed.

Lemma real_loop_best_of (ps : PointSet) (m : option Z) (i : nat)
      (values : list Q) (sl : list bool) (seen : nat -> counts -> Prop)
      (s : search) (st' : counts * search) :
  length values = length sl ->
  best_of ps m seen s ->
  for_each (seq 0 (length values)) (real_step ps m i values sl)
           (cut_counts sl 0, s) = Ok st' ->
  best_of ps m
          (fun j d => seen j d \/
                      (j = i /\
                       In d (map (cut_counts sl)
                                 (filter (fun k => negb (skip_position k values))
                                         (seq 0 (length values))))))
          (snd st').
Proof.
  intros Hlen Hs H.
  pose (I := fun (k : nat) (t : counts * search) =>
               fst t = cut_counts sl (k - 1) /\
               best_of ps m
                 (fun j d => seen j d \/
                    (j = i /\ exists k', (k' < k)%nat /\
                       skip_position k' values = false /\
                       d = cut_counts sl k'))
                 (snd t)).
  assert (Hend : I (0 + length values)%nat st').
  { apply (for_each_seq_invariant I) with (3 := H).
    - split; [reflexivity|]. simpl. eapply best_of_ext; [|exact Hs].
      intros j d. split; [auto|]. intros [Hj|(_ & k' & Hk' & _)]; [exact Hj|lia].
    - intros k [c t] [c' t'] Hk [Hc Ht]. unfold I. cbn [fst snd] in *.
      subst c. unfold real_step. cbn [fst snd].
      rewrite move_point_cut by lia.
      replace (Datatypes.S k - 1)%nat with k by lia.
      destruct (skip_position k values) eqn:Esk.
      + intro E. injection E as <- <-. split; [reflexivity|].
        eapply best_of_ext; [|exact Ht].
        intros j d. split.
        * intros [Hj|(-> & k' & Hk' & Hsk & ->)]; [auto|].
          right. split; trivial. exists k'. split; [lia|auto].
        * intros [Hj|(-> & k' & Hk' & Hsk & ->)]; [auto|].
          right. split; trivial. exists k'. split; [|auto].
          destruct (Nat.eq_dec k' k) as [->|Hne]; [congruence|lia].
      + intro E. bind_inv E. injection E as <- <-. split; [reflexivity|].
        apply consider_best_of with (2 := Ht) (3 := Ha).
        intros j d. split.
        * intros [Hj|(-> & k' & Hk' & Hsk & ->)]; [auto|].
          destruct (Nat.eq_dec k' k) as [->|Hne]; [auto|].
          left. right. split; trivial. exists k'. split; [lia|auto].
        * intros [[Hj|(-> & k' & Hk' & Hsk & ->)]|[-> ->]]; [auto| |].
          -- right. split; trivial. exists k'. split; [lia|auto].
          -- right. split; trivial. exists k. split; [lia|auto]. }
  destruct Hend as [_ Hend]. eapply best_of_ext; [|exact Hend].
  intros j d. split.
  - intros [Hj|(-> & k' & Hk' & Hsk & ->)]; [auto|].
    right. split; trivial. apply in_map, filter_In. split.
    + apply in_seq. simpl in Hk'. lia.
    + rewrite Hsk. reflexivity.
  - intros [Hj|(-> & Hin)]; [auto|]. right. split; trivial.
    apply in_map_iff in Hin as (k' & <- & Hk').
    apply filter_In in Hk' as [Hk' Hsk]. apply in_seq in Hk'.
    exists k'. split; [simpl; lia|]. split; [|reflexivity].
    apply negb_true_iff. exact Hsk.
Qed.

Lemma candidate_of_typed (ps : PointSet) (i : nat) (f_type : FeaturesTypes)
      (c : counts) :
  nth_error (types ps) i = Some f_type ->
  (candidate_of ps i c <-> In c (candidates ps i f_type)).
Proof.
  intro Hty. unfold candidate_of. split.
  - intros (ty & Hty' & Hin). congruence.
  - intro Hin. exists f_type. auto.
Qed.

Lemma feature_step_best_of (ps : PointSet) (m : option Z) (s s' : search)
      (i : nat) :
  length (labels ps) = length (features ps) ->
  best_of ps m (fun j d => (j < i)%nat /\ candidate_of ps j d) s ->
  feature_step ps m s i = Ok s' ->
  best_of ps m (fun j d => (j < Datatypes.S i)%nat /\ candidate_of ps j d) s'.
Proof.
  intros Hlen Hs H. unfold feature_step in H. bind_inv H.
  unfold index in Ha.
  destruct (nth_error (types ps) i) as [ty|] eqn:Ety; [|discriminate].
  injection Ha as <-.
  assert (Hseen : forall j d,
             ((j < i)%nat /\ candidate_of ps j d) \/
             (j = i /\ In d (candidates ps i ty))
             <-> (j < Datatypes.S i)%nat /\ candidate_of ps j d).
  { intros j d. split.
    - intros [[Hj Hc]|[-> Hin]]; [split; [lia|exact Hc]|].
      split; [lia|]. apply (candidate_of_typed ps i ty); trivial.
    - intros [Hj Hc]. destruct (Nat.eq_dec j i) as [->|Hne].
      + right. split; trivial. apply (candidate_of_typed ps i ty); trivial.
      + left. split; [lia|exact Hc]. }
  destruct ty.
  - apply (class_loop_best_of ps m BOOLEAN i [0%Q] _ s s' Hlen Hs) in H.
    eapply best_of_ext; [|exact H]. exact Hseen.
  - apply (class_loop_best_of ps m CLASSES i _ _ s s' Hlen Hs) in H.
    eapply best_of_ext; [|exact H]. exact Hseen.
  - bind_inv H. bind_inv H. bind_inv H. injection H as <-.
    apply (fancy_index_Ok _ false) in Ha. subst a.
    apply (fancy_index_Ok _ 0%Q) in Ha0. subst a0.
    fold (sorted_values ps i) in Ha1. fold (sorted_labels_of ps i) in Ha1.
    rewrite <- (cut_counts_start ps i Hlen) in Ha1.
    assert (Hvl : length (sorted_values ps i) = length (sorted_labels_of ps i))
      by (unfold sorted_values, sorted_labels_of; rewrite !take_length;
          reflexivity).
    pose proof (real_loop_best_of ps m i _ _ _ s a1 Hvl Hs Ha1) as Hb.
    eapply best_of_ext; [|exact Hb]. exact Hseen.
Qed.

Lemma get_best_gain_best_of (ps : PointSet) (m : option Z)
      (r : option nat * option Q) (ps' : PointSet) :
  length (labels ps) = length (features ps) ->
  get_best_gain ps m = Ok (r, ps') ->
  exists s,
    res s = r /\
    best_of ps m (fun j d => (j < ncols (features ps))%nat /\ candidate_of ps j d)
            s.
Proof.
  intros Hlen H. unfold get_best_gain in H.
  destruct (length (features ps) =? 0)%nat eqn:E0.
  - injection H as <- <-. exists search_start. split; [reflexivity|].
    apply Nat.eqb_eq in E0. destruct (features ps); [|discriminate].
    split; [left; reflexivity|]. intros j d [Hj _]. simpl in Hj. lia.
  - bind_inv H. exists a. split.
    + destruct (fst (res a)); [bind_inv H|]; injection H as <- _; reflexivity.
    + pose (I := fun (i : nat) (t : search) =>
                   best_of ps m
                     (fun j d => (j < i)%nat /\ candidate_of ps j d) t).
      change (I (0 + ncols (features ps))%nat a).
      apply (for_each_seq_invariant I) with (3 := Ha).
      * split; [left; reflexivity|]. intros j d [Hj _]. lia.
      * intros k t t' _. apply feature_step_best_of. exact Hlen.
Qed.

(** X1. The feature the search returns has a usable candidate split
    whose gain is the gain returned: both sides of that split are
    inhabited and neither is below the floor. *)
Theorem get_best_gain_winner (ps : PointSet) (m : option Z) (i : nat)
        (g : option Q) (ps' : PointSet) :
  well_formed ps ->
  get_best_gain ps m = Ok ((Some i, g), ps') ->
  (i < ncols (features ps))%nat /\
  exists c,
    candidate_of ps i c /\ usable m c = true /\ g = Some (split_gain ps c).
Proof.
  intros [Hlen _] H.
  destruct (get_best_gain_best_of ps m _ ps' Hlen H) as (s & Hr & [H1 _]).
  rewrite Hr in H1. destruct H1 as [H1|(j & c & Hres & [Hj Hc] & Hu)];
    [discriminate|].
  injection Hres as -> ->. split; [exact Hj|]. exists c. auto.
Qed.

(** X2. No usable candidate split of any feature has a gain above the
    one the search returns; in particular the search returns a feature
    whenever some candidate is usable. *)
Theorem get_best_gain_optimal (ps : PointSet) (m : option Z)
        (r : option nat * option Q) (ps' : PointSet) (i : nat) (c : counts) :
  well_formed ps ->
  get_best_gain ps m = Ok (r, ps') ->
  (i < ncols (features ps))%nat ->
  candidate_of ps i c ->
  usable m c = true ->
  exists j g, r = (Some j, Some g) /\ (split_gain ps c <= g)%Q.
Proof.
  intros [Hlen _] H Hi Hc Hu.
  destruct (get_best_gain_best_of ps m r ps' Hlen H) as (s & Hr & [H1 H2]).
  destruct (H2 i c (conj Hi Hc) Hu) as (g & Hg & Hle).
  rewrite Hr in *. destruct H1 as [H1|(j & d & Hres & _)].
  - rewrite H1 in Hg. discriminate.
  - rewrite Hres in Hg. injection Hg as <-. rewrite Hres. eauto.
Qed.

Lemma get_best_gain_winner_witness :
  let ps := PointSet_init scenario_points [true; true; false; false]
                          [REAL; CLASSES] in
  exists g ps',
    well_formed ps /\
    get_best_gain ps (Some 1%Z) = Ok ((Some 0%nat, g), ps') /\
    (0 < ncols (features ps))%nat /\
    exists c,
      candidate_of ps 0 c /\ usable (Some 1%Z) c = true /\
      g = Some (split_gain ps c).
Proof.
  intro ps.
  assert (Hwf : well_formed ps) by (split; [reflexivity | repeat constructor]).
  assert (Hg : {g : option Q & {ps' : PointSet |
                 get_best_gain ps (Some 1%Z) = Ok ((Some 0%nat, g), ps')}})
    by (do 2 eexists; vm_compute; reflexivity).
  destruct Hg as (g & ps' & Hg).
  exists g, ps'. split; [exact Hwf|]. split; [exact Hg|].
  exact (get_best_gain_winner ps (Some 1%Z) 0 g ps' Hwf Hg).
Defined.

Lemma get_best_gain_optimal_witness :
  let ps := PointSet_init scenario_points [true; true; false; false]
                          [REAL; CLASSES] in
  let c := mkCounts 0 1 2 1 in
  exists r ps',
    well_formed ps /\
    get_best_gain ps (Some 1%Z) = Ok (r, ps') /\
    (0 < ncols (features ps))%nat /\
    candidate_of ps 0 c /\
    usable (Some 1%Z) c = true /\
    exists j g, r = (Some j, Some g) /\ (split_gain ps c <= g)%Q.
Proof.
  intros ps c.
  assert (Hwf : well_formed ps) by (split; [reflexivity | repeat constructor]).
  assert (Hg : {r : option nat * option Q & {ps' : PointSet |
                 get_best_gain ps (Some 1%Z) = Ok (r, ps')}})
    by (do 2 eexists; vm_compute; reflexivity).
  destruct Hg as (r & ps' & Hg).
  assert (Hi : (0 < ncols (features ps))%nat) by (simpl; lia).
  assert (Hc : candidate_of ps 0 c).
  { exists REAL. split; [reflexivity|]. vm_compute. auto. }
  assert (Hu : usable (Some 1%Z) c = true) by reflexivity.
  exists r, ps'. repeat (split; [assumption|]).
  exact (get_best_gain_optimal ps (Some 1%Z) r ps' 0 c Hwf Hg Hi Hc Hu).
Defined.

(** ** The gain of a split *)

Lemma count_where_nonneg (p : Q -> bool -> bool) (fv : list Q) (ls : list bool) :
  (0 <= count_where p fv ls)%Z.
Proof. unfold count_where. lia. Qed.

Lemma class_counts_split (val : Q) (fv : list Q) :
  forall ls,
    length fv = length ls ->
    let c := class_counts fv ls val in
    (c00 c + c01 c + c10 c + c11 c = Z.of_nat (length ls))%Z /\
    (c01 c + c11 c = count_label true ls)%Z.
Proof.
  induction fv as [|f fv IH]; intros [|l ls] Hlen; simpl in Hlen; try lia.
  - split; reflexivity.
  - destruct (IH ls ltac:(lia)) as [H1 H2].
    unfold class_counts in *. cbn [c00 c01 c10 c11] in *.
    rewrite !count_where_cons, count_label_cons.
    destruct l, (Qeq_bool f val); cbn [negb andb Bool.eqb];
      split; try lia; cbn [length]; lia.
Qed.

Lemma cut_counts_split (sl : list bool) (k : nat) :
  let c := cut_counts sl k in
  (c00 c + c01 c + c10 c + c11 c = Z.of_nat (length sl))%Z /\
  (c01 c + c11 c = count_label true sl)%Z.
Proof.
  unfold cut_counts. cbn [c00 c01 c10 c11].
  pose proof (count_label_split (firstn k sl)) as H1.
  pose proof (count_label_split (skipn k sl)) as H2.
  pose proof (count_label_app true (firstn k sl) (skipn k sl)) as H3.
  rewrite firstn_skipn in H3.
  assert (H4 : (length (firstn k sl) + length (skipn k sl) = length sl)%nat)
    by (rewrite <- length_app, firstn_skipn; reflexivity).
  split; lia.
Qed.

Lemma candidate_splits_points (ps : PointSet) (i : nat) (c : counts) :
  length (labels ps) = length (features ps) ->
  candidate_of ps i c -> splits_points ps c.
Proof.
  intros Hlen (ty & Hty & Hin). unfold candidates in Hin.
  assert (Hcol : length (column i (features ps)) = length (labels ps))
    by (unfold column; rewrite length_map; congruence).
  assert (Hclass : forall val,
             splits_points ps (class_counts (column i (features ps))
                                            (labels ps) val)).
  { intro val. split.
    - unfold class_counts. cbn [c00 c01 c10 c11].
      repeat split; apply count_where_nonneg.
    - apply class_counts_split. exact Hcol. }
  destruct ty.
  - destruct Hin as [<-|[]]. apply Hclass.
  - apply in_map_iff in Hin as (val & <- & _). apply Hclass.
  - apply in_map_iff in Hin as (k & <- & _).
    pose proof (cut_counts_split (sorted_labels_of ps i) k) as [H1 H2].
    pose proof (sorted_labels_perm ps i Hlen) as Hperm.
    rewrite (Permutation_length Hperm) in H1.
    rewrite (count_label_perm true _ _ Hperm) in H2.
    split; [|split; assumption].
    unfold cut_counts. cbn [c00 c01 c10 c11].
    repeat split; apply count_label_nonneg.
Qed.

Lemma gain_identity (A B C D : Q) :
  ~ (A + B == 0)%Q -> ~ (C + D == 0)%Q -> ~ (A + B + C + D == 0)%Q ->
  ((1 - ((B + D) / (A + B + C + D)) ^ 2 - ((A + C) / (A + B + C + D)) ^ 2)
   - ((A + B) / (A + B + C + D) * (1 - (A / (A + B)) ^ 2 - (B / (A + B)) ^ 2)
      + (C + D) / (A + B + C + D) * (1 - (C / (C + D)) ^ 2 - (D / (C + D)) ^ 2))
   == 2 * (A * D - B * C) ^ 2 / ((A + B + C + D) ^ 2 * (A + B) * (C + D)))%Q.
Proof. intros H1 H2 H3. field. auto. Qed.

Lemma inject_Z_pos (z : Z) : (0 < z)%Z -> (0 < inject_Z z)%Q.
Proof. intro H. change 0%Q with (inject_Z 0). rewrite <- Zlt_Qlt. exact H. Qed.

Lemma inject_Z_nonneg (z : Z) : (0 <= z)%Z -> (0 <= inject_Z z)%Q.
Proof. intro H. change 0%Q with (inject_Z 0). rewrite <- Zle_Qle. exact H. Qed.

Lemma int_div_nonneg (a b : Z) :
  (0 <= a)%Z -> (0 < b)%Z -> (0 <= int_div a b)%Q.
Proof.
  intros Ha Hb. unfold int_div. apply Qle_shift_div_l.
  - apply inject_Z_pos. exact Hb.
  - rewrite Qmult_0_l. apply inject_Z_nonneg. exact Ha.
Qed.

Lemma Qsquare_nonneg (x : Q) : (0 <= x ^ 2)%Q.
Proof.
  simpl. unfold Qle, Qmult. cbn [Qnum Qden].
  pose proof (Z.square_nonneg (Qnum x)). lia.
Qed.

Lemma side_gini_nonneg (a b : Z) :
  (0 <= a)%Z -> (0 <= b)%Z -> (0 < a + b)%Z ->
  (0 <= 1 - int_div a (a + b) ^ 2 - int_div b (a + b) ^ 2)%Q.
Proof.
  intros Ha Hb Hab.
  destruct (gini_of_range b (a + b) Hab ltac:(lia)) as [H _].
  unfold gini_of in H. replace (a + b - b)%Z with a in H by lia.
  lra.
Qed.

Lemma split_gain_closed (ps : PointSet) (c : counts) :
  splits_points ps c ->
  (c00 c + c01 c <> 0)%Z -> (c10 c + c11 c <> 0)%Z ->
  (split_gain ps c
   == 2 * (inject_Z (c00 c) * inject_Z (c11 c)
           - inject_Z (c01 c) * inject_Z (c10 c)) ^ 2
      / ((inject_Z (c00 c) + inject_Z (c01 c) + inject_Z (c10 c)
          + inject_Z (c11 c)) ^ 2
         * (inject_Z (c00 c) + inject_Z (c01 c))
         * (inject_Z (c10 c) + inject_Z (c11 c))))%Q.
Proof.
  intros [(H00 & H01 & H10 & H11) [Hsum Htrue]] Hn0 Hn1.
  unfold split_gain, gini_gain_of, gini_of. cbv zeta.
  rewrite count_label_true_nonzero, count_nonzero_true, <- Htrue, <- Hsum.
  replace (c00 c + c01 c + c10 c + c11 c - (c01 c + c11 c))%Z
    with (c00 c + c10 c)%Z by lia.
  unfold int_div. rewrite !inject_Z_plus.
  apply gain_identity; rewrite <- ?inject_Z_plus; apply inject_Z_nonzero; lia.
Qed.

Lemma split_gain_bounds (ps : PointSet) (c : counts) :
  splits_points ps c ->
  (c00 c + c01 c <> 0)%Z -> (c10 c + c11 c <> 0)%Z ->
  (0 <= split_gain ps c
   <= gini_of (count_label_true (labels ps)) (Z.of_nat (length (labels ps))))%Q.
Proof.
  intros Hsp Hn0 Hn1. split.
  - rewrite (split_gain_closed ps c Hsp Hn0 Hn1).
    destruct Hsp as [(H00 & H01 & H10 & H11) _].
    apply Qle_shift_div_l.
    + repeat apply Qmult_lt_0_compat.
      * rewrite <- !inject_Z_plus. apply inject_Z_pos. lia.
      * rewrite <- !inject_Z_plus. apply inject_Z_pos. lia.
      * rewrite <- !inject_Z_plus. apply inject_Z_pos. lia.
      * rewrite <- !inject_Z_plus. apply inject_Z_pos. lia.
    + rewrite Qmult_0_l. apply Qmult_le_0_compat; [discriminate|].
      apply Qsquare_nonneg.
  - destruct Hsp as [(H00 & H01 & H10 & H11) [Hsum _]].
    unfold split_gain, gini_gain_of. cbv zeta.
    assert (Ht : (0 < Z.of_nat (length (labels ps)))%Z) by lia.
    pose proof (side_gini_nonneg (c00 c) (c01 c) H00 H01 ltac:(lia)) as G0.
    pose proof (side_gini_nonneg (c10 c) (c11 c) H10 H11 ltac:(lia)) as G1.
    pose proof (int_div_nonneg (c00 c + c01 c) _ ltac:(lia) Ht) as W0.
    pose proof (int_div_nonneg (c10 c + c11 c) _ ltac:(lia) Ht) as W1.
    pose proof (Qmult_le_0_compat _ _ W0 G0) as P0.
    pose proof (Qmult_le_0_compat _ _ W1 G1) as P1.
    lra.
Qed.

Lemma usable_sides (m : option Z) (c : counts) :
  usable m c = true ->
  (c00 c + c01 c <> 0)%Z /\ (c10 c + c11 c <> 0)%Z /\ below_floor m c = false.
Proof.
  unfold usable. rewrite andb_true_iff, !negb_true_iff, orb_false_iff.
  rewrite !Z.eqb_neq. tauto.
Qed.

Lemma splits_points_nonempty (ps : PointSet) (c : counts) :
  splits_points ps c -> (c00 c + c01 c <> 0)%Z -> labels ps <> [].
Proof.
  intros [(H00 & H01 & H10 & H11) [Hsum _]] Hn0 E.
  rewrite E in Hsum. simpl in Hsum. lia.
Qed.

Lemma get_gini_parent (ps : PointSet) :
  labels ps <> [] ->
  get_gini ps = Ok (gini_of (count_label_true (labels ps))
                            (Z.of_nat (length (labels ps)))).
Proof.
  intro Hne. rewrite (get_gini_nonempty ps Hne).
  rewrite count_label_true_nonzero, count_nonzero_true. reflexivity.
Qed.



Lemma pure_side_gini (a b : Z) :
  (a = 0 \/ b = 0)%Z -> (a + b <> 0)%Z ->
  (1 - int_div a (a + b) ^ 2 - int_div b (a + b) ^ 2 == 0)%Q.
Proof.
  intros [-> | ->] Hab; unfold int_div.
  - rewrite Z.add_0_l in *. field. apply inject_Z_nonzero. exact Hab.
  - rewrite Z.add_0_r in *. field. apply inject_Z_nonzero. exact Hab.
Qed.

Lemma pure_split_gain (ps : PointSet) (c : counts) :
  (c00 c = 0 \/ c01 c = 0)%Z -> (c10 c = 0 \/ c11 c = 0)%Z ->
  (c00 c + c01 c <> 0)%Z -> (c10 c + c11 c <> 0)%Z ->
  (split_gain ps c
   == gini_of (count_label_true (labels ps)) (Z.of_nat (length (labels ps))))%Q.
Proof.
  intros H0 H1 Hn0 Hn1. unfold split_gain, gini_gain_of. cbv zeta.
  rewrite (pure_side_gini _ _ H0 Hn0), (pure_side_gini _ _ H1 Hn1). ring.
Qed.

(** X5. When some usable candidate split leaves each side with labels
    of one kind only, the search returns a split whose gain is the whole
    Gini impurity of the point set. *)
Theorem get_best_gain_pure_split (ps : PointSet) (m : option Z)
        (r : option nat * option Q) (ps' : PointSet) (i : nat) (c : counts) :
  well_formed ps ->
  get_best_gain ps m = Ok (r, ps') ->
  (i < ncols (features ps))%nat ->
  candidate_of ps i c ->
  usable m c = true ->
  (c00 c = 0 \/ c01 c = 0)%Z -> (c10 c = 0 \/ c11 c = 0)%Z ->
  exists j g parent,
    r = (Some j, Some g) /\ get_gini ps = Ok parent /\ (g == parent)%Q.
Proof.
  intros Hwf H Hi Hc Hu H0 H1.
  destruct (get_best_gain_best_of ps m r ps' (proj1 Hwf) H)
    as (s & Hr & [Hbest Hdom]).
  destruct (Hdom i c (conj Hi Hc) Hu) as (g & Hg & Hle).
  rewrite Hr in *. destruct Hbest as [Hn|(j & d & Hres & [Hj Hd] & Hud)].
  { rewrite Hn in Hg. discriminate. }
  rewrite Hres in Hg. injection Hg as <-.
  apply usable_sides in Hu as (Hn0 & Hn1 & _).
  apply usable_sides in Hud as (Hd0 & Hd1 & _).
  pose proof (candidate_splits_points ps j d (proj1 Hwf) Hd) as Hsp.
  pose proof (splits_points_nonempty ps d Hsp Hd0) as Hne.
  exists j, (split_gain ps d). eexists.
  split; [exact Hres|]. split; [apply get_gini_parent; exact Hne|].
  apply Qle_antisym.
  - apply split_gain_bounds; assumption.
  - rewrite <- (pure_split_gain ps c H0 H1 Hn0 Hn1). exact Hle.
Qed.

Lemma get_best_gain_pure_split_witness :
  let ps := PointSet_init [[0%Q]; [1%Q]; [0%Q]; [1%Q]]
                          [false; true; false; true] [BOOLEAN] in
  let c := mkCounts 2 0 0 2 in
  exists r ps',
    well_formed ps /\
    get_best_gain ps (Some 1%Z) = Ok (r, ps') /\
    exists j g parent,
      r = (Some j, Some g) /\ get_gini ps = Ok parent /\ (g == parent)%Q.
Proof.
  intros ps c.
  assert (Hwf : well_formed ps) by (split; [reflexivity | repeat constructor]).
  assert (Hg : {r : option nat * option Q & {ps' : PointSet |
                 get_best_gain ps (Some 1%Z) = Ok (r, ps')}})
    by (do 2 eexists; vm_compute; reflexivity).
  destruct Hg as (r & ps' & Hg).
  assert (Hi : (0 < ncols (features ps))%nat) by (simpl; lia).
  assert (Hc : candidate_of ps 0 c).
  { exists BOOLEAN. split; [reflexivity|]. vm_compute. auto. }
  assert (Hu : usable (Some 1%Z) c = true) by reflexivity.
  assert (H0 : (c00 c = 0 \/ c01 c = 0)%Z) by (right; reflexivity).
  assert (H1 : (c10 c = 0 \/ c11 c = 0)%Z) by (left; reflexivity).
  exists r, ps'. split; [exact Hwf|]. split; [exact Hg|].
  exact (get_best_gain_pure_split ps (Some 1%Z) r ps' 0 c Hwf Hg Hi Hc Hu H0 H1).
Defined.

(** ** The search and the stored winner *)

Lemma feature_step_data (ts : list FeaturesTypes) (fs : list (list Q))
      (ls : list bool) (th th' : option Q) (sel sel' : option nat)
      (cat cat' : option Q) (m : option Z) (s : search) (i : nat) :
  feature_step (mkPointSet ts fs ls th sel cat) m s i
  = feature_step (mkPointSet ts fs ls th' sel' cat') m s i.
Proof. reflexivity. Qed.

Lemma feature_loop_data (ps ps' : PointSet) (m : option Z) (xs : list nat) :
  same_data ps ps' ->
  forall s,
    for_each xs (feature_step ps' m) s = for_each xs (feature_step ps m) s.
Proof.
  intros (Ht & Hf & Hl).
  destruct ps as [ts fs ls th sel cat], ps' as [ts' fs' ls' th' sel' cat'].
  simpl in Ht, Hf, Hl. subst ts' fs' ls'.
  induction xs as [|x xs IH]; intro s; simpl; [reflexivity|].
  rewrite (feature_step_data ts fs ls th' th sel' sel cat' cat).
  destruct (feature_step _ m s x); simpl; auto.
Qed.

Lemma get_best_gain_same_data (ps : PointSet) (m : option Z)
      (r : option nat * option Q) (ps' : PointSet) :
  get_best_gain ps m = Ok (r, ps') -> same_data ps ps'.
Proof.
  unfold get_best_gain, same_data.
  destruct (length (features ps) =? 0)%nat.
  - intro H. injection H as <- <-. auto.
  - intro H. bind_inv H.
    destruct (fst (res a)) as [best|]; [|injection H as <- <-; auto].
    bind_inv H. injection H as <- <-.
    destruct (FeaturesTypes_eqb a0 REAL), (FeaturesTypes_eqb a0 CLASSES);
      simpl; auto.
Qed.

(** X6. A search does not read what an earlier search stored: run again
    on the point set it returned, it returns the same pair and leaves
    the point set as it is. *)
Theorem get_best_gain_idempotent (ps : PointSet) (m : option Z)
        (r : option nat * option Q) (ps' : PointSet) :
  get_best_gain ps m = Ok (r, ps') ->
  get_best_gain ps' m = Ok (r, ps').
Proof.
  intro H. pose proof (get_best_gain_same_data ps m r ps' H) as Hd.
  pose proof Hd as (Ht & Hf & Hl).
  unfold get_best_gain in *. rewrite Hf, Ht.
  destruct (length (features ps) =? 0)%nat;
    [injection H as <- <-; reflexivity|].
  rewrite (feature_loop_data ps ps' m _ Hd).
  bind_inv H. rewrite Ha. cbn [bind].
  destruct (fst (res a)) as [best|];
    [|injection H as <- <-; reflexivity].
  bind_inv H. rewrite Ha0. cbn [bind]. injection H as <- <-.
  destruct (FeaturesTypes_eqb a0 REAL), (FeaturesTypes_eqb a0 CLASSES);
    reflexivity.
Qed.

Lemma get_best_gain_idempotent_witness :
  let ps := PointSet_init scenario_points [true; true; false; false]
                          [REAL; CLASSES] in
  exists r ps',
    get_best_gain ps (Some 1%Z) = Ok (r, ps') /\
    get_best_gain ps' (Some 1%Z) = Ok (r, ps').
Proof.
  intro ps.
  assert (Hg : {r : option nat * option Q & {ps' : PointSet |
                 get_best_gain ps (Some 1%Z) = Ok (r, ps')}})
    by (do 2 eexists; vm_compute; reflexivity).
  destruct Hg as (r & ps' & Hg).
  exists r, ps'. split; [exact Hg|].
  exact (get_best_gain_idempotent ps (Some 1%Z) r ps' Hg).
Defined.

Lemma consider_succeeds (ps : PointSet) (m : option Z) (f_type : FeaturesTypes)
      (i k : nat) (values : list Q) (c : counts) (s : search) :
  labels ps <> [] ->
  (i < length (types ps))%nat ->
  leader_typed ps s ->
  exists s', consider ps m f_type i k values c s = Ok s' /\ leader_typed ps s'.
Proof.
  intros Hne Hi Hs. unfold consider.
  rewrite (get_gini_parent ps Hne). cbn [bind].
  destruct (_ || _)%bool; [eauto|].
  destruct (match snd (res s) with Some _ => _ | None => _ end); [|eauto].
  destruct (below_floor m c); [eauto|].
  eexists. split; [reflexivity|]. split; simpl.
  - right. eauto.
  - intros b E. injection E as <-. exact Hi.
Qed.

Lemma feature_step_succeeds (ps : PointSet) (m : option Z) (s : search)
      (i : nat) :
  length (labels ps) = length (features ps) ->
  labels ps <> [] ->
  (i < length (types ps))%nat ->
  leader_typed ps s ->
  exists s', feature_step ps m s i = Ok s' /\ leader_typed ps s'.
Proof.
  intros Hlen Hne Hi Hs. unfold feature_step, index.
  destruct (nth_error (types ps) i) as [ty|] eqn:Ety;
    [|apply nth_error_None in Ety; lia].
  cbn [bind].
  assert (Hcol : length (column i (features ps)) = length (labels ps))
    by (unfold column; rewrite length_map; congruence).
  assert (Hclass : forall f_type values,
             exists s',
               for_each (seq 0 (length values))
                        (class_step ps m f_type i (column i (features ps)) values)
                        s = Ok s' /\ leader_typed ps s').
  { intros f_type values.
    apply (for_each_succeeds (leader_typed ps)); trivial.
    intros t k _ Ht. unfold class_step.
    rewrite count_pass_counts by lia. cbn [bind].
    apply consider_succeeds; trivial. }
  destruct ty; [apply Hclass | apply Hclass |].
  rewrite (fancy_index_in_range (labels ps) false)
    by (rewrite <- Hcol; apply argsort_in_range).
  rewrite (fancy_index_in_range (column i (features ps)) 0%Q)
    by apply argsort_in_range.
  cbn [bind].
  match goal with
  | |- context [for_each ?xs ?body ?st] =>
      destruct (for_each_succeeds (fun t : counts * search => leader_typed ps (snd t))
                                  body xs) with (s := st)
        as (st' & E & Hst')
  end.
  - intros [c t] k _ Ht. unfold real_step. cbn [fst snd] in *.
    destruct (skip_position k _); [eauto|].
    destruct (consider_succeeds ps m REAL i k
                (take (column i (features ps)) 0%Q
                      (argsort (column i (features ps))))
                (move_point k (take (labels ps) false
                                    (argsort (column i (features ps)))) c)
                t Hne Hi Ht) as (t' & Et & Ht').
    rewrite Et. cbn [bind]. eauto.
  - exact Hs.
  - rewrite E. cbn [bind]. eauto.
Qed.

Lemma well_formed_ncols (ps : PointSet) :
  well_formed ps -> features ps <> [] ->
  ncols (features ps) = length (types ps) /\ labels ps <> [].
Proof.
  intros [Hlen Hrows] Hne. destruct (features ps) as [|row rows]; [congruence|].
  split.
  - inversion Hrows; assumption.
  - destruct (labels ps); [discriminate | discriminate].
Qed.

Lemma search_start_typed (ps : PointSet) : leader_typed ps search_start.
Proof. split; [left; reflexivity|]. intros b E. discriminate E. Qed.

Lemma get_best_gain_succeeds (ps : PointSet) (m : option Z) :
  well_formed ps ->
  exists r ps',
    get_best_gain ps m = Ok (r, ps') /\
    same_data ps ps' /\
    ((r = (None, None) /\ ps' = ps) \/
     (exists i g,
         r = (Some i, Some g) /\ (i < length (types ps))%nat /\
         selected_feature_id ps' = Some i /\
         exists v, get_best_threshold ps' = Ok v)).
Proof.
  intro Hwf.
  assert (Hres : exists r ps', get_best_gain ps m = Ok (r, ps') /\
                   (r = (None, None) \/
                    exists i g, r = (Some i, Some g)
                                /\ (i < length (types ps))%nat)).
  { unfold get_best_gain.
    destruct (length (features ps) =? 0)%nat eqn:E0; [eauto 6|].
    apply Nat.eqb_neq in E0.
    assert (Hne : features ps <> [])
      by (destruct (features ps); simpl in *; congruence).
    destruct (well_formed_ncols ps Hwf Hne) as [Hn Hl].
    destruct (for_each_succeeds (leader_typed ps) (feature_step ps m)
                (seq 0 (ncols (features ps)))) with (s := search_start)
      as (s & E & [Hshape Hs]).
    - intros t i Hi Ht. apply feature_step_succeeds; trivial.
      + apply Hwf.
      + apply in_seq in Hi. lia.
    - apply search_start_typed.
    - rewrite E. cbn [bind].
      destruct Hshape as [Hr|(i & g & Hr)]; rewrite Hr; cbn [fst].
      + eauto 6.
      + assert (Hi : (i < length (types ps))%nat)
          by (apply Hs; rewrite Hr; reflexivity).
        unfold index.
        destruct (nth_error (types ps) i) as [ty|] eqn:Ety;
          [|apply nth_error_None in Ety; lia].
        cbn [bind]. eauto 8. }
  destruct Hres as (r & ps' & H & Hshape). exists r, ps'.
  split; [exact H|].
  pose proof (get_best_gain_same_data ps m r ps' H) as Hd.
  split; [exact Hd|].
  pose proof (get_best_gain_selected ps m r ps' H) as [Hty Hsel].
  destruct Hshape as [->|(i & g & -> & Hi)].
  - left. split; trivial.
    unfold get_best_gain in H.
    destruct (length (features ps) =? 0)%nat; [congruence|].
    bind_inv H. destruct (fst (res a)) as [b|] eqn:Eb; [|congruence].
    bind_inv H. injection H as Hr _. rewrite Hr in Eb. discriminate.
  - right. exists i, g. simpl in Hsel.
    split; [reflexivity|]. split; [exact Hi|]. split; [exact Hsel|].
    unfold get_best_threshold, index. rewrite Hsel, Hty.
    destruct (nth_error (types ps) i) as [[]|] eqn:Ety; cbn [bind]; eauto.
    apply nth_error_None in Ety. lia.
Qed.

(** X7. On a well-formed point set the search does not raise.  It
    leaves the data untouched; either it returns [(None, None)] and the
    point set as it was, or it returns a column index and a gain, stores
    the index, and [get_best_threshold] then succeeds. *)
Theorem get_best_gain_total (ps : PointSet) (m : option Z) :
  well_formed ps ->
  exists r ps',
    get_best_gain ps m = Ok (r, ps') /\
    same_data ps ps' /\
    ((r = (None, None) /\ ps' = ps) \/
     (exists i g,
         r = (Some i, Some g) /\ (i < length (types ps))%nat /\
         selected_feature_id ps' = Some i /\
         exists v, get_best_threshold ps' = Ok v)).
Proof. apply get_best_gain_succeeds. Qed.

Lemma get_best_gain_total_witness :
  let ps := PointSet_init scenario_points [true; true; false; false]
                          [REAL; CLASSES] in
  well_formed ps /\
  exists r ps', get_best_gain ps None = Ok (r, ps') /\ same_data ps ps'.
Proof.
  intro ps.
  assert (Hwf : well_formed ps) by (split; [reflexivity | repeat constructor]).
  split; [exact Hwf|].
  destruct (get_best_gain_total ps None Hwf) as (r & ps' & H & Hd & _).
  exists r, ps'. split; assumption.
Defined.

(** ** What [build_tree] does to a node *)

Lemma build_tree_within_built (budget : nat) (self t' : Tree) :
  (h self >? 0)%Z = true ->
  build_tree_within (Datatypes.S budget) self = Ok t' ->
  built budget self t'.
Proof.
  intros Hh H. simpl in H.
  destruct self as [h0 fid0 thr0 split0 ps0 msp0 cnt0 beta0 l0 r0].
  simpl in *. rewrite Hh in H.
  bind_inv H. destruct a as [r ps].
  destruct (fst r) as [fid|] eqn:Efid.
  - bind_inv H. bind_inv H.
    destruct a; cbn [FeaturesTypes_eqb negb] in H; simpl in H;
      bind_inv H;
      (match type of H with
       | (if ?c then _ else _) = _ => destruct c eqn:Esize
       end;
       [ injection H as <-;
         exact (built_small_side budget
                  (mkTree h0 fid0 thr0 split0 ps0 msp0 cnt0 beta0 l0 r0)
                  r ps fid _ a0 a Ha Efid Ha0 Ha1 Ha2 Esize)
       | bind_inv H; bind_inv H; injection H as <-;
         exact (built_children budget
                  (mkTree h0 fid0 thr0 split0 ps0 msp0 cnt0 beta0 l0 r0)
                  r ps fid _ a0 a a1 a2 Ha Efid Ha0 Ha1 Ha2 Esize Ha3 Ha4) ]).
  - injection H as <-.
    exact (built_no_split budget
             (mkTree h0 fid0 thr0 split0 ps0 msp0 cnt0 beta0 l0 r0)
             r ps Ha Efid).
Qed.

Lemma build_tree_built (self t' : Tree) :
  (0 < h self)%Z ->
  build_tree self = Ok t' ->
  exists budget, built budget self t'.
Proof.
  intros Hh H. unfold build_tree in H.
  destruct (Z.to_nat (h self)) as [|budget] eqn:E; [lia|].
  exists budget. apply build_tree_within_built; trivial.
  apply Z.gtb_lt. lia.
Qed.

Lemma built_fields (budget : nat) (self t' : Tree) :
  built budget self t' ->
  same_data (points self) (points t') /\
  min_split_points t' = min_split_points self /\
  beta t' = beta self /\
  (h t' = h self \/ h t' = 0%Z) /\
  counter t' = 0%nat.
Proof.
  intro Hb.
  destruct Hb as [r ps Hg _
                 |r ps fid ty thr parts Hg _ _ _ _ _
                 |r ps fid ty thr parts l r' Hg _ _ _ _ _ _ _];
    apply get_best_gain_same_data in Hg;
    destruct self as [h0 fid0 thr0 split0 ps0 msp0 cnt0 beta0 l0 r0];
    try destruct ty; simpl in *; auto 10.
Qed.

Lemma build_tree_fields (t t' : Tree) :
  build_tree t = Ok t' ->
  same_data (points t) (points t') /\
  min_split_points t' = min_split_points t /\
  beta t' = beta t /\
  (h t' = h t \/ h t' = 0%Z) /\
  counter t' = 0%nat.
Proof.
  intro H. destruct (Z_lt_le_dec 0 (h t)) as [Hpos|Hlow].
  - destruct (build_tree_built t t' Hpos H) as [budget Hb].
    exact (built_fields budget t t' Hb).
  - rewrite (build_tree_low t Hlow) in H. injection H as <-.
    destruct t; simpl; unfold same_data; auto 10.
Qed.

(** ** What an insertion and a deletion do to the points of a node *)

(** X8. Whether or not it rebuilds, an insertion that returns has
    appended the point and its label to the point set of a node of
    positive height and has left the point set of any other node as it
    was; the feature types, the floor and the rebuild factor are those
    of before, and the height is the one of before or 0. *)
Theorem add_training_point_appends (t t' : Tree) (fs : list Q) (label : bool) :
  add_training_point t fs label = Ok t' ->
  features (points t')
  = (if (h t >? 0)%Z then features (points t) ++ [fs] else features (points t)) /\
  labels (points t')
  = (if (h t >? 0)%Z then labels (points t) ++ [label] else labels (points t)) /\
  types (points t') = types (points t) /\
  min_split_points t' = min_split_points t /\
  beta t' = beta t /\
  (h t' = h t \/ h t' = 0%Z).
Proof.
  intro H. rewrite add_training_point_eq in H. cbv zeta in H.
  assert (Hloc : features (points (add_local t fs label))
                 = (if (h t >? 0)%Z then features (points t) ++ [fs]
                    else features (points t)) /\
                 labels (points (add_local t fs label))
                 = (if (h t >? 0)%Z then labels (points t) ++ [label]
                    else labels (points t)) /\
                 types (points (add_local t fs label)) = types (points t) /\
                 min_split_points (add_local t fs label) = min_split_points t /\
                 beta (add_local t fs label) = beta t /\
                 h (add_local t fs label) = h t).
  { unfold add_local. destruct t as [h0 a b c d e f g l r]; simpl.
    destruct (h0 >? 0)%Z; simpl; auto 10. }
  destruct Hloc as (Hf & Hl & Hty & Hm & Hb & Hh).
  remember (add_local t fs label) as self' eqn:Es.
  destruct (rebuild_due self').
  - bind_inv H. apply build_tree_fields in H
      as ((Ht' & Hf' & Hl') & Hm' & Hb' & Hh' & _).
    rewrite Hf', Hl', Ht', Hm', Hb'.
    destruct self'; simpl in *. rewrite Hf, Hl. intuition congruence.
  - destruct (h self' =? 0)%Z.
    + injection H as <-. intuition congruence.
    + bind_inv H. destruct a.
      * destruct (left t); [|discriminate]. bind_inv H. injection H as <-.
        destruct self'; simpl in *. intuition congruence.
      * destruct (right t); [|discriminate]. bind_inv H. injection H as <-.
        destruct self'; simpl in *. intuition congruence.
Qed.

Lemma add_training_point_appends_witness :
  exists t t',
    patient_scenario_tree = Ok t /\
    add_training_point t [3 # 10; true_cat] true = Ok t' /\
    features (points t') = features (points t) ++ [[3 # 10; true_cat]] /\
    labels (points t') = labels (points t) ++ [true].
Proof.
  do 2 eexists.
  split; [vm_compute; reflexivity|].
  match goal with
  | |- ?A /\ _ => assert (H : A) by (vm_compute; reflexivity)
  end.
  split; [exact H|].
  destruct (add_training_point_appends _ _ _ _ H) as (Hf & Hl & _).
  split; [exact Hf | exact Hl].
Defined.

Lemma all_match_rows (fs : list Q) :
  forall pre rest,
    length rest = length fs ->
    exists b, all_match (length pre) fs (pre ++ rest) = Ok b /\
              (b = true <-> Forall2 Qeq fs rest).
Proof.
  induction fs as [|f fs IH]; intros pre [|x rest] Hlen; simpl in Hlen;
    try lia.
  - exists true. split; [reflexivity|]. split; [constructor | reflexivity].
  - simpl. unfold index. rewrite nth_error_app2, Nat.sub_diag by lia.
    cbn [nth_error bind].
    destruct (Qeq_bool f x) eqn:E.
    + destruct (IH (pre ++ [x]) rest ltac:(lia)) as (b & Hb & Hiff).
      rewrite <- app_assoc, length_app in Hb. cbn [app length] in Hb.
      replace (length pre + 1)%nat with (Datatypes.S (length pre)) in Hb by lia.
      exists b. split; [exact Hb|]. rewrite Hiff. split.
      * intro H. constructor; [apply Qeq_bool_iff; exact E | exact H].
      * intro H. inversion H; assumption.
    + exists false. split; [reflexivity|]. split; [discriminate|].
      intro H. inversion H as [|? ? ? ? Hfx _]; subst.
      apply Qeq_bool_iff in Hfx. congruence.
Qed.

Lemma first_match_rows (fs : list Q) (pts : list (list Q)) :
  Forall (fun p => length p = length fs) pts ->
  forall i,
    (first_match i pts fs = Ok [] /\
     Forall (fun p => ~ Forall2 Qeq fs p) pts) \/
    (exists pre p post,
        pts = pre ++ p :: post /\
        first_match i pts fs = Ok [(i + length pre)%nat] /\
        Forall2 Qeq fs p /\
        Forall (fun q => ~ Forall2 Qeq fs q) pre).
Proof.
  induction 1 as [|p pts Hp Hpts IH]; intro i; simpl.
  - left. split; [reflexivity | constructor].
  - destruct (all_match_rows fs [] p Hp) as (b & Hb & Hiff).
    simpl in Hb. rewrite Hb. cbn [bind]. destruct b.
    + right. exists [], p, pts. simpl. rewrite Nat.add_0_r.
      split; [reflexivity|]. split; [reflexivity|].
      split; [apply Hiff; reflexivity | constructor].
    + assert (Hno : ~ Forall2 Qeq fs p)
        by (intro Hm; apply Hiff in Hm; discriminate).
      destruct (IH (Datatypes.S i))
        as [[E Hall]|(pre & q & post & -> & E & Hq & Hpre)].
      * left. split; [exact E | constructor; assumption].
      * right. exists (p :: pre), q, post. simpl.
        replace (i + Datatypes.S (length pre))%nat
          with (Datatypes.S i + length pre)%nat by lia.
        split; [reflexivity|]. split; [exact E|].
        split; [exact Hq | constructor; assumption].
Qed.

Lemma without_keeps_from {A : Type} (j : nat) (xs : list A) :
  forall a,
    (j < a)%nat ->
    map snd (filter (fun ix => negb (existsb (Nat.eqb (fst ix)) [j]))
                    (combine (seq a (length xs)) xs))
    = xs.
Proof.
  induction xs as [|x xs IH]; intros a Ha; simpl; trivial.
  destruct (Nat.eqb_spec a j); [lia|]. simpl. f_equal. apply IH. lia.
Qed.

Lemma without_at_from {A : Type} (pre : list A) (x : A) (post : list A) :
  forall a,
    map snd (filter (fun ix => negb (existsb (Nat.eqb (fst ix))
                                             [(a + length pre)%nat]))
                    (combine (seq a (length (pre ++ x :: post)))
                             (pre ++ x :: post)))
    = pre ++ post.
Proof.
  induction pre as [|y pre IH]; intro a; simpl.
  - rewrite Nat.add_0_r, Nat.eqb_refl. simpl.
    apply without_keeps_from. lia.
  - destruct (Nat.eqb_spec a (a + Datatypes.S (length pre))); [lia|].
    simpl. f_equal.
    replace (a + Datatypes.S (length pre))%nat
      with (Datatypes.S a + length pre)%nat by lia.
    apply IH.
Qed.

Lemma without_at {A : Type} (pre : list A) (x : A) (post : list A) :
  without [length pre] (pre ++ x :: post) = pre ++ post.
Proof. unfold without. exact (without_at_from pre x post 0). Qed.

Lemma without_none {A : Type} (xs : list A) : without [] xs = xs.
Proof.
  unfold without. simpl.
  replace (filter (fun _ : nat * A => true) (combine (seq 0 (length xs)) xs))
    with (combine (seq 0 (length xs)) xs).
  - apply map_snd_combine. apply length_seq.
  - symmetry. apply forallb_filter_id. apply forallb_forall. reflexivity.
Qed.

Lemma del_local_data (t self' : Tree) (fs : list Q) :
  del_local t fs = Ok self' ->
  exists idx,
    first_match 0 (features (points t)) fs = Ok idx /\
    features (points self')
    = (if (h t >? 0)%Z then without idx (features (points t))
       else features (points t)) /\
    labels (points self')
    = (if (h t >? 0)%Z then without idx (labels (points t))
       else labels (points t)) /\
    types (points self') = types (points t).
Proof.
  unfold del_local. intro H. bind_inv H. exists a.
  destruct t as [h0 b c d e f g i l r]; simpl in *. split; trivial.
  destruct (h0 >? 0)%Z; injection H as <-; simpl; auto.
Qed.

Lemma del_training_point_points (t t' : Tree) (fs : list Q) (label : bool) :
  del_training_point t fs label = Ok t' ->
  exists self', del_local t fs = Ok self' /\
                same_data (points self') (points t').
Proof.
  intro H. rewrite del_training_point_eq in H. bind_inv H.
  exists a. split; trivial.
  destruct (rebuild_due a).
  - apply build_tree_fields in H as (Hd & _).
    destruct a; exact Hd.
  - destruct (h a =? 0)%Z.
    + injection H as <-. unfold same_data. auto.
    + bind_inv H. destruct a0.
      * destruct (left t); [|discriminate]. bind_inv H. injection H as <-.
        destruct a; unfold same_data; simpl; auto.
      * destruct (right t); [|discriminate]. bind_inv H. injection H as <-.
        destruct a; unfold same_data; simpl; auto.
Qed.

(** X9. On a node of positive height whose points are as wide as the
    given one, a deletion that returns has either found no stored point
    equal to it, feature by feature, and left the data as they were, or
    removed the first such point together with the label stored at the
    same position, whatever that label is, and kept the others in
    order. *)
Theorem del_training_point_removes_first (t t' : Tree) (fs : list Q)
        (label : bool) :
  (0 < h t)%Z ->
  well_formed (points t) ->
  length fs = length (types (points t)) ->
  del_training_point t fs label = Ok t' ->
  (Forall (fun p => ~ Forall2 Qeq fs p) (features (points t)) /\
   features (points t') = features (points t) /\
   labels (points t') = labels (points t))
  \/
  (exists pre p post lpre l lpost,
      features (points t) = pre ++ p :: post /\
      labels (points t) = lpre ++ l :: lpost /\
      length lpre = length pre /\
      Forall2 Qeq fs p /\
      Forall (fun q => ~ Forall2 Qeq fs q) pre /\
      features (points t') = pre ++ post /\
      labels (points t') = lpre ++ lpost).
Proof.
  intros Hh [Hlen Hrows] Hfs H.
  destruct (del_training_point_points t t' fs label H)
    as (self' & Hloc & _ & Hf' & Hl').
  destruct (del_local_data t self' fs Hloc) as (idx & Hidx & Hf & Hl & _).
  rewrite Hf' , Hl', Hf, Hl.
  replace (h t >? 0)%Z with true by (symmetry; apply Z.gtb_lt; lia).
  assert (Hw : Forall (fun p => length p = length fs) (features (points t))).
  { eapply Forall_impl; [|exact Hrows]. simpl. intros p Hp. congruence. }
  destruct (first_match_rows fs _ Hw 0)
    as [[E Hall]|(pre & p & post & Epts & E & Hp & Hpre)];
    rewrite E in Hidx; injection Hidx as <-.
  - left. rewrite !without_none. auto.
  - right. simpl.
    assert (Hsplit : exists lpre l lpost,
               labels (points t) = lpre ++ l :: lpost /\
               length lpre = length pre).
    { exists (firstn (length pre) (labels (points t))).
      assert (Hlt : (length pre < length (labels (points t)))%nat).
      { rewrite Hlen, Epts, length_app. simpl. lia. }
      destruct (skipn (length pre) (labels (points t))) as [|l lpost] eqn:Es.
      - apply (f_equal (@length bool)) in Es. rewrite length_skipn in Es.
        simpl in Es. lia.
      - exists l, lpost. split.
        + rewrite <- Es. symmetry. apply firstn_skipn.
        + rewrite length_firstn. lia. }
    destruct Hsplit as (lpre & l & lpost & El & Hlpre).
    exists pre, p, post, lpre, l, lpost.
    split; [exact Epts|]. split; [exact El|]. split; [exact Hlpre|].
    split; [exact Hp|]. split; [exact Hpre|]. split.
    + rewrite Epts. apply without_at.
    + rewrite El, <- Hlpre. apply without_at.
Qed.

Lemma del_training_point_removes_first_witness :
  exists t t',
    patient_scenario_tree = Ok t /\
    (0 < h t)%Z /\
    well_formed (points t) /\
    length [2 # 10; true_cat] = length (types (points t)) /\
    del_training_point t [2 # 10; true_cat] false = Ok t' /\
    ((Forall (fun p => ~ Forall2 Qeq [2 # 10; true_cat] p) (features (points t)) /\
      features (points t') = features (points t) /\
      labels (points t') = labels (points t))
     \/
     (exists pre p post lpre l lpost,
         features (points t) = pre ++ p :: post /\
         labels (points t) = lpre ++ l :: lpost /\
         length lpre = length pre /\
         Forall2 Qeq [2 # 10; true_cat] p /\
         Forall (fun q => ~ Forall2 Qeq [2 # 10; true_cat] q) pre /\
         features (points t') = pre ++ post /\
         labels (points t') = lpre ++ lpost)).
Proof.
  do 2 eexists.
  split; [vm_compute; reflexivity|].
  match goal with
  | |- ?A /\ ?B /\ ?C /\ ?D /\ _ =>
      assert (H1 : A) by reflexivity;
      assert (H2 : B) by (split; [reflexivity | repeat constructor]);
      assert (H3 : C) by reflexivity;
      assert (H4 : D) by (vm_compute; reflexivity)
  end.
  repeat (split; [assumption|]).
  exact (del_training_point_removes_first _ _ _ _ H1 H2 H3 H4).
Defined.

(** ** Well-formed use never raises *)

Lemma sound_eq (t : Tree) :
  sound t
  = (well_formed (points t) /\
     (h t = 0%Z \/
      ((0 < h t)%Z /\
       (exists fid, feature_id t = Some fid /\
                    (fid < length (types (points t)))%nat) /\
       (feature_split t = None -> feature_threshold t <> None) /\
       match left t, right t with
       | Some l, Some r =>
           types (points l) = types (points t) /\
           types (points r) = types (points t) /\
           (h l < h t)%Z /\ (h r < h t)%Z /\
           sound l /\ sound r
       | _, _ => False
       end))).
Proof. destruct t; reflexivity. Qed.

Lemma sound_leaf (t : Tree) :
  well_formed (points t) -> h t = 0%Z -> sound t.
Proof. intros Hwf Hh. rewrite sound_eq. auto. Qed.

Lemma well_formed_same_data (ps ps' : PointSet) :
  same_data ps ps' -> well_formed ps -> well_formed ps'.
Proof.
  intros (Ht & Hf & Hl) [Hlen Hrows]. unfold well_formed.
  rewrite Ht, Hf, Hl. auto.
Qed.

Lemma built_build (budget : nat) (self t' : Tree) :
  (h self >? 0)%Z = true ->
  built budget self t' ->
  build_tree_within (Datatypes.S budget) self = Ok t'.
Proof.
  intros Hh Hb.
  destruct Hb as [r ps Hg Hfid
                 |r ps fid ty thr parts Hg Hfid Hty Hthr Hparts Hsize
                 |r ps fid ty thr parts l r' Hg Hfid Hty Hthr Hparts Hsize Hl Hr];
    destruct self as [h0 fid0 thr0 split0 ps0 msp0 cnt0 beta0 l0 r0];
    unfold partition_of, split_of, side_too_small, install_split in *;
    simpl in *; rewrite Hh, Hg; cbn [bind]; rewrite Hfid.
  - reflexivity.
  - simpl. rewrite Hty. cbn [bind]. rewrite Hthr. cbn [bind].
    destruct ty; simpl in *; rewrite Hparts; cbn [bind]; rewrite Hsize;
      reflexivity.
  - simpl. rewrite Hty. cbn [bind]. rewrite Hthr. cbn [bind].
    destruct ty; simpl in *; rewrite Hparts; cbn [bind]; rewrite Hsize;
      rewrite Hl; cbn [bind]; rewrite Hr; reflexivity.
Qed.

Lemma skipn_nth_error {A : Type} (l : list A) :
  forall k x, nth_error l k = Some x ->
              skipn k l = x :: skipn (Datatypes.S k) l.
Proof.
  induction l as [|y l IH]; intros [|k] x H; simpl in *; try discriminate.
  - congruence.
  - apply IH. exact H.
Qed.

Lemma partition_loop_sides (ps : PointSet) (fid : nat) (f_type : FeaturesTypes)
      (thr : option Q) (split : list Q * list Q) :
  well_formed ps ->
  (fid < length (types ps))%nat ->
  (f_type = REAL -> thr <> None) ->
  forall n k acc,
    (k + n = length (features ps))%nat ->
    for_each (seq k n)
             (partition_step ps fid (FeaturesTypes_eqb f_type REAL) thr split)
             acc
    = Ok (let rest := sides (routes_left fid f_type thr split)
                            (skipn k (combine (features ps) (labels ps))) in
          mkPartition (left_features acc ++ left_features rest)
                      (left_labels acc ++ left_labels rest)
                      (right_features acc ++ right_features rest)
                      (right_labels acc ++ right_labels rest)).
Proof.
  intros [Hlen Hrows] Hfid Hthr.
  induction n as [|n IH]; intros k acc Hk.
  - simpl. rewrite skipn_all2 by (rewrite length_combine; lia).
    simpl. rewrite !app_nil_r. destruct acc; reflexivity.
  - cbn [seq for_each]. unfold partition_step at 1. unfold index.
    destruct (nth_error (features ps) k) as [point|] eqn:Ep;
      [|apply nth_error_None in Ep; lia].
    destruct (nth_error (labels ps) k) as [label|] eqn:El;
      [|apply nth_error_None in El; lia].
    cbn [bind].
    assert (Hw : length point = length (types ps)).
    { rewrite Forall_forall in Hrows. apply Hrows.
      eapply nth_error_In. exact Ep. }
    destruct (nth_error point fid) as [x|] eqn:Ex;
      [|apply nth_error_None in Ex; lia].
    cbn [bind].
    assert (Hgo : (if FeaturesTypes_eqb f_type REAL
                   then t <- number thr ;; Ok (Qlt_bool x t)
                   else Ok (member x (fst split)))
                  = Ok (routes_left fid f_type thr split point)).
    { unfold routes_left. rewrite (nth_error_nth _ _ 0%Q Ex).
      destruct f_type; simpl; trivial.
      destruct thr as [t|]; [reflexivity|]. exfalso. apply Hthr; reflexivity. }
    rewrite Hgo. cbn [bind].
    assert (Hskip : skipn k (combine (features ps) (labels ps))
                    = (point, label)
                        :: skipn (Datatypes.S k) (combine (features ps) (labels ps))).
    { assert (Hnth : nth_error (combine (features ps) (labels ps)) k
                     = Some (point, label)).
      { clear - Ep El. revert k Ep El.
        generalize (labels ps) as ls. generalize (features ps) as fs.
        induction fs as [|f fs IHf]; intros [|l ls] [|k] Ep El;
          simpl in *; try discriminate; [congruence | auto]. }
      apply skipn_nth_error. exact Hnth. }
    rewrite Hskip. unfold sides. cbn [filter fst snd].
    destruct (routes_left fid f_type thr split point);
      cbn [negb map fst snd bind]; rewrite (IH (Datatypes.S k)) by lia;
      unfold sides; cbn [left_features left_labels right_features right_labels];
      rewrite <- !app_assoc; reflexivity.
Qed.

Lemma partition_of_sides (ps : PointSet) (fid : nat) (f_type : FeaturesTypes)
      (thr : option Q) :
  well_formed ps ->
  (fid < length (types ps))%nat ->
  (f_type = REAL -> thr <> None) ->
  partition_of ps fid f_type thr
  = Ok (sides (routes_left fid f_type thr (split_of ps fid thr))
              (combine (features ps) (labels ps))).
Proof.
  intros Hwf Hfid Hthr. unfold partition_of.
  rewrite (partition_loop_sides ps fid f_type thr _ Hwf Hfid Hthr
             (length (features ps)) 0 (mkPartition [] [] [] []) eq_refl).
  reflexivity.
Qed.

Lemma sides_well_formed (ps : PointSet) (go : list Q -> bool) :
  well_formed ps ->
  let parts := sides go (combine (features ps) (labels ps)) in
  well_formed (PointSet_init (left_features parts) (left_labels parts) (types ps))
  /\ well_formed (PointSet_init (right_features parts) (right_labels parts)
                                (types ps)).
Proof.
  intros [Hlen Hrows]. unfold sides, well_formed. simpl.
  assert (Hin : forall (p : list Q * bool -> bool) row,
             In row (map fst (filter p (combine (features ps) (labels ps)))) ->
             length row = length (types ps)).
  { intros p row Hrow. apply in_map_iff in Hrow as ([r l] & <- & Hf).
    apply filter_In in Hf as [Hc _]. apply in_combine_l in Hc.
    rewrite Forall_forall in Hrows. apply Hrows. exact Hc. }
  repeat split; try (rewrite !length_map; reflexivity);
    apply Forall_forall; intros row Hrow; eapply Hin; exact Hrow.
Qed.

Lemma build_tree_within_low (budget : nat) (t : Tree) :
  (h t <= 0)%Z -> build_tree_within budget t = Ok (with_counter t 0).
Proof.
  intro Hh. destruct t as [h0 a b c d e f g l r]; simpl in *.
  destruct budget; simpl; rewrite (Zgtb_low h0 Hh); reflexivity.
Qed.

Lemma winner_threshold (ps ps' : PointSet) (m : option Z) (fid : nat)
      (g : option Q) (thr : option Q) :
  get_best_gain ps m = Ok ((Some fid, g), ps') ->
  nth_error (types ps) fid = Some REAL ->
  get_best_threshold ps' = Ok thr ->
  thr <> None.
Proof.
  intros H Hty Hthr.
  destruct (get_best_gain_cut ps m fid g ps' H Hty) as (k & _ & _ & Hk).
  destruct (get_best_gain_selected ps m _ ps' H) as [Hts Hsel]. simpl in Hsel.
  unfold get_best_threshold, index in Hthr. rewrite Hsel, Hts, Hty in Hthr.
  simpl in Hthr. injection Hthr as <-. rewrite Hk. discriminate.
Qed.

Lemma build_tree_within_sound (budget : nat) :
  forall t,
    (Z.to_nat (h t) <= budget)%nat ->
    well_formed (points t) ->
    (0 <= h t)%Z ->
    exists t',
      build_tree_within budget t = Ok t' /\
      sound t' /\
      types (points t') = types (points t) /\
      (h t' = h t \/ h t' = 0%Z).
Proof.
  induction budget as [|budget IH]; intros t Hb Hwf Hh.
  { exists (with_counter t 0). rewrite build_tree_within_low by lia.
    split; [reflexivity|]. split; [|destruct t; simpl; auto].
    apply sound_leaf; destruct t; simpl in *; [exact Hwf | lia]. }
  destruct (Z.eq_dec (h t) 0) as [Hz|Hnz].
  { exists (with_counter t 0). rewrite build_tree_within_low by lia.
    split; [reflexivity|]. split; [|destruct t; simpl; auto].
    apply sound_leaf; destruct t; simpl in *; [exact Hwf | lia]. }
  assert (Hpos : (h t >? 0)%Z = true) by (apply Z.gtb_lt; lia).
  assert (Hchild : forall fs ls,
             well_formed (PointSet_init fs ls (types (points t))) ->
             exists c,
               Tree_init_with (build_tree_within budget) fs ls (types (points t))
                              (h t - 1) (min_split_points t) (beta t) = Ok c /\
               sound c /\
               types (points c) = types (points t) /\
               (h c < h t)%Z).
  { intros fs ls Hc. unfold Tree_init_with.
    destruct (h t - 1 >? 0)%Z eqn:E.
    - destruct (IH (mkTree (h t - 1) None None None
                           (PointSet_init fs ls (types (points t)))
                           (min_split_points t) 0 (beta t) None None))
        as (c & Ec & Hs & Hty & Hhc); simpl; try lia; trivial.
      exists c. simpl in Hty, Hhc. repeat split; trivial. lia.
    - rewrite Z.gtb_ltb in E. apply Z.ltb_ge in E.
      eexists. split; [reflexivity|].
      split; [apply sound_leaf; simpl; [exact Hc | lia]|].
      split; [reflexivity | simpl; lia]. }
  destruct (get_best_gain_succeeds (points t) (Some (min_split_points t)) Hwf)
    as (r & ps & Hg & Hd & Hshape).
  pose proof (well_formed_same_data _ _ Hd Hwf) as Hwf'.
  pose proof Hd as (Hts & Hfs & Hls).
  destruct Hshape as [[-> ->]|(fid & g & -> & Hfid & Hsel & thr & Hthr)].
  { eexists. split.
    - apply built_build; trivial.
      exact (built_no_split budget t _ _ Hg eq_refl).
    - split; [|destruct t; simpl; auto].
      apply sound_leaf; destruct t; simpl in *; trivial. }
  assert (Hty : exists ty, nth_error (types (points t)) fid = Some ty).
  { destruct (nth_error (types (points t)) fid) eqn:E; [eauto|].
    apply nth_error_None in E. lia. }
  destruct Hty as (ty & Hty).
  assert (Hidx : index (types ps) fid = Ok ty)
    by (unfold index; rewrite Hts, Hty; reflexivity).
  assert (Hreal : ty = REAL -> thr <> None).
  { intros ->. exact (winner_threshold _ _ _ _ _ _ Hg Hty Hthr). }
  assert (Hfid' : (fid < length (types ps))%nat) by (rewrite Hts; exact Hfid).
  pose proof (partition_of_sides ps fid ty thr Hwf' Hfid' Hreal) as Hparts.
  set (parts := sides (routes_left fid ty thr (split_of ps fid thr))
                      (combine (features ps) (labels ps))) in *.
  destruct (sides_well_formed ps (routes_left fid ty thr (split_of ps fid thr))
                              Hwf') as [Hwl Hwr].
  fold parts in Hwl, Hwr. rewrite Hts in Hwl, Hwr.
  destruct (side_too_small t parts) eqn:Esize.
  { eexists. split.
    - apply built_build; trivial.
      exact (built_small_side budget t _ _ fid ty thr parts Hg eq_refl
                              Hidx Hthr Hparts Esize).
    - split; [|destruct t, ty; simpl; auto].
      apply sound_leaf; destruct t, ty; simpl in *; trivial. }
  destruct (Hchild _ _ Hwl) as (l & El & Hsl & Htl & Hhl).
  destruct (Hchild _ _ Hwr) as (r' & Er & Hsr & Htr & Hhr).
  rewrite <- Hts in El, Er.
  eexists. split.
  - apply built_build; trivial.
    exact (built_children budget t _ _ fid ty thr parts l r' Hg eq_refl
                          Hidx Hthr Hparts Esize El Er).
  - split; [|destruct t, ty; simpl in *; auto].
    rewrite sound_eq.
    destruct t as [h0 fid0 thr0 split0 ps0 msp0 cnt0 beta0 l0 r0].
    simpl in *.
    destruct ty; simpl; (split; [exact Hwf'|]); right;
      (split; [lia|]); (split; [exists fid; split; [reflexivity|lia]|]);
      (split; [|rewrite Hts; auto 10]).
    + discriminate.
    + discriminate.
    + intros _. apply Hreal. reflexivity.
Qed.

Lemma sound_node (t l r : Tree) (fid : nat) :
  well_formed (points t) ->
  (0 < h t)%Z ->
  feature_id t = Some fid ->
  (fid < length (types (points t)))%nat ->
  (feature_split t = None -> feature_threshold t <> None) ->
  left t = Some l -> right t = Some r ->
  types (points l) = types (points t) ->
  types (points r) = types (points t) ->
  (h l < h t)%Z -> (h r < h t)%Z ->
  sound l -> sound r ->
  sound t.
Proof.
  intros Hwf Hh Hfid Hlt Hthr Hl Hr Htl Htr Hhl Hhr Hsl Hsr.
  rewrite sound_eq. split; [exact Hwf|]. right.
  split; [exact Hh|]. split; [eauto|]. split; [exact Hthr|].
  rewrite Hl, Hr. auto 10.
Qed.

Lemma sound_inv (t : Tree) :
  sound t ->
  well_formed (points t) /\ (0 <= h t)%Z /\
  (h t <> 0%Z ->
   exists fid l r,
     feature_id t = Some fid /\
     (fid < length (types (points t)))%nat /\
     (feature_split t = None -> feature_threshold t <> None) /\
     left t = Some l /\ right t = Some r /\
     types (points l) = types (points t) /\
     types (points r) = types (points t) /\
     (h l < h t)%Z /\ (h r < h t)%Z /\
     sound l /\ sound r).
Proof.
  rewrite sound_eq. intros [Hwf [Hz|(Hh & (fid & Hfid & Hlt) & Hthr & Hc)]].
  - split; [exact Hwf|]. split; [lia|]. intro Hnz. contradiction.
  - split; [exact Hwf|]. split; [lia|]. intros _.
    destruct (left t) as [l|]; [|contradiction].
    destruct (right t) as [r|]; [|contradiction].
    exists fid, l, r. intuition.
Qed.

Lemma goes_left_succeeds (t : Tree) (fid : nat) (q : list Q) :
  feature_id t = Some fid ->
  (fid < length q)%nat ->
  (feature_split t = None -> feature_threshold t <> None) ->
  exists b, goes_left t q = Ok b.
Proof.
  intros Hfid Hlt Hthr. unfold goes_left. rewrite Hfid. cbn [number bind].
  unfold index. destruct (nth_error q fid) as [x|] eqn:Ex;
    [|apply nth_error_None in Ex; lia].
  cbn [bind]. destruct (feature_split t) as [sp|]; [eauto|].
  destruct (feature_threshold t) as [thr|]; [simpl; eauto|].
  exfalso. apply Hthr; reflexivity.
Qed.

Lemma decide_succeeds (q : list Q) :
  forall t,
    sound t ->
    (length (types (points t)) <= length q)%nat ->
    exists b, decide t q = Ok b.
Proof.
  induction t as [t IHl IHr] using Tree_induction. intros Hs Hq.
  destruct (sound_inv t Hs) as (_ & _ & Hnode).
  assert (E : decide t q
              = if (h t =? 0)%Z then Ok (leaf_decision (points t))
                else to_left <- goes_left t q ;;
                     if to_left
                     then match left t with
                          | Some l => decide l q
                          | None => Raise AttributeError
                          end
                     else match right t with
                          | Some r => decide r q
                          | None => Raise AttributeError
                          end)
    by (destruct t; reflexivity).
  rewrite E. destruct (h t =? 0)%Z eqn:Ez; [eauto|].
  apply Z.eqb_neq in Ez.
  destruct (Hnode Ez)
    as (fid & l & r & Hfid & Hlt & Hthr & Hl & Hr & Htl & Htr & _ & _ & Hsl & Hsr).
  destruct (goes_left_succeeds t fid q Hfid ltac:(lia) Hthr) as [b Hb].
  rewrite Hb, Hl, Hr. cbn [bind]. destruct b.
  - apply (IHl l Hl Hsl). rewrite Htl. exact Hq.
  - apply (IHr r Hr Hsr). rewrite Htr. exact Hq.
Qed.

Lemma Tree_init_succeeds (fs : list (list Q)) (ls : list bool)
        (ts : list FeaturesTypes) (h0 msp : Z) (b : Q) :
  well_formed (PointSet_init fs ls ts) ->
  (0 <= h0)%Z ->
  exists t,
    Tree_init fs ls ts h0 msp b = Ok t /\
    sound t /\
    same_data (PointSet_init fs ls ts) (points t) /\
    (h t = h0 \/ h t = 0%Z).
Proof.
  intros Hwf Hh. unfold Tree_init, Tree_init_with.
  destruct (h0 >? 0)%Z eqn:E.
  - set (self := mkTree h0 None None None (PointSet_init fs ls ts) msp 0 b
                        None None).
    destruct (build_tree_within_sound (Z.to_nat (h self)) self
                ltac:(lia) Hwf Hh) as (t & Et & Hs & _ & Hht).
    exists t. split; [exact Et|]. split; [exact Hs|].
    split; [|exact Hht].
    apply (build_tree_fields self t Et).
  - rewrite Z.gtb_ltb in E. apply Z.ltb_ge in E.
    eexists. split; [reflexivity|].
    split; [apply sound_leaf; simpl; [exact Hwf | lia]|].
    split; [unfold same_data; auto | left; reflexivity].
Qed.


Lemma all_matches_succeeds (fs : list Q) (pts : list (list Q)) :
  Forall (fun p => length p = length fs) pts ->
  forall i, exists idx, all_matches i pts fs = Ok idx.
Proof.
  induction 1 as [|p pts Hp Hpts IH]; intro i; simpl; [eauto|].
  destruct (all_match_rows fs [] p Hp) as (b & Hb & _).
  simpl in Hb. rewrite Hb. cbn [bind].
  destruct (IH (Datatypes.S i)) as [idx Hidx]. rewrite Hidx. cbn [bind].
  eauto.
Qed.

Lemma add_local_types (t : Tree) (fs : list Q) (label : bool) :
  types (points (add_local t fs label)) = types (points t).
Proof.
  unfold add_local. destruct t as [h0 a b c d e f g l r]. simpl.
  destruct (h0 >? 0)%Z; reflexivity.
Qed.

Lemma add_local_well_formed (t : Tree) (fs : list Q) (label : bool) :
  well_formed (points t) ->
  length fs = length (types (points t)) ->
  well_formed (points (add_local t fs label)).
Proof.
  intros [Hl Hrows] Hfs. unfold add_local.
  destruct t as [h0 a b c d e f g l r]. simpl in *.
  destruct (h0 >? 0)%Z; simpl; [|split; assumption].
  split; simpl.
  - rewrite !length_app. simpl. lia.
  - apply Forall_app. split; [exact Hrows | constructor; [exact Hfs | constructor]].
Qed.

Lemma with_counter_fields (t : Tree) (c : nat) :
  h (with_counter t c) = h t /\ points (with_counter t c) = points t.
Proof. destruct t; split; reflexivity. Qed.

Lemma with_left_sound (s l r l' : Tree) (fid : nat) :
  well_formed (points s) ->
  (0 < h s)%Z ->
  feature_id s = Some fid ->
  (fid < length (types (points s)))%nat ->
  (feature_split s = None -> feature_threshold s <> None) ->
  right s = Some r ->
  types (points l') = types (points s) ->
  types (points r) = types (points s) ->
  (h l' < h s)%Z -> (h r < h s)%Z ->
  sound l' -> sound r ->
  sound (with_left s (Some l')) /\
  types (points (with_left s (Some l'))) = types (points s) /\
  h (with_left s (Some l')) = h s.
Proof.
  intros. split; [|destruct s; split; reflexivity].
  apply (sound_node _ l' r fid); destruct s; simpl in *; trivial.
Qed.

Lemma with_right_sound (s l r r' : Tree) (fid : nat) :
  well_formed (points s) ->
  (0 < h s)%Z ->
  feature_id s = Some fid ->
  (fid < length (types (points s)))%nat ->
  (feature_split s = None -> feature_threshold s <> None) ->
  left s = Some l ->
  types (points l) = types (points s) ->
  types (points r') = types (points s) ->
  (h l < h s)%Z -> (h r' < h s)%Z ->
  sound l -> sound r' ->
  sound (with_right s (Some r')) /\
  types (points (with_right s (Some r'))) = types (points s) /\
  h (with_right s (Some r')) = h s.
Proof.
  intros. split; [|destruct s; split; reflexivity].
  apply (sound_node _ l r' fid); destruct s; simpl in *; trivial.
Qed.

Lemma rebuild_sound (s : Tree) :
  well_formed (points s) ->
  (0 <= h s)%Z ->
  exists t',
    build_tree (with_counter s 0) = Ok t' /\ sound t' /\
    types (points t') = types (points s) /\
    (h t' = h s \/ h t' = 0%Z).
Proof.
  intros Hwf Hh. destruct (with_counter_fields s 0) as [Eh Ep].
  unfold build_tree.
  destruct (build_tree_within_sound (Z.to_nat (h (with_counter s 0)))
              (with_counter s 0) ltac:(lia)
              ltac:(rewrite Ep; exact Hwf) ltac:(rewrite Eh; exact Hh))
    as (t' & Et & Hs & Hty & Hht).
  exists t'. rewrite Ep, Eh in *. auto.
Qed.

Lemma add_training_point_succeeds (fs : list Q) (label : bool) :
  forall t,
    sound t ->
    length fs = length (types (points t)) ->
    exists t',
      add_training_point t fs label = Ok t' /\
      sound t' /\
      types (points t') = types (points t) /\
      (h t' = h t \/ h t' = 0%Z).
Proof.
  induction t as [t IHl IHr] using Tree_induction. intros Hs Hfs.
  destruct (sound_inv t Hs) as (Hwf & Hh & Hnode).
  rewrite add_training_point_eq. cbv zeta.
  destruct (add_local_fields t fs label)
    as (Eh & _ & _ & El & Er & Efid & Ethr & Esp).
  pose proof (add_local_types t fs label) as Ety.
  pose proof (add_local_well_formed t fs label Hwf Hfs) as Hwf'.
  set (s := add_local t fs label) in *. clearbody s.
  destruct (rebuild_due s).
  - destruct (with_counter_fields s 0) as [_ Ep]. rewrite Ep.
    destruct (all_matches_succeeds fs (features (points s))
                ltac:(rewrite Hfs, <- Ety; apply Hwf') 0%nat) as [idx Hidx].
    rewrite Hidx. cbn [bind].
    destruct (rebuild_sound s Hwf' ltac:(lia)) as (t' & Et & Hst & Hty & Hht).
    exists t'. rewrite <- Ety, <- Eh. auto.
  - destruct (h s =? 0)%Z eqn:Ez.
    + apply Z.eqb_eq in Ez. exists s. split; [reflexivity|].
      split; [apply sound_leaf; assumption|]. auto.
    + apply Z.eqb_neq in Ez.
      destruct (Hnode ltac:(lia))
        as (fid & l & r & Hfid & Hlt & Hthr & Hl & Hr & Htl & Htr & Hhl & Hhr
            & Hsl & Hsr).
      destruct (goes_left_succeeds s fid fs
                  ltac:(rewrite Efid; exact Hfid) ltac:(lia)
                  ltac:(rewrite Esp, Ethr; exact Hthr)) as [b Hb].
      rewrite Hb, Hl, Hr. cbn [bind]. destruct b.
      * destruct (IHl l Hl Hsl ltac:(congruence))
          as (l' & El' & Hsl' & Htl' & Hhl').
        rewrite El'. cbn [bind]. eexists. split; [reflexivity|].
        destruct (with_left_sound s l r l' fid Hwf' ltac:(lia)
                    ltac:(congruence) ltac:(rewrite Ety; exact Hlt)
                    ltac:(rewrite Esp, Ethr; exact Hthr)
                    ltac:(congruence) ltac:(congruence) ltac:(congruence)
                    ltac:(lia) ltac:(lia) Hsl' Hsr) as (A & B & C).
        rewrite B, C. auto.
      * destruct (IHr r Hr Hsr ltac:(congruence))
          as (r' & Er' & Hsr' & Htr' & Hhr').
        rewrite Er'. cbn [bind]. eexists. split; [reflexivity|].
        destruct (with_right_sound s l r r' fid Hwf' ltac:(lia)
                    ltac:(congruence) ltac:(rewrite Ety; exact Hlt)
                    ltac:(rewrite Esp, Ethr; exact Hthr)
                    ltac:(congruence) ltac:(congruence) ltac:(congruence)
                    ltac:(lia) ltac:(lia) Hsl Hsr') as (A & B & C).
        rewrite B, C. auto.
Qed.

Lemma without_length_from {A B : Type} (idx : list nat) (xs : list A) :
  forall (ys : list B) a,
    length xs = length ys ->
    length (filter (fun ix => negb (existsb (Nat.eqb (fst ix)) idx))
                   (combine (seq a (length xs)) xs))
    = length (filter (fun ix => negb (existsb (Nat.eqb (fst ix)) idx))
                     (combine (seq a (length ys)) ys)).
Proof.
  induction xs as [|x xs IH]; intros [|y ys] a Hlen; simpl in Hlen;
    try lia; trivial.
  simpl. destruct (existsb (Nat.eqb a) idx); simpl;
    rewrite (IH ys (Datatypes.S a)) by lia; reflexivity.
Qed.

Lemma without_length {A B : Type} (idx : list nat) (xs : list A)
      (ys : list B) :
  length xs = length ys ->
  length (without idx xs) = length (without idx ys).
Proof.
  intro Hlen. unfold without. rewrite !length_map.
  apply without_length_from. exact Hlen.
Qed.

Lemma without_Forall {A : Type} (P : A -> Prop) (idx : list nat)
      (xs : list A) :
  Forall P xs -> Forall P (without idx xs).
Proof.
  intro H. unfold without. generalize 0%nat.
  induction H as [|x xs Hx Hxs IH]; intro a; simpl; [constructor|].
  destruct (existsb (Nat.eqb a) idx); simpl; [apply IH|].
  constructor; [exact Hx | apply IH].
Qed.

Lemma del_local_succeeds (t : Tree) (fs : list Q) :
  well_formed (points t) ->
  length fs = length (types (points t)) ->
  exists s, del_local t fs = Ok s /\
            well_formed (points s) /\
            types (points s) = types (points t).
Proof.
  intros [Hl Hrows] Hfs. unfold del_local.
  destruct t as [h0 a b c d e f g l r]. simpl in *.
  assert (Hw : Forall (fun p => length p = length fs) (features d))
    by (rewrite Hfs; exact Hrows).
  assert (exists idx, first_match 0 (features d) fs = Ok idx) as [idx Hidx].
  { destruct (first_match_rows fs (features d) Hw 0%nat)
      as [[E _]|(pre & p & post & _ & E & _)]; eauto. }
  rewrite Hidx. cbn [bind].
  destruct (h0 >? 0)%Z; eexists; (split; [reflexivity|]); simpl;
    (split; [|reflexivity]).
  - split; simpl.
    + apply without_length. exact Hl.
    + apply without_Forall. exact Hrows.
  - split; assumption.
Qed.

Lemma del_training_point_succeeds (fs : list Q) (label : bool) :
  forall t,
    sound t ->
    length fs = length (types (points t)) ->
    exists t',
      del_training_point t fs label = Ok t' /\
      sound t' /\
      types (points t') = types (points t) /\
      (h t' = h t \/ h t' = 0%Z).
Proof.
  induction t as [t IHl IHr] using Tree_induction. intros Hs Hfs.
  destruct (sound_inv t Hs) as (Hwf & Hh & Hnode).
  rewrite del_training_point_eq.
  destruct (del_local_succeeds t fs Hwf Hfs) as (s & Es & Hwf' & Ety).
  destruct (del_local_fields t s fs Es)
    as (Eh & _ & _ & El & Er & Efid & Ethr & Esp).
  rewrite Es. cbn [bind].
  destruct (rebuild_due s).
  - destruct (rebuild_sound s Hwf' ltac:(lia)) as (t' & Et & Hst & Hty & Hht).
    exists t'. rewrite <- Ety, <- Eh. auto.
  - destruct (h s =? 0)%Z eqn:Ez.
    + apply Z.eqb_eq in Ez. exists s. split; [reflexivity|].
      split; [apply sound_leaf; assumption|]. auto.
    + apply Z.eqb_neq in Ez.
      destruct (Hnode ltac:(lia))
        as (fid & l & r & Hfid & Hlt & Hthr & Hl & Hr & Htl & Htr & Hhl & Hhr
            & Hsl & Hsr).
      destruct (goes_left_succeeds s fid fs
                  ltac:(rewrite Efid; exact Hfid) ltac:(lia)
                  ltac:(rewrite Esp, Ethr; exact Hthr)) as [b Hb].
      rewrite Hb, Hl, Hr. cbn [bind]. destruct b.
      * destruct (IHl l Hl Hsl ltac:(congruence))
          as (l' & El' & Hsl' & Htl' & Hhl').
        rewrite El'. cbn [bind]. eexists. split; [reflexivity|].
        destruct (with_left_sound s l r l' fid Hwf' ltac:(lia)
                    ltac:(congruence) ltac:(rewrite Ety; exact Hlt)
                    ltac:(rewrite Esp, Ethr; exact Hthr)
                    ltac:(congruence) ltac:(congruence) ltac:(congruence)
                    ltac:(lia) ltac:(lia) Hsl' Hsr) as (A & B & C).
        rewrite B, C. auto.
      * destruct (IHr r Hr Hsr ltac:(congruence))
          as (r' & Er' & Hsr' & Htr' & Hhr').
        rewrite Er'. cbn [bind]. eexists. split; [reflexivity|].
        destruct (with_right_sound s l r r' fid Hwf' ltac:(lia)
                    ltac:(congruence) ltac:(rewrite Ety; exact Hlt)
                    ltac:(rewrite Esp, Ethr; exact Hthr)
                    ltac:(congruence) ltac:(congruence) ltac:(congruence)
                    ltac:(lia) ltac:(lia) Hsl Hsr') as (A & B & C).
        rewrite B, C. auto.
Qed.

Lemma patient_scenario_sound :
  exists t, patient_scenario_tree = Ok t /\ sound t /\
            length (types (points t)) = 2%nat.
Proof.
  destruct (Tree_init_succeeds scenario_points [true; true; false; false]
              [REAL; CLASSES] 1 1 10)
    as (t & Et & Hs & (Hty & _) & _).
  - split; [reflexivity | repeat constructor].
  - lia.
  - exists t. split; [exact Et|]. split; [exact Hs|].
    rewrite Hty. reflexivity.
Qed.

(** X10. A sound tree decides every query that has at least as many
    features as the tree has feature types: [decide] does not raise. *)
Theorem decide_total (t : Tree) (q : list Q) :
  sound t ->
  (length (types (points t)) <= length q)%nat ->
  exists b, decide t q = Ok b.
Proof. intros Hs Hq. exact (decide_succeeds q t Hs Hq). Qed.

Lemma decide_total_witness :
  exists t,
    patient_scenario_tree = Ok t /\ sound t /\
    (length (types (points t)) <= length [3 # 10; true_cat])%nat /\
    exists b, decide t [3 # 10; true_cat] = Ok b.
Proof.
  destruct patient_scenario_sound as (t & Et & Hs & Hty).
  assert (Hq : (length (types (points t))
                <= length [3 # 10; true_cat])%nat)
    by (rewrite Hty; simpl; lia).
  exists t. split; [exact Et|]. split; [exact Hs|]. split; [exact Hq|].
  exact (decide_total t [3 # 10; true_cat] Hs Hq).
Defined.

(** X11. On well-formed data and with a height that is not negative the
    constructor does not raise: it returns a sound tree that holds the
    data it was given, at the height asked for or collapsed to 0. *)
Theorem Tree_init_sound (fs : list (list Q)) (ls : list bool)
        (ts : list FeaturesTypes) (h0 msp : Z) (b : Q) :
  well_formed (PointSet_init fs ls ts) ->
  (0 <= h0)%Z ->
  exists t,
    Tree_init fs ls ts h0 msp b = Ok t /\
    sound t /\
    same_data (PointSet_init fs ls ts) (points t) /\
    (h t = h0 \/ h t = 0%Z).
Proof. apply Tree_init_succeeds. Qed.

Lemma Tree_init_sound_witness :
  well_formed (PointSet_init scenario_points [true; true; false; false]
                             [REAL; CLASSES]) /\
  (0 <= 3)%Z /\
  exists t,
    Tree_init scenario_points [true; true; false; false] [REAL; CLASSES]
              3 1 0 = Ok t /\
    sound t /\
    same_data (PointSet_init scenario_points [true; true; false; false]
                             [REAL; CLASSES]) (points t) /\
    (h t = 3%Z \/ h t = 0%Z).
Proof.
  assert (Hwf : well_formed (PointSet_init scenario_points
                               [true; true; false; false] [REAL; CLASSES]))
    by (split; [reflexivity | repeat constructor]).
  assert (Hh : (0 <= 3)%Z) by lia.
  split; [exact Hwf|]. split; [exact Hh|].
  exact (Tree_init_sound scenario_points [true; true; false; false]
                         [REAL; CLASSES] 3 1 0 Hwf Hh).
Defined.

(** X12. Adding a point that has one feature per feature type to a sound
    tree does not raise, and the tree it returns is sound again, with
    the same feature types, at the same height or collapsed to 0. *)
Theorem add_training_point_sound (t : Tree) (fs : list Q) (label : bool) :
  sound t ->
  length fs = length (types (points t)) ->
  exists t',
    add_training_point t fs label = Ok t' /\
    sound t' /\
    types (points t') = types (points t) /\
    (h t' = h t \/ h t' = 0%Z).
Proof. intros Hs Hfs. exact (add_training_point_succeeds fs label t Hs Hfs). Qed.

Lemma add_training_point_sound_witness :
  exists t,
    patient_scenario_tree = Ok t /\ sound t /\
    length [3 # 10; true_cat] = length (types (points t)) /\
    exists t',
      add_training_point t [3 # 10; true_cat] true = Ok t' /\
      sound t' /\
      types (points t') = types (points t) /\
      (h t' = h t \/ h t' = 0%Z).
Proof.
  destruct patient_scenario_sound as (t & Et & Hs & Hty).
  assert (Hq : length [3 # 10; true_cat] = length (types (points t)))
    by (rewrite Hty; reflexivity).
  exists t. split; [exact Et|]. split; [exact Hs|]. split; [exact Hq|].
  exact (add_training_point_sound t [3 # 10; true_cat] true Hs Hq).
Defined.

(** X13. Deleting a point that has one feature per feature type from a
    sound tree does not raise, whether or not the point is stored, and
    the tree it returns is sound again, with the same feature types, at
    the same height or collapsed to 0. *)
Theorem del_training_point_sound (t : Tree) (fs : list Q) (label : bool) :
  sound t ->
  length fs = length (types (points t)) ->
  exists t',
    del_training_point t fs label = Ok t' /\
    sound t' /\
    types (points t') = types (points t) /\
    (h t' = h t \/ h t' = 0%Z).
Proof. intros Hs Hfs. exact (del_training_point_succeeds fs label t Hs Hfs). Qed.

Lemma del_training_point_sound_witness :
  exists t,
    patient_scenario_tree = Ok t /\ sound t /\
    length [2 # 10; true_cat] = length (types (points t)) /\
    exists t',
      del_training_point t [2 # 10; true_cat] true = Ok t' /\
      sound t' /\
      types (points t') = types (points t) /\
      (h t' = h t \/ h t' = 0%Z).
Proof.
  destruct patient_scenario_sound as (t & Et & Hs & Hty).
  assert (Hq : length [2 # 10; true_cat] = length (types (points t)))
    by (rewrite Hty; reflexivity).
  exists t. split; [exact Et|]. split; [exact Hs|]. split; [exact Hq|].
  exact (del_training_point_sound t [2 # 10; true_cat] true Hs Hq).
Defined.

Lemma depth_eq (t : Tree) :
  depth t
  = if (h t =? 0)%Z then 0%nat
    else Datatypes.S
           (Nat.max match left t with Some l => depth l | None => 0%nat end
                    match right t with Some r => depth r | None => 0%nat end).
Proof. destruct t; reflexivity. Qed.

Lemma sound_depth :
  forall t, sound t -> (depth t <= Z.to_nat (h t))%nat.
Proof.
  induction t as [t IHl IHr] using Tree_induction. intro Hs.
  destruct (sound_inv t Hs) as (_ & Hh & Hnode).
  rewrite depth_eq. destruct (h t =? 0)%Z eqn:Ez; [lia|].
  apply Z.eqb_neq in Ez.
  destruct (Hnode Ez)
    as (fid & l & r & _ & _ & _ & Hl & Hr & _ & _ & Hhl & Hhr & Hsl & Hsr).
  rewrite Hl, Hr.
  pose proof (IHl l Hl Hsl). pose proof (IHr r Hr Hsr).
  destruct (sound_inv l Hsl) as (_ & Hl0 & _).
  destruct (sound_inv r Hsr) as (_ & Hr0 & _).
  lia.
Qed.

(** ** Scores *)

Lemma count_pairs_nonneg (p : bool -> bool -> bool) (e a : list bool) :
  (0 <= count_pairs p e a)%Z.
Proof. unfold count_pairs. lia. Qed.

Lemma count_pairs_zero (p : bool -> bool -> bool) (e a : list bool) :
  count_pairs p e a = 0%Z <->
  Forall (fun ea => p (fst ea) (snd ea) = false) (graded e a).
Proof.
  unfold count_pairs, graded.
  induction (combine e a) as [|x xs IH]; simpl.
  - split; [constructor | reflexivity].
  - destruct (p (fst x) (snd x)) eqn:E; simpl.
    + split; [lia|]. intro H. inversion H; congruence.
    + rewrite IH. split; [constructor; assumption|].
      intro H. inversion H; assumption.
Qed.

Lemma count_pairs_pos (p : bool -> bool -> bool) (e a : list bool) :
  (0 < count_pairs p e a)%Z <->
  Exists (fun ea => p (fst ea) (snd ea) = true) (graded e a).
Proof.
  unfold count_pairs, graded.
  induction (combine e a) as [|x xs IH]; simpl.
  - split; [lia|]. intro H. inversion H.
  - destruct (p (fst x) (snd x)) eqn:E; simpl.
    + split; [|lia]. intros _. left. exact E.
    + rewrite IH. split; [right; assumption|].
      intro H. inversion H; [congruence | assumption].
Qed.

Lemma true_div_Z (a b : Z) :
  true_div (inject_Z a) (inject_Z b)
  = if (b =? 0)%Z then Raise ZeroDivisionError
    else Ok (inject_Z a / inject_Z b)%Q.
Proof.
  unfold true_div. destruct (Z.eqb_spec b 0) as [->|Hb].
  - reflexivity.
  - destruct (Qeq_bool (inject_Z b) 0) eqn:E; [|reflexivity].
    apply Qeq_bool_iff in E. unfold Qeq in E. simpl in E. lia.
Qed.

Lemma ratio_bounds (a b : Z) :
  (0 <= a)%Z -> (a <= b)%Z -> (0 < b)%Z ->
  (0 <= inject_Z a / inject_Z b <= 1)%Q.
Proof.
  intros Ha Hab Hb.
  assert (Hb' : (0 < inject_Z b)%Q)
    by (unfold Qlt; simpl; lia).
  split.
  - apply Qle_shift_div_l; [exact Hb'|].
    rewrite Qmult_0_l. change 0%Q with (inject_Z 0).
    rewrite <- Zle_Qle. exact Ha.
  - apply Qle_shift_div_r; [exact Hb'|].
    rewrite Qmult_1_l, <- Zle_Qle. exact Hab.
Qed.

(** The three outcomes of [precision_recall]. *)
Lemma precision_recall_cases (e a : list bool) :
  let tp := true_positive e a in
  let fn := false_negative e a in
  let fp := false_positive e a in
  ((tp + fp = 0)%Z /\ precision_recall e a = Ok (1%Q, 1%Q)) \/
  ((tp + fp <> 0)%Z /\ (tp + fn = 0)%Z /\
   precision_recall e a = Raise ZeroDivisionError) \/
  ((tp + fp <> 0)%Z /\ (tp + fn <> 0)%Z /\
   precision_recall e a
   = Ok ((inject_Z tp / inject_Z (tp + fp))%Q,
         (inject_Z tp / inject_Z (tp + fn))%Q)).
Proof.
  intros tp fn fp. unfold precision_recall.
  fold tp fn fp.
  destruct (Z.eqb_spec (tp + fp) 0) as [E|E]; [left; auto|]. right.
  rewrite !true_div_Z.
  destruct (Z.eqb_spec (tp + fp) 0) as [E1|_]; [contradiction|].
  cbn [bind].
  destruct (Z.eqb_spec (tp + fn) 0) as [E2|E2]; [left; auto | right; auto].
Qed.

(** X15. The precision and the recall [precision_recall] returns are
    between 0 and 1. *)
Theorem precision_recall_range (e a : list bool) (p r : Q) :
  precision_recall e a = Ok (p, r) ->
  (0 <= p <= 1)%Q /\ (0 <= r <= 1)%Q.
Proof.
  intro H.
  pose proof (count_pairs_nonneg (fun x y => x && y) e a) as Htp.
  pose proof (count_pairs_nonneg (fun x y => x && negb y) e a) as Hfn.
  pose proof (count_pairs_nonneg (fun x y => negb x && y) e a) as Hfp.
  fold (true_positive e a) in Htp. fold (false_negative e a) in Hfn.
  fold (false_positive e a) in Hfp.
  destruct (precision_recall_cases e a)
    as [[_ E]|[(_ & _ & E)|(H1 & H2 & E)]]; rewrite E in H.
  - injection H as <- <-. split; split; unfold Qle; simpl; lia.
  - discriminate.
  - injection H as <- <-. split; apply ratio_bounds; lia.
Qed.

Lemma precision_recall_range_witness :
  precision_recall [true; false; true; false] [true; true; false; false]
  = Ok (1 # 2, 1 # 2) /\
  (0 <= 1 # 2 <= 1)%Q /\ (0 <= 1 # 2 <= 1)%Q.
Proof.
  assert (H : precision_recall [true; false; true; false]
                               [true; true; false; false]
              = Ok (1 # 2, 1 # 2)) by (vm_compute; reflexivity).
  split; [exact H|].
  exact (precision_recall_range _ _ _ _ H).
Defined.

(** X16. [precision_recall] raises exactly when none of the graded
    results is expected to be true and some prediction is true; the
    exception is then a division by zero, by the recall. *)
Theorem precision_recall_raises (e a : list bool) (x : exn) :
  precision_recall e a = Raise x <->
  x = ZeroDivisionError /\
  Forall (fun ea => fst ea = false) (graded e a) /\
  Exists (fun ea => snd ea = true) (graded e a).
Proof.
  pose proof (count_pairs_nonneg (fun x y => x && y) e a) as Htp.
  pose proof (count_pairs_nonneg (fun x y => x && negb y) e a) as Hfn.
  pose proof (count_pairs_nonneg (fun x y => negb x && y) e a) as Hfp.
  pose proof (count_pairs_zero (fun x y => x && y) e a) as Ztp.
  pose proof (count_pairs_zero (fun x y => x && negb y) e a) as Zfn.
  pose proof (count_pairs_pos (fun x y => negb x && y) e a) as Pfp.
  fold (true_positive e a) in Htp, Ztp.
  fold (false_negative e a) in Hfn, Zfn.
  fold (false_positive e a) in Hfp, Pfp.
  assert (Hno : (true_positive e a = 0 /\ false_negative e a = 0)%Z <->
                Forall (fun ea => fst ea = false) (graded e a)).
  { rewrite Ztp, Zfn. rewrite !Forall_forall. split.
    - intros [H1 H2] [u v] Hin. specialize (H1 _ Hin). specialize (H2 _ Hin).
      simpl in *. destruct u, v; simpl in *; congruence.
    - intro H. split; intros [u v] Hin; specialize (H _ Hin); simpl in *;
        subst; reflexivity. }
  split.
  - intro H.
    destruct (precision_recall_cases e a)
      as [[_ E]|[(H1 & H2 & E)|(_ & _ & E)]]; rewrite E in H;
      try discriminate.
    injection H as <-. split; [reflexivity|].
    assert (Hz : (true_positive e a = 0 /\ false_negative e a = 0)%Z) by lia.
    split; [apply Hno; exact Hz|].
    assert (Hp : (0 < false_positive e a)%Z) by lia.
    apply Pfp in Hp. apply Exists_exists in Hp as ([u v] & Hin & Huv).
    apply Exists_exists. exists (u, v). split; [exact Hin|].
    simpl in *. destruct v; [reflexivity|]. destruct u; discriminate.
  - intros (-> & Hall & Hex).
    destruct (proj2 Hno Hall) as [Z1 Z2].
    assert (Hp : (0 < false_positive e a)%Z).
    { apply Pfp. apply Exists_exists in Hex as ([u v] & Hin & Huv).
      apply Exists_exists. exists (u, v). split; [exact Hin|].
      simpl in *. subst v.
      assert (Hu : fst (u, true) = false)
        by (rewrite Forall_forall in Hall; exact (Hall _ Hin)).
      simpl in Hu. subst u. reflexivity. }
    destruct (precision_recall_cases e a)
      as [[H1 _]|[(_ & _ & E)|(_ & H2 & _)]]; [lia | exact E | lia].
Qed.

Lemma count_pairs_split (p q r : bool -> bool -> bool) (e a : list bool) :
  (forall u v, (Nat.b2n (p u v) + Nat.b2n (q u v) = Nat.b2n (r u v))%nat) ->
  (count_pairs p e a + count_pairs q e a)%Z = count_pairs r e a.
Proof.
  intro H. unfold count_pairs. rewrite <- Nat2Z.inj_add. f_equal.
  induction (combine e a) as [|[u v] xs IH]; [reflexivity|].
  cbn [filter fst snd]. specialize (H u v).
  destruct (p u v), (q u v), (r u v); cbn [Nat.b2n] in H; cbn [length];
    lia.
Qed.

Lemma predicted_true (e a : list bool) :
  (true_positive e a + false_positive e a)%Z
  = count_pairs (fun _ actual => actual) e a.
Proof.
  apply count_pairs_split. intros [] []; reflexivity.
Qed.

Lemma mistaken (e a : list bool) :
  (false_positive e a + false_negative e a)%Z
  = count_pairs (fun expected actual => xorb expected actual) e a.
Proof.
  apply count_pairs_split. intros [] []; reflexivity.
Qed.

Lemma counts_nonneg (e a : list bool) :
  (0 <= true_positive e a)%Z /\ (0 <= false_negative e a)%Z /\
  (0 <= false_positive e a)%Z.
Proof. repeat split; apply count_pairs_nonneg. Qed.

Lemma inject_Z_pos_lt (z : Z) : (0 < z)%Z -> (0 < inject_Z z)%Q.
Proof. intro H. change 0%Q with (inject_Z 0). rewrite <- Zlt_Qlt. exact H. Qed.

Lemma inject_Z_nonneg_le (z : Z) : (0 <= z)%Z -> (0 <= inject_Z z)%Q.
Proof. intro H. change 0%Q with (inject_Z 0). rewrite <- Zle_Qle. exact H. Qed.

Lemma true_div_nonzero (x y : Q) :
  ~ (y == 0)%Q -> true_div x y = Ok (x / y)%Q.
Proof.
  intro H. unfold true_div. destruct (Qeq_bool y 0) eqn:E; [|reflexivity].
  apply Qeq_bool_iff in E. contradiction.
Qed.

Lemma true_div_zero (x y : Q) :
  (y == 0)%Q -> true_div x y = Raise ZeroDivisionError.
Proof.
  intro H. unfold true_div. apply Qeq_bool_iff in H. rewrite H. reflexivity.
Qed.

Lemma harmonic (T P N : Q) :
  (0 < T)%Q -> (0 <= P)%Q -> (0 <= N)%Q ->
  ~ (T / (T + P) + T / (T + N) == 0)%Q /\
  (2 * (T / (T + P) * (T / (T + N))) / (T / (T + P) + T / (T + N))
   == 2 * T / (2 * T + P + N))%Q.
Proof.
  intros HT HP HN.
  assert (H1 : (0 < T + P)%Q) by lra.
  assert (H2 : (0 < T + N)%Q) by lra.
  assert (Hp : (0 < T / (T + P))%Q) by (apply Qlt_shift_div_l; lra).
  assert (Hr : (0 < T / (T + N))%Q) by (apply Qlt_shift_div_l; lra).
  split; [lra|].
  assert (Hs : (T / (T + P) + T / (T + N)
                == T * (2 * T + P + N) / ((T + P) * (T + N)))%Q)
    by (field; split; lra).
  rewrite Hs. field.
  repeat split; try lra.
Qed.

(** The three outcomes of [F1_score]. *)
Lemma F1_score_cases (e a : list bool) :
  let tp := true_positive e a in
  let fn := false_negative e a in
  let fp := false_positive e a in
  ((tp + fp = 0)%Z /\ exists s, F1_score e a = Ok s /\ (s == 1)%Q) \/
  (tp = 0%Z /\ (fp <> 0)%Z /\ F1_score e a = Raise ZeroDivisionError) \/
  ((0 < tp)%Z /\
   exists s, F1_score e a = Ok s /\
             (s == 2 * inject_Z tp
                   / (2 * inject_Z tp + inject_Z fp + inject_Z fn))%Q).
Proof.
  intros tp fn fp.
  destruct (counts_nonneg e a) as (Htp & Hfn & Hfp).
  fold tp in Htp. fold fn in Hfn. fold fp in Hfp.
  unfold F1_score.
  destruct (precision_recall_cases e a)
    as [[H1 E]|[(H1 & H2 & E)|(H1 & H2 & E)]]; fold tp fn fp in H1, E;
    try fold tp fn in H2; rewrite E; cbn [bind fst snd].
  - left. split; [exact H1|]. eexists. split; [reflexivity|]. reflexivity.
  - right. left. split; [lia|]. split; [lia | reflexivity].
  - right. destruct (Z.eq_dec tp 0) as [Ez|Ez].
    + left. split; [exact Ez|]. split; [lia|].
      apply true_div_zero. rewrite Ez. unfold Qdiv.
      change (inject_Z 0) with 0%Q. rewrite !Qmult_0_l. reflexivity.
    + right. split; [lia|].
      rewrite !inject_Z_plus.
      destruct (harmonic (inject_Z tp) (inject_Z fp) (inject_Z fn))
        as [Hnz Hval].
      * apply inject_Z_pos_lt. lia.
      * apply inject_Z_nonneg_le. exact Hfp.
      * apply inject_Z_nonneg_le. exact Hfn.
      * rewrite (true_div_nonzero _ _ Hnz). eexists.
        split; [reflexivity | exact Hval].
Qed.

(** X17. The score [F1_score] returns is above 0 and at most 1. *)
Theorem F1_score_range (e a : list bool) (s : Q) :
  F1_score e a = Ok s ->
  (0 < s <= 1)%Q.
Proof.
  intro H. destruct (counts_nonneg e a) as (Htp & Hfn & Hfp).
  destruct (F1_score_cases e a)
    as [(H1 & s' & E & Hs)|[(_ & _ & E)|(H1 & s' & E & Hs)]];
    rewrite E in H; try discriminate; injection H as <-.
  - rewrite Hs. split; [reflexivity | apply Qle_refl].
  - rewrite Hs.
    pose proof (inject_Z_pos_lt _ H1) as HT.
    pose proof (inject_Z_nonneg_le _ Hfp) as HP.
    pose proof (inject_Z_nonneg_le _ Hfn) as HN.
    split.
    + apply Qlt_shift_div_l; lra.
    + apply Qle_shift_div_r; lra.
Qed.

Lemma F1_score_range_witness :
  F1_score [true; false; true; true] [true; true; false; true]
  = Ok (72 # 108) /\
  (0 < 72 # 108 <= 1)%Q.
Proof.
  assert (H : F1_score [true; false; true; true] [true; true; false; true]
              = Ok (72 # 108)) by (vm_compute; reflexivity).
  split; [exact H|].
  exact (F1_score_range _ _ _ H).
Defined.

Lemma no_true_positive (e a : list bool) :
  true_positive e a = 0%Z <->
  Forall (fun ea => snd ea = true -> fst ea = false) (graded e a).
Proof.
  unfold true_positive. rewrite count_pairs_zero, !Forall_forall.
  split; intros H [u v] Hin; specialize (H _ Hin); simpl in *;
    destruct u, v; simpl in *; auto; try discriminate.
Qed.

Lemma some_predicted_true (e a : list bool) :
  (true_positive e a + false_positive e a <> 0)%Z <->
  Exists (fun ea => snd ea = true) (graded e a).
Proof.
  rewrite predicted_true.
  pose proof (count_pairs_nonneg (fun _ y => y) e a).
  rewrite <- (count_pairs_pos (fun _ y => y) e a). lia.
Qed.

Lemma none_predicted_true (e a : list bool) :
  (true_positive e a + false_positive e a = 0)%Z <->
  Forall (fun ea => snd ea = false) (graded e a).
Proof.
  rewrite predicted_true.
  exact (count_pairs_zero (fun _ y => y) e a).
Qed.

Lemma none_mistaken (e a : list bool) :
  (false_positive e a + false_negative e a = 0)%Z <->
  Forall (fun ea => fst ea = snd ea) (graded e a).
Proof.
  rewrite mistaken, count_pairs_zero, !Forall_forall.
  split; intros H [u v] Hin; specialize (H _ Hin); simpl in *;
    destruct u, v; simpl in *; auto; discriminate.
Qed.

(** X18. [F1_score] raises exactly when some prediction is true and
    every true prediction is wrong; the exception is then a division by
    zero. *)
Theorem F1_score_raises (e a : list bool) (x : exn) :
  F1_score e a = Raise x <->
  x = ZeroDivisionError /\
  Forall (fun ea => snd ea = true -> fst ea = false) (graded e a) /\
  Exists (fun ea => snd ea = true) (graded e a).
Proof.
  rewrite <- no_true_positive, <- some_predicted_true.
  destruct (counts_nonneg e a) as (Htp & Hfn & Hfp).
  destruct (F1_score_cases e a)
    as [(H1 & s' & E & Hs)|[(H1 & H2 & E)|(H1 & s' & E & Hs)]]; rewrite E.
  - split; [discriminate|]. intros (_ & _ & H). lia.
  - split.
    + intro H. injection H as <-. split; [reflexivity|]. lia.
    + intros (-> & _). reflexivity.
  - split; [discriminate|]. intros (_ & H & _). lia.
Qed.

(** X19. [F1_score] returns 1 exactly when no prediction is true or
    every prediction is right: a predictor that always answers false
    gets the same score as one that is never wrong. *)
Theorem F1_score_one (e a : list bool) :
  (exists s, F1_score e a = Ok s /\ (s == 1)%Q) <->
  Forall (fun ea => snd ea = false) (graded e a) \/
  Forall (fun ea => fst ea = snd ea) (graded e a).
Proof.
  rewrite <- none_predicted_true, <- none_mistaken.
  destruct (counts_nonneg e a) as (Htp & Hfn & Hfp).
  destruct (F1_score_cases e a)
    as [(H1 & s' & E & Hs)|[(H1 & H2 & E)|(H1 & s' & E & Hs)]]; rewrite E.
  - split; [intros _; left; exact H1|]. intros _. exists s'. auto.
  - split; [intros (s & H & _); discriminate|]. intros [H|H]; lia.
  - pose proof (inject_Z_pos_lt _ H1) as HT.
    pose proof (inject_Z_nonneg_le _ Hfp) as HP.
    pose proof (inject_Z_nonneg_le _ Hfn) as HN.
    split.
    + intros (s & H & Hone). injection H as <-. right.
      rewrite Hs in Hone.
      assert (Hsum : (inject_Z (false_positive e a)
                      + inject_Z (false_negative e a) == 0)%Q).
      { set (T := inject_Z (true_positive e a)) in *.
        set (P := inject_Z (false_positive e a)) in *.
        set (N := inject_Z (false_negative e a)) in *.
        assert (Hm : (2 * T == 2 * T / (2 * T + P + N) * (2 * T + P + N))%Q)
          by (field; lra).
        rewrite Hone in Hm. lra. }
      rewrite <- inject_Z_plus in Hsum.
      unfold Qeq in Hsum. cbn [inject_Z Qnum Qden] in Hsum. lia.
    + intros [H|H]; [lia|]. exists s'. split; [reflexivity|].
      rewrite Hs.
      assert (HP0 : false_positive e a = 0%Z) by lia.
      assert (HN0 : false_negative e a = 0%Z) by lia.
      rewrite HP0, HN0. change (inject_Z 0) with 0%Q. field. lra.
Qed.

(** ** The two drivers of [main.py] *)

Lemma F1_score_outcome (e a : list bool) :
  (exists s, F1_score e a = Ok s /\ (0 < s <= 1)%Q) \/
  F1_score e a = Raise ZeroDivisionError.
Proof.
  destruct (counts_nonneg e a) as (Htp & Hfn & Hfp).
  destruct (F1_score_cases e a)
    as [(H1 & s' & E & Hs)|[(_ & _ & E)|(H1 & s' & E & Hs)]].
  - left. exists s'. split; [exact E|]. rewrite Hs.
    split; [reflexivity | apply Qle_refl].
  - right. exact E.
  - left. exists s'. split; [exact E|]. rewrite Hs.
    pose proof (inject_Z_pos_lt _ H1) as HT.
    pose proof (inject_Z_nonneg_le _ Hfp) as HP.
    pose proof (inject_Z_nonneg_le _ Hfn) as HN.
    split.
    + apply Qlt_shift_div_l; lra.
    + apply Qle_shift_div_r; lra.
Qed.

Lemma Forall_parts {A : Type} (P : A -> Prop) (n : nat) (l : list A) :
  Forall P l -> Forall P (firstn n l) /\ Forall P (skipn n l).
Proof.
  intro H. rewrite <- (firstn_skipn n l) in H.
  apply Forall_app in H. exact H.
Qed.

Lemma training_well_formed (fs : list (list Q)) (ls : list bool)
      (ts : list FeaturesTypes) (n : nat) :
  well_formed (PointSet_init fs ls ts) ->
  well_formed (PointSet_init (firstn n fs) (firstn n ls) ts).
Proof.
  intros [Hl Hrows]. simpl in *. split; simpl.
  - rewrite !length_firstn. lia.
  - apply (Forall_parts _ n fs Hrows).
Qed.

Lemma predictions_succeed (t : Tree) (pts : list (list Q)) :
  sound t ->
  Forall (fun p => (length (types (points t)) <= length p)%nat) pts ->
  exists rs, predictions t pts = Ok rs.
Proof.
  intros Hs Hpts. unfold predictions.
  destruct (for_each_succeeds (fun _ : list bool => True)
              (fun actual_results point_features =>
                 d <- decide t point_features ;; Ok (actual_results ++ [d]))
              pts) with (s := @nil bool) as (rs & E & _); [|exact I|eauto].
  intros s x Hin _. rewrite Forall_forall in Hpts.
  destruct (decide_succeeds x t Hs (Hpts x Hin)) as [b Hb].
  rewrite Hb. cbn [bind]. eauto.
Qed.

(** X20. On well-formed data and with a height that is not negative,
    [build] trains the tree and gets a prediction for every point held
    back without raising; what it returns is the F1 score of these
    predictions, above 0 and at most 1, unless the score itself divides
    by zero. *)
Theorem build_outcome (fs : list (list Q)) (ls : list bool)
        (ts : list FeaturesTypes) (training_nb : nat) (h0 msp : Z)
        (beta0 : Q) :
  well_formed (PointSet_init fs ls ts) ->
  (0 <= h0)%Z ->
  (exists t preds,
      Tree_init (firstn training_nb fs) (firstn training_nb ls) ts
                h0 msp beta0 = Ok t /\
      predictions t (skipn training_nb fs) = Ok preds /\
      build fs ls ts training_nb h0 msp beta0
      = F1_score (skipn training_nb ls) preds) /\
  ((exists score, build fs ls ts training_nb h0 msp beta0 = Ok score /\
                  (0 < score <= 1)%Q) \/
   build fs ls ts training_nb h0 msp beta0 = Raise ZeroDivisionError).
Proof.
  intros Hwf Hh.
  destruct (Tree_init_succeeds _ _ ts h0 msp beta0
              (training_well_formed fs ls ts training_nb Hwf) Hh)
    as (t & Et & Hs & (Hty & _) & _).
  simpl in Hty.
  destruct (predictions_succeed t (skipn training_nb fs) Hs)
    as [preds Ep].
  { destruct Hwf as [_ Hrows]. simpl in Hrows.
    apply (Forall_parts _ training_nb) in Hrows as [_ Hrows].
    rewrite Hty. revert Hrows. apply Forall_impl. intros p Hp. lia. }
  assert (E : build fs ls ts training_nb h0 msp beta0
              = F1_score (skipn training_nb ls) preds)
    by (unfold build; rewrite Et; cbn [bind]; rewrite Ep; reflexivity).
  split; [exists t, preds; auto|].
  rewrite E. apply F1_score_outcome.
Qed.

Lemma build_outcome_witness :
  let fs := scenario_points ++ [[3 # 10; true_cat]; [7 # 10; false_cat]] in
  let ls := [true; true; false; false; true; false] in
  let ts := [REAL; CLASSES] in
  well_formed (PointSet_init fs ls ts) /\
  (0 <= 1)%Z /\
  (exists t preds,
      Tree_init (firstn 4 fs) (firstn 4 ls) ts 1 1 0 = Ok t /\
      predictions t (skipn 4 fs) = Ok preds /\
      build fs ls ts 4 1 1 0 = F1_score (skipn 4 ls) preds) /\
  ((exists score, build fs ls ts 4 1 1 0 = Ok score /\
                  (0 < score <= 1)%Q) \/
   build fs ls ts 4 1 1 0 = Raise ZeroDivisionError).
Proof.
  intros fs ls ts.
  assert (Hwf : well_formed (PointSet_init fs ls ts))
    by (split; [reflexivity | repeat constructor]).
  assert (Hh : (0 <= 1)%Z) by lia.
  split; [exact Hwf|]. split; [exact Hh|].
  exact (build_outcome fs ls ts 4 1 1 0 Hwf Hh).
Defined.

Lemma in_enumerate {A : Type} (xs : list A) (i : nat) (x : A) :
  In (i, x) (enumerate xs) -> (i < length xs)%nat /\ In x xs.
Proof.
  unfold enumerate. intro H. split.
  - apply in_combine_l in H. apply in_seq in H. lia.
  - apply in_combine_r in H. exact H.
Qed.

Lemma index_in_range {A : Type} (l : list A) (i : nat) :
  (i < length l)%nat -> exists x, index l i = Ok x /\ In x l.
Proof.
  intro H. unfold index. destruct (nth_error l i) as [x|] eqn:E.
  - exists x. split; [reflexivity|]. apply nth_error_In in E. exact E.
  - apply nth_error_None in E. lia.
Qed.

Lemma FuDyADT_step_succeeds (fs : list (list Q)) (ls : list bool)
      (ts : list FeaturesTypes) (n : nat) (st : Tree * list bool)
      (x : nat * (list Q * bool)) :
  well_formed (PointSet_init fs ls ts) ->
  In x (enumerate (combine (skipn n fs) (skipn n ls))) ->
  sound (fst st) /\ types (points (fst st)) = ts ->
  exists st', FuDyADT_step fs ls st x = Ok st' /\
              sound (fst st') /\ types (points (fst st')) = ts.
Proof.
  intros [Hl Hrows] Hin [Hs Hty]. simpl in Hl, Hrows.
  destruct x as [i [pf pl]]. destruct st as [t acc]. simpl in Hs, Hty.
  apply in_enumerate in Hin as [Hi Hin].
  rewrite length_combine, !length_skipn in Hi.
  apply in_combine_l in Hin.
  assert (Hpf : length pf = length ts).
  { apply (Forall_parts _ n) in Hrows as [_ Hrows].
    rewrite Forall_forall in Hrows. exact (Hrows pf Hin). }
  unfold FuDyADT_step. cbn [fst snd].
  destruct (decide_succeeds pf t Hs ltac:(rewrite Hty; lia)) as [d Hd].
  rewrite Hd. cbn [bind].
  destruct (add_training_point_succeeds pf pl t Hs ltac:(congruence))
    as (t1 & E1 & Hs1 & Hty1 & _).
  rewrite E1. cbn [bind].
  destruct (index_in_range fs i ltac:(lia)) as (df & Edf & Hdf).
  destruct (index_in_range ls i ltac:(lia)) as (dl & Edl & _).
  rewrite Edf, Edl. cbn [bind].
  assert (Hw : length df = length ts)
    by (rewrite Forall_forall in Hrows; exact (Hrows df Hdf)).
  destruct (del_training_point_succeeds df dl t1 Hs1 ltac:(congruence))
    as (t2 & E2 & Hs2 & Hty2 & _).
  rewrite E2. cbn [bind]. eexists. split; [reflexivity|].
  cbn [fst]. split; [exact Hs2 | congruence].
Qed.

(** X21. On well-formed data and with a height that is not negative,
    [build_FuDyADT] trains the tree and goes through every round
    (a prediction, the insertion of the point predicted, the deletion of
    the oldest point) without raising; what it returns is the F1 score
    of the predictions, above 0 and at most 1, unless the score itself
    divides by zero. *)
Theorem build_FuDyADT_outcome (fs : list (list Q)) (ls : list bool)
        (ts : list FeaturesTypes) (training_nb : nat) (h0 msp : Z)
        (beta0 : Q) :
  well_formed (PointSet_init fs ls ts) ->
  (0 <= h0)%Z ->
  (exists t st,
      Tree_init (firstn training_nb fs) (firstn training_nb ls) ts
                h0 msp beta0 = Ok t /\
      for_each (enumerate (combine (skipn training_nb fs)
                                   (skipn training_nb ls)))
               (FuDyADT_step fs ls) (t, []) = Ok st /\
      sound (fst st) /\
      build_FuDyADT fs ls ts training_nb h0 msp beta0
      = F1_score (skipn training_nb ls) (snd st)) /\
  ((exists score,
       build_FuDyADT fs ls ts training_nb h0 msp beta0 = Ok score /\
       (0 < score <= 1)%Q) \/
   build_FuDyADT fs ls ts training_nb h0 msp beta0
   = Raise ZeroDivisionError).
Proof.
  intros Hwf Hh.
  destruct (Tree_init_succeeds _ _ ts h0 msp beta0
              (training_well_formed fs ls ts training_nb Hwf) Hh)
    as (t & Et & Hs & (Hty & _) & _).
  simpl in Hty.
  destruct (for_each_succeeds
              (fun st : Tree * list bool =>
                 sound (fst st) /\ types (points (fst st)) = ts)
              (FuDyADT_step fs ls)
              (enumerate (combine (skipn training_nb fs)
                                  (skipn training_nb ls))))
    with (s := (t, @nil bool)) as (st & Est & Hst & _).
  - intros s x Hin Hinv.
    exact (FuDyADT_step_succeeds fs ls ts training_nb s x Hwf Hin Hinv).
  - split; [exact Hs | exact Hty].
  - assert (E : build_FuDyADT fs ls ts training_nb h0 msp beta0
                = F1_score (skipn training_nb ls) (snd st))
      by (unfold build_FuDyADT; rewrite Et; cbn [bind]; rewrite Est;
          reflexivity).
    split; [exists t, st; auto|].
    rewrite E. apply F1_score_outcome.
Qed.

Lemma build_FuDyADT_outcome_witness :
  let fs := scenario_points ++ [[3 # 10; true_cat]; [7 # 10; false_cat]] in
  let ls := [true; true; false; false; true; false] in
  let ts := [REAL; CLASSES] in
  well_formed (PointSet_init fs ls ts) /\
  (0 <= 1)%Z /\
  (exists t st,
      Tree_init (firstn 4 fs) (firstn 4 ls) ts 1 1 0 = Ok t /\
      for_each (enumerate (combine (skipn 4 fs) (skipn 4 ls)))
               (FuDyADT_step fs ls) (t, []) = Ok st /\
      sound (fst st) /\
      build_FuDyADT fs ls ts 4 1 1 0 = F1_score (skipn 4 ls) (snd st)) /\
  ((exists score, build_FuDyADT fs ls ts 4 1 1 0 = Ok score /\
                  (0 < score <= 1)%Q) \/
   build_FuDyADT fs ls ts 4 1 1 0 = Raise ZeroDivisionError).
Proof.
  intros fs ls ts.
  assert (Hwf : well_formed (PointSet_init fs ls ts))
    by (split; [reflexivity | repeat constructor]).
  assert (Hh : (0 <= 1)%Z) by lia.
  split; [exact Hwf|]. split; [exact Hh|].
  exact (build_FuDyADT_outcome fs ls ts 4 1 1 0 Hwf Hh).
Defined.

(** ** Routing *)

Lemma routed_eq (t : Tree) :
  routed t
  <-> (h t = 0%Z \/
       match left t, right t with
       | Some l, Some r =>
           mkPartition (features (points l)) (labels (points l))
                       (features (points r)) (labels (points r))
           = sides (decides_left t)
                   (combine (features (points t)) (labels (points t))) /\
           routed l /\ routed r
       | _, _ => False
       end).
Proof. destruct t; reflexivity. Qed.

Lemma sides_ext (go go' : list Q -> bool) (pairs : list (list Q * bool)) :
  (forall p, In p (map fst pairs) -> go p = go' p) ->
  sides go pairs = sides go' pairs.
Proof.
  intro H. unfold sides.
  assert (E1 : filter (fun pl => go (fst pl)) pairs
               = filter (fun pl => go' (fst pl)) pairs).
  { apply filter_ext_in. intros pl Hin. apply H. apply in_map. exact Hin. }
  assert (E2 : filter (fun pl => negb (go (fst pl))) pairs
               = filter (fun pl => negb (go' (fst pl))) pairs).
  { apply filter_ext_in. intros pl Hin. f_equal. apply H. apply in_map.
    exact Hin. }
  rewrite E1, E2. reflexivity.
Qed.

Lemma build_tree_within_data (budget : nat) (t t' : Tree) :
  build_tree_within budget t = Ok t' ->
  same_data (points t) (points t').
Proof.
  intro H. destruct (Z_lt_le_dec 0 (h t)) as [Hpos|Hlow].
  - destruct budget as [|budget].
    + simpl in H. destruct t as [h0 a b c d e f g l r]. simpl in *.
      assert (E : (h0 >? 0)%Z = true) by (apply Z.gtb_lt; lia).
      rewrite E in H. discriminate.
    + apply build_tree_within_built in H; [|apply Z.gtb_lt; lia].
      apply (built_fields budget t t' H).
  - rewrite (build_tree_within_low budget t Hlow) in H. injection H as <-.
    destruct t; unfold same_data; simpl; auto.
Qed.

Lemma Tree_init_with_data (budget : nat) (fs : list (list Q))
      (ls : list bool) (ts : list FeaturesTypes) (h0 msp : Z) (b : Q)
      (c : Tree) :
  Tree_init_with (build_tree_within budget) fs ls ts h0 msp b = Ok c ->
  features (points c) = fs /\ labels (points c) = ls.
Proof.
  unfold Tree_init_with. destruct (h0 >? 0)%Z.
  - intro H. apply build_tree_within_data in H as (_ & Hf & Hl).
    simpl in *. auto.
  - intro H. injection H as <-. simpl. auto.
Qed.

(** The rule a node just given its split decides by is the rule its
    points were partitioned by, provided no categorical split was left
    on the node from before. *)
Lemma install_split_routes (self : Tree) (fid : nat) (ty : FeaturesTypes)
      (thr : option Q) (p : list Q) :
  feature_split self = None ->
  (ty = REAL -> thr <> None) ->
  (fid < length p)%nat ->
  goes_left (install_split self fid ty thr) p
  = Ok (routes_left fid ty thr (split_of (points self) fid thr) p).
Proof.
  intros Hsp Hthr Hp.
  destruct self as [h0 fid0 thr0 split0 ps0 msp0 cnt0 beta0 l0 r0].
  simpl in Hsp. subst split0.
  assert (Hx : index p fid = Ok (nth fid p 0%Q)).
  { unfold index. destruct (nth_error p fid) as [x|] eqn:E.
    - rewrite (nth_error_nth _ _ _ E). reflexivity.
    - apply nth_error_None in E. lia. }
  unfold install_split, goes_left, routes_left.
  destruct ty; cbn; rewrite Hx; cbn; try reflexivity.
  destruct thr as [th|]; [reflexivity|].
  exfalso. apply Hthr; reflexivity.
Qed.

Lemma build_tree_within_routed (budget : nat) :
  forall t t',
    feature_split t = None ->
    well_formed (points t) ->
    (0 <= h t)%Z ->
    build_tree_within budget t = Ok t' ->
    routed t'.
Proof.
  induction budget as [|budget IH]; intros t t' Hsp Hwf Hh H.
  { destruct (Z.eq_dec (h t) 0) as [Hz|Hnz].
    - rewrite build_tree_within_low in H by lia. injection H as <-.
      apply routed_eq. left. destruct t; exact Hz.
    - simpl in H. destruct t as [h0 a b c d e f g l r]. simpl in *.
      assert (E : (h0 >? 0)%Z = true) by (apply Z.gtb_lt; lia).
      rewrite E in H. discriminate. }
  destruct (Z.eq_dec (h t) 0) as [Hz|Hnz].
  { rewrite build_tree_within_low in H by lia. injection H as <-.
    apply routed_eq. left. destruct t; exact Hz. }
  apply build_tree_within_built in H; [|apply Z.gtb_lt; lia].
  destruct H as [r ps Hg _
                |r ps fid ty thr parts Hg _ _ _ _ _
                |r ps fid ty thr parts l r' Hg Hfid Hidx Hthr Hparts _ El Er].
  - apply routed_eq. left. destruct t; reflexivity.
  - apply routed_eq. left. destruct t, ty; reflexivity.
  - pose proof (get_best_gain_same_data _ _ _ _ Hg) as Hd.
    pose proof (well_formed_same_data _ _ Hd Hwf) as Hwf'.
    destruct Hd as (Hts & Hfs & Hls).
    assert (Hlt : (fid < length (types ps))%nat).
    { unfold index in Hidx.
      destruct (nth_error (types ps) fid) eqn:E; [|discriminate].
      apply nth_error_Some. congruence. }
    assert (Hty : nth_error (types (points t)) fid = Some ty).
    { unfold index in Hidx. rewrite <- Hts.
      destruct (nth_error (types ps) fid); [congruence | discriminate]. }
    assert (Hreal : ty = REAL -> thr <> None).
    { intros ->. destruct r as [r1 g]. simpl in Hfid. subst r1.
      exact (winner_threshold _ _ _ _ _ _ Hg Hty Hthr). }
    rewrite (partition_of_sides ps fid ty thr Hwf' Hlt Hreal) in Hparts.
    injection Hparts as <-.
    set (go := routes_left fid ty thr (split_of ps fid thr)) in *.
    destruct (sides_well_formed ps go Hwf') as [Hwl Hwr].
    destruct (Tree_init_with_data _ _ _ _ _ _ _ _ El) as [Hlf Hll].
    destruct (Tree_init_with_data _ _ _ _ _ _ _ _ Er) as [Hrf Hrl].
    assert (Hchild : forall fs ls c,
               well_formed (PointSet_init fs ls (types ps)) ->
               Tree_init_with (build_tree_within budget) fs ls (types ps)
                              (h t - 1) (min_split_points t) (beta t) = Ok c ->
               routed c).
    { intros fs ls c Hc Ec. unfold Tree_init_with in Ec.
      destruct (h t - 1 >? 0)%Z eqn:E.
      - rewrite Z.gtb_ltb in E. apply Z.ltb_lt in E.
        refine (IH _ c _ _ _ Ec); simpl; [reflexivity | exact Hc | lia].
      - injection Ec as <-. apply routed_eq. left. simpl.
        rewrite Z.gtb_ltb in E. apply Z.ltb_ge in E. lia. }
    pose proof (Hchild _ _ l Hwl El) as Hrl'.
    pose proof (Hchild _ _ r' Hwr Er) as Hrr'.
    set (T' := with_right
                 (with_left
                    (install_split (with_points (with_counter t 0) ps)
                                   fid ty thr) (Some l)) (Some r')).
    assert (HL : left T' = Some l) by (destruct t, ty; reflexivity).
    assert (HR : right T' = Some r') by (destruct t, ty; reflexivity).
    assert (HP : points T' = ps) by (destruct t, ty; reflexivity).
    assert (Hroute : forall p,
               In p (map fst (combine (features ps) (labels ps))) ->
               go p = decides_left T' p).
    { intros p Hin. apply in_map_iff in Hin as ([q lab] & <- & Hin).
      apply in_combine_l in Hin. simpl.
      destruct Hwf' as [_ Hrows]. rewrite Forall_forall in Hrows.
      pose proof (Hrows q Hin) as Hq.
      pose proof (install_split_routes (with_points (with_counter t 0) ps)
                    fid ty thr q) as Hgo.
      unfold decides_left.
      replace (goes_left T' q)
        with (goes_left (install_split (with_points (with_counter t 0) ps)
                                       fid ty thr) q)
        by (destruct t, ty; reflexivity).
      rewrite Hgo.
      - unfold go. destruct t; reflexivity.
      - destruct t; exact Hsp.
      - exact Hreal.
      - lia. }
    apply routed_eq. right. rewrite HL, HR, HP.
    rewrite <- (sides_ext go _ _ Hroute).
    rewrite Hlf, Hll, Hrf, Hrl. auto.
Qed.

(** X22. The tree the constructor returns on well-formed data is
    routed: at every node [decide] can reach, the left child holds
    exactly the points of the node that [decide] sends left there, the
    right child the others, each with its label and in the order of the
    node. *)
Theorem Tree_init_routed (fs : list (list Q)) (ls : list bool)
        (ts : list FeaturesTypes) (h0 msp : Z) (b : Q) (t : Tree) :
  well_formed (PointSet_init fs ls ts) ->
  (0 <= h0)%Z ->
  Tree_init fs ls ts h0 msp b = Ok t ->
  routed t.
Proof.
  intros Hwf Hh H. unfold Tree_init, Tree_init_with in H.
  destruct (h0 >? 0)%Z eqn:E.
  - unfold build_tree in H.
    refine (build_tree_within_routed _ _ t _ _ _ H); simpl;
      [reflexivity | exact Hwf | exact Hh].
  - injection H as <-. apply routed_eq. left. simpl.
    rewrite Z.gtb_ltb in E. apply Z.ltb_ge in E. lia.
Qed.

Lemma Tree_init_routed_witness :
  exists t,
    Tree_init scenario_points [true; true; false; false] [REAL; CLASSES]
              1 1 0 = Ok t /\
    well_formed (PointSet_init scenario_points [true; true; false; false]
                               [REAL; CLASSES]) /\
    (0 <= 1)%Z /\
    routed t.
Proof.
  eexists. split; [vm_compute; reflexivity|].
  match goal with
  | |- _ /\ _ /\ routed ?t =>
      assert (H : Tree_init scenario_points [true; true; false; false]
                            [REAL; CLASSES] 1 1 0 = Ok t)
        by (vm_compute; reflexivity)
  end.
  assert (Hwf : well_formed (PointSet_init scenario_points
                               [true; true; false; false] [REAL; CLASSES]))
    by (split; [reflexivity | repeat constructor]).
  assert (Hh : (0 <= 1)%Z) by lia.
  split; [exact Hwf|]. split; [exact Hh|].
  exact (Tree_init_routed _ _ _ _ _ _ _ Hwf Hh H).
Defined.

(** X23. A rebuild does not clear the categorical split of a node.
    When a node that split on a category is rebuilt and now splits on a
    continuous feature, [decide] still routes by the old categories,
    applied to the new feature: there is a tree built by the
    constructor and a point whose insertion gives a tree that sends a
    training point stored in its left child, where the answer is the
    label of that point, to its right child, where the answer is the
    opposite. *)
Theorem rebuild_keeps_categorical_split :
  exists fs ls ts h0 msp b t p lab t' l q,
    well_formed (PointSet_init fs ls ts) /\
    (0 <= h0)%Z /\
    Tree_init fs ls ts h0 msp b = Ok t /\
    length p = length ts /\
    add_training_point t p lab = Ok t' /\
    (0 < h t')%Z /\
    left t' = Some l /\
    In (q, true) (combine (features (points l)) (labels (points l))) /\
    decide l q = Ok true /\
    goes_left t' q = Ok false /\
    decide t' q = Ok false.
Proof.
  exists [[1; 0]; [2; 5]], [true; false], [CLASSES; REAL], 1%Z, 1%Z, 0%Q.
  eexists. exists [1; 6], false. eexists. eexists. exists [1; 0].
  split; [split; [reflexivity | repeat constructor]|].
  split; [lia|].
  split; [vm_compute; reflexivity|].
  split; [reflexivity|].
  split; [vm_compute; reflexivity|].
  split; [simpl; lia|].
  split; [reflexivity|].
  split; [simpl; left; reflexivity|].
  split; [vm_compute; reflexivity|].
  split; vm_compute; reflexivity.
Qed.

(** ** The children of a split node *)

Lemma consider_split_recorded (ps : PointSet) (m : option Z)
      (f_type : FeaturesTypes) (i k : nat) (values : list Q)
      (c : counts) (s s' : search) :
  nth_error (types ps) i = Some f_type ->
  match f_type with
  | REAL =>
      values = sorted_values ps i /\ (k < length values)%nat /\
      skip_position k values = false /\
      c = cut_counts (sorted_labels_of ps i) k
  | CLASSES =>
      c = class_counts (column i (features ps)) (labels ps) (nth k values 0%Q)
  | BOOLEAN =>
      nth k values 0%Q = 0%Q /\
      c = class_counts (column i (features ps)) (labels ps) 0%Q
  end ->
  split_recorded ps m s ->
  consider ps m f_type i k values c s = Ok s' ->
  split_recorded ps m s'.
Proof.
  intros Hty Hc Hs. unfold consider.
  destruct ((c00 c + c01 c =? 0) || (c10 c + c11 c =? 0))%Z eqn:Eside;
    [intro H; injection H as <-; exact Hs|].
  destruct (get_gini ps) as [parent|e] eqn:Eg; simpl; [|discriminate].
  apply get_gini_value in Eg. subst parent. fold (split_gain ps c).
  match goal with |- (if ?b then _ else _) = _ -> _ => destruct b end;
    [|intro H; injection H as <-; exact Hs].
  destruct (below_floor m c) eqn:Efloor; intro H; injection H as <-;
    [exact Hs|].
  pose proof (usable_true m c Eside Efloor) as Hu.
  intros j Hj. simpl in Hj. injection Hj as <-. rewrite Hty.
  destruct f_type; simpl.
  - destruct Hc as [_ ->]. auto.
  - exists (nth k values 0%Q). subst c. auto.
  - destruct Hc as (-> & Hk & Hsk & ->). exists k. auto 6.
Qed.

Lemma feature_step_split_recorded (ps : PointSet) (m : option Z)
      (s s' : search) (i : nat) :
  length (labels ps) = length (features ps) ->
  split_recorded ps m s ->
  feature_step ps m s i = Ok s' ->
  split_recorded ps m s'.
Proof.
  intros Hlen Hs H. unfold feature_step in H. bind_inv H.
  unfold index in Ha.
  destruct (nth_error (types ps) i) as [ty|] eqn:Ety; [|discriminate].
  injection Ha as <-.
  assert (Hfv : (length (column i (features ps)) <= length (labels ps))%nat)
    by (unfold column; rewrite length_map; lia).
  destruct ty.
  - revert H. apply for_each_preserves; trivial.
    intros s0 k s1 _ Hs0. unfold class_step.
    rewrite count_pass_counts by exact Hfv. cbn [bind].
    apply consider_split_recorded; trivial.
    assert (E : nth k [0%Q] 0%Q = 0%Q) by (destruct k as [|[|k]]; reflexivity).
    rewrite E. auto.
  - revert H. apply for_each_preserves; trivial.
    intros s0 k s1 _ Hs0. unfold class_step.
    rewrite count_pass_counts by exact Hfv. cbn [bind].
    apply consider_split_recorded; trivial.
  - bind_inv H. bind_inv H. bind_inv H. injection H as <-.
    apply (fancy_index_Ok _ false) in Ha. subst a.
    apply (fancy_index_Ok _ 0%Q) in Ha0. subst a0.
    fold (sorted_values ps i) in Ha1. fold (sorted_labels_of ps i) in Ha1.
    rewrite <- (cut_counts_start ps i Hlen) in Ha1.
    assert (Hvl : length (sorted_values ps i) = length (sorted_labels_of ps i))
      by (unfold sorted_values, sorted_labels_of; rewrite !take_length;
          reflexivity).
    pose (I := fun (k : nat) (t : counts * search) =>
                 fst t = cut_counts (sorted_labels_of ps i) (k - 1) /\
                 split_recorded ps m (snd t)).
    assert (Hend : I (0 + length (sorted_values ps i))%nat a1).
    { apply (for_each_seq_invariant I) with (3 := Ha1).
      - split; [reflexivity | exact Hs].
      - intros k [c t] [c' t'] Hk [Hc Ht]. unfold I. cbn [fst snd] in *.
        subst c. unfold real_step. cbn [fst snd].
        rewrite move_point_cut by (rewrite <- Hvl; lia).
        replace (Datatypes.S k - 1)%nat with k by lia.
        destruct (skip_position k (sorted_values ps i)) eqn:Esk.
        + intro E. injection E as <- <-. split; [reflexivity | exact Ht].
        + intro E. bind_inv E. injection E as <- <-. split; [reflexivity|].
          revert Ha. apply consider_split_recorded; trivial.
          split; [reflexivity|]. split; [lia|]. split; [exact Esk|].
          reflexivity. }
    exact (proj2 Hend).
Qed.

(** What the search stores with the feature it returns. *)
Lemma get_best_gain_recorded (ps : PointSet) (m : option Z) (i : nat)
      (g : option Q) (ps' : PointSet) :
  length (labels ps) = length (features ps) ->
  get_best_gain ps m = Ok ((Some i, g), ps') ->
  match nth_error (types ps) i with
  | Some REAL =>
      exists k,
        (k < length (sorted_values ps i))%nat /\
        skip_position k (sorted_values ps i) = false /\
        threshold ps' = Some (cut_threshold k (sorted_values ps i)) /\
        usable m (cut_counts (sorted_labels_of ps i) k) = true /\
        g = Some (split_gain ps (cut_counts (sorted_labels_of ps i) k))
  | Some CLASSES =>
      exists val,
        category_id ps' = Some val /\
        usable m (class_counts (column i (features ps)) (labels ps) val)
        = true /\
        g = Some (split_gain ps (class_counts (column i (features ps))
                                              (labels ps) val))
  | Some BOOLEAN =>
      usable m (class_counts (column i (features ps)) (labels ps) 0%Q)
      = true /\
      g = Some (split_gain ps (class_counts (column i (features ps))
                                            (labels ps) 0%Q))
  | None => False
  end.
Proof.
  unfold get_best_gain. intros Hlen H.
  destruct (length (features ps) =? 0)%nat; [discriminate|].
  bind_inv H.
  assert (Hrec : split_recorded ps m a).
  { revert Ha. apply for_each_preserves.
    - intros s0 j s1 _. apply feature_step_split_recorded. exact Hlen.
    - intros j Hj. discriminate Hj. }
  destruct (fst (res a)) as [best|] eqn:Eb.
  2:{ injection H as Hr _. rewrite Hr in Eb. discriminate. }
  bind_inv H. injection H as Hr <-.
  rewrite Hr in Eb. simpl in Eb. injection Eb as Eb. subst best.
  specialize (Hrec i). rewrite Hr in Hrec. specialize (Hrec eq_refl).
  unfold index in Ha0.
  destruct (nth_error (types ps) i) as [ty|]; [|discriminate].
  injection Ha0 as <-. destruct ty; simpl; exact Hrec.
Qed.

Lemma side_length (go : Q -> bool) (fid : nat) (fs : list (list Q)) :
  forall ls,
    Z.of_nat (length (filter (fun pl : list Q * bool =>
                                go (nth fid (fst pl) 0%Q))
                             (combine fs ls)))
    = (count_where (fun f l => negb l && go f) (column fid fs) ls
       + count_where (fun f l => l && go f) (column fid fs) ls)%Z.
Proof.
  unfold count_where. intro ls. rewrite <- Nat2Z.inj_add. f_equal.
  revert ls. induction fs as [|row fs IH]; intros [|l ls]; try reflexivity.
  cbn [column map combine filter fst snd]. fold (column fid fs).
  specialize (IH ls).
  destruct (go (nth fid row 0%Q)), l; cbn [negb andb length]; lia.
Qed.

Lemma sides_sizes (go : Q -> bool) (fid : nat) (fs : list (list Q))
      (ls : list bool) (route : list Q -> bool) :
  (forall p, route p = go (nth fid p 0%Q)) ->
  let parts := sides route (combine fs ls) in
  Z.of_nat (length (left_features parts))
  = (count_where (fun f l => negb l && go f) (column fid fs) ls
     + count_where (fun f l => l && go f) (column fid fs) ls)%Z /\
  Z.of_nat (length (right_features parts))
  = (count_where (fun f l => negb l && negb (go f)) (column fid fs) ls
     + count_where (fun f l => l && negb (go f)) (column fid fs) ls)%Z.
Proof.
  intros Hroute parts. unfold parts, sides.
  cbn [left_features right_features]. rewrite !length_map.
  rewrite <- (side_length go), <- (side_length (fun x => negb (go x))).
  split; do 2 f_equal; apply filter_ext; intros [p l]; simpl;
    rewrite Hroute; reflexivity.
Qed.

(** For a feature that is not continuous, the two sides the points are
    sent to are the two sides of the candidate the search took: the
    split that wins is usable, and so are the children made of it. *)
Lemma winner_sides (ps ps' : PointSet) (m : option Z) (i : nat)
      (g : option Q) (ty : FeaturesTypes) (thr : option Q) :
  length (labels ps) = length (features ps) ->
  get_best_gain ps m = Ok ((Some i, g), ps') ->
  nth_error (types ps) i = Some ty ->
  ty <> REAL ->
  get_best_threshold ps' = Ok thr ->
  exists c,
    usable m c = true /\
    let parts := sides (routes_left i ty thr (split_of ps' i thr))
                       (combine (features ps) (labels ps)) in
    Z.of_nat (length (left_features parts)) = left_size c /\
    Z.of_nat (length (right_features parts)) = right_size c.
Proof.
  intros Hlen Hg Hty Hreal Hthr.
  pose proof (get_best_gain_recorded ps m i g ps' Hlen Hg) as Hrec.
  destruct (get_best_gain_selected ps m _ ps' Hg) as [Hts Hsel].
  simpl in Hsel.
  unfold get_best_threshold, index in Hthr.
  rewrite Hsel, Hts, Hty in Hthr. cbn [bind] in Hthr.
  rewrite Hty in Hrec.
  set (fv := column i (features ps)) in *.
  destruct ty; [| |contradiction].
  - destruct Hrec as [Hrec _]. injection Hthr as <-. eexists.
    split; [exact Hrec|].
    apply (sides_sizes (fun x => Qeq_bool x 0)).
    intro p. unfold routes_left, split_of, member. simpl.
    apply orb_false_r.
  - destruct Hrec as (val & Hcat & Hu & _). rewrite Hcat in Hthr.
    injection Hthr as <-. eexists. split; [exact Hu|].
    apply (sides_sizes (fun x => Qeq_bool x val)).
    intro p. unfold routes_left, split_of, member. simpl.
    apply orb_false_r.
Qed.

Lemma sides_lengths (go : list Q -> bool) (pairs : list (list Q * bool)) :
  (length (left_features (sides go pairs))
   + length (right_features (sides go pairs)) = length pairs)%nat.
Proof.
  unfold sides. cbn [left_features right_features]. rewrite !length_map.
  induction pairs as [|x xs IH]; [reflexivity|].
  cbn [filter]. destruct (go (fst x)); cbn [negb length]; lia.
Qed.

Lemma usable_floor (msp : Z) (c : counts) :
  usable (Some msp) c = true ->
  (left_size c <> 0 /\ right_size c <> 0 /\
   msp <= left_size c /\ msp <= right_size c)%Z.
Proof.
  intro H. apply usable_sides in H as (H0 & H1 & Hf).
  unfold below_floor in Hf. apply orb_false_iff in Hf as [Hl Hr].
  apply Z.ltb_ge in Hl, Hr. unfold left_size, right_size. auto.
Qed.

(** What a run of [build_tree] on a node of positive height gives. *)
Lemma built_children_sizes (budget : nat) (t t' : Tree) :
  well_formed (points t) ->
  Forall (fun ty => ty <> REAL) (types (points t)) ->
  built budget t t' ->
  (h t' = 0%Z /\
   exists g ps,
     get_best_gain (points t) (Some (min_split_points t))
     = Ok ((None, g), ps)) \/
  (h t' = h t /\
   exists l r,
     left t' = Some l /\ right t' = Some r /\
     (0 < length (features (points l)))%nat /\
     (0 < length (features (points r)))%nat /\
     (min_split_points t <= Z.of_nat (length (features (points l))))%Z /\
     (min_split_points t <= Z.of_nat (length (features (points r))))%Z /\
     (length (features (points l)) + length (features (points r))
      = length (features (points t)))%nat).
Proof.
  intros Hwf Hcat Hb.
  assert (Hsizes : forall r ps fid ty thr parts,
             get_best_gain (points t) (Some (min_split_points t))
             = Ok (r, ps) ->
             fst r = Some fid ->
             index (types ps) fid = Ok ty ->
             get_best_threshold ps = Ok thr ->
             partition_of ps fid ty thr = Ok parts ->
             (0 < length (left_features parts))%nat /\
             (0 < length (right_features parts))%nat /\
             (min_split_points t
              <= Z.of_nat (length (left_features parts)))%Z /\
             (min_split_points t
              <= Z.of_nat (length (right_features parts)))%Z /\
             (length (left_features parts) + length (right_features parts)
              = length (features (points t)))%nat).
  { intros [r1 g] ps fid ty thr parts Hg Hfid Hidx Hthr Hparts.
    simpl in Hfid. subst r1.
    pose proof (get_best_gain_same_data _ _ _ _ Hg) as Hd.
    pose proof (well_formed_same_data _ _ Hd Hwf) as Hwf'.
    destruct Hd as (Hts & Hfs & Hls).
    assert (Hty : nth_error (types (points t)) fid = Some ty).
    { unfold index in Hidx. rewrite <- Hts.
      destruct (nth_error (types ps) fid); [congruence | discriminate]. }
    assert (Hlt : (fid < length (types ps))%nat).
    { rewrite Hts. apply nth_error_Some. congruence. }
    assert (Hnr : ty <> REAL).
    { rewrite Forall_forall in Hcat. apply Hcat.
      eapply nth_error_In. exact Hty. }
    assert (Hreal : ty = REAL -> thr <> None) by (intro E; contradiction).
    rewrite (partition_of_sides ps fid ty thr Hwf' Hlt Hreal) in Hparts.
    injection Hparts as <-.
    destruct (winner_sides _ _ _ _ _ ty thr (proj1 Hwf) Hg Hty Hnr Hthr)
      as (c & Hu & Hl & Hr).
    rewrite <- Hfs, <- Hls in Hl, Hr.
    apply usable_floor in Hu as (H0 & H1 & Hml & Hmr).
    pose proof (sides_lengths (routes_left fid ty thr (split_of ps fid thr))
                              (combine (features ps) (labels ps))) as Hsum.
    rewrite length_combine in Hsum.
    destruct Hwf' as [Hlen' _]. rewrite <- Hfs.
    repeat split; lia. }
  destruct Hb as [r ps Hg Hfid
                 |r ps fid ty thr parts Hg Hfid Hidx Hthr Hparts Hsmall
                 |r ps fid ty thr parts l r' Hg Hfid Hidx Hthr Hparts _ El Er].
  - left. split; [destruct t; reflexivity|].
    destruct r as [r1 g]. simpl in Hfid. subst r1. eauto.
  - exfalso.
    destruct (Hsizes r ps fid ty thr parts Hg Hfid Hidx Hthr Hparts)
      as (_ & _ & Hml & Hmr & _).
    unfold side_too_small in Hsmall.
    apply orb_true_iff in Hsmall as [H|H]; apply Z.ltb_lt in H; lia.
  - right. split; [destruct t, ty; reflexivity|].
    exists l, r'.
    split; [destruct t, ty; reflexivity|].
    split; [destruct t, ty; reflexivity|].
    destruct (Tree_init_with_data _ _ _ _ _ _ _ _ El) as [-> _].
    destruct (Tree_init_with_data _ _ _ _ _ _ _ _ Er) as [-> _].
    exact (Hsizes r ps fid ty thr parts Hg Hfid Hidx Hthr Hparts).
Qed.

(** X24. On a node of positive height none of whose features is
    continuous, [build_tree] makes the node a leaf only when the search
    finds no split: the test of the sizes of the two sides on line 117
    never succeeds, because the split the search returns was taken with
    both sides inhabited and at or above the floor, and the partition
    loop sends to the left exactly the points that hold the category
    the search counted on that side.  Otherwise the node keeps its
    height and gets two children that are not empty, hold at least
    [min_split_points] points each and share out the points of the
    node. *)
Theorem build_tree_children (t t' : Tree) :
  well_formed (points t) ->
  Forall (fun ty => ty <> REAL) (types (points t)) ->
  (0 < h t)%Z ->
  build_tree t = Ok t' ->
  (h t' = 0%Z /\
   exists g ps,
     get_best_gain (points t) (Some (min_split_points t))
     = Ok ((None, g), ps)) \/
  (h t' = h t /\
   exists l r,
     left t' = Some l /\ right t' = Some r /\
     (0 < length (features (points l)))%nat /\
     (0 < length (features (points r)))%nat /\
     (min_split_points t <= Z.of_nat (length (features (points l))))%Z /\
     (min_split_points t <= Z.of_nat (length (features (points r))))%Z /\
     (length (features (points l)) + length (features (points r))
      = length (features (points t)))%nat).
Proof.
  intros Hwf Hcat Hh H.
  destruct (build_tree_built t t' Hh H) as [budget Hb].
  exact (built_children_sizes budget t t' Hwf Hcat Hb).
Qed.

Lemma build_tree_children_witness :
  let t := mkTree 1 None None None
                  (PointSet_init [[1; 1]; [1; 0]; [2; 1]; [2; 0]]
                                 [true; true; false; false]
                                 [CLASSES; BOOLEAN])
                  2 0 0 None None in
  exists t',
    build_tree t = Ok t' /\
    well_formed (points t) /\
    Forall (fun ty => ty <> REAL) (types (points t)) /\
    (0 < h t)%Z /\
    ((h t' = 0%Z /\
      exists g ps,
        get_best_gain (points t) (Some (min_split_points t))
        = Ok ((None, g), ps)) \/
     (h t' = h t /\
      exists l r,
        left t' = Some l /\ right t' = Some r /\
        (0 < length (features (points l)))%nat /\
        (0 < length (features (points r)))%nat /\
        (min_split_points t <= Z.of_nat (length (features (points l))))%Z /\
        (min_split_points t <= Z.of_nat (length (features (points r))))%Z /\
        (length (features (points l)) + length (features (points r))
         = length (features (points t)))%nat)).
Proof.
  intro t. eexists. split; [vm_compute; reflexivity|].
  match goal with
  | |- _ /\ _ /\ _ /\ (( h ?t' = _ /\ _) \/ _) =>
      assert (H : build_tree t = Ok t') by (vm_compute; reflexivity)
  end.
  assert (Hwf : well_formed (points t))
    by (split; [reflexivity | repeat constructor]).
  assert (Hcat : Forall (fun ty => ty <> REAL) (types (points t)))
    by (repeat constructor; discriminate).
  assert (Hh : (0 < h t)%Z) by (simpl; lia).
  split; [exact Hwf|]. split; [exact Hcat|]. split; [exact Hh|].
  exact (build_tree_children t _ Hwf Hcat Hh H).
Defined.

(** ** Between two rebuilds *)

Lemma decide_eq (self : Tree) (fs : list Q) :
  decide self fs
  = if (h self =? 0)%Z then Ok (leaf_decision (points self))
    else to_left <- goes_left self fs ;;
         if to_left
         then match left self with
              | Some l => decide l fs
              | None => Raise AttributeError
              end
         else match right self with
              | Some r => decide r fs
              | None => Raise AttributeError
              end.
Proof. destruct self; reflexivity. Qed.

Lemma same_answer_refl (q : list Q) (a : option Tree) : same_answer q a a.
Proof. destruct a; simpl; trivial. Qed.

Lemma decide_congr (t u : Tree) (q : list Q) :
  h u = h t ->
  feature_id u = feature_id t ->
  feature_threshold u = feature_threshold t ->
  feature_split u = feature_split t ->
  (h t = 0%Z -> points u = points t) ->
  same_answer q (left u) (left t) ->
  same_answer q (right u) (right t) ->
  decide u q = decide t q.
Proof.
  intros Hh Hfid Hthr Hsp Hp Hl Hr. rewrite !decide_eq, Hh.
  destruct (Z.eqb_spec (h t) 0) as [Hz|_]; [rewrite (Hp Hz); reflexivity|].
  assert (Hgo : goes_left u q = goes_left t q)
    by (unfold goes_left; rewrite Hfid, Hthr, Hsp; reflexivity).
  rewrite Hgo. destruct (goes_left t q) as [[]|e]; cbn [bind]; trivial.
  - unfold same_answer in Hl.
    destruct (left u), (left t); trivial; contradiction.
  - unfold same_answer in Hr.
    destruct (right u), (right t); trivial; contradiction.
Qed.

Lemma with_left_fields (s : Tree) (c : option Tree) :
  h (with_left s c) = h s /\
  feature_id (with_left s c) = feature_id s /\
  feature_threshold (with_left s c) = feature_threshold s /\
  feature_split (with_left s c) = feature_split s /\
  points (with_left s c) = points s /\
  left (with_left s c) = c /\
  right (with_left s c) = right s.
Proof. destruct s; simpl; auto 10. Qed.

Lemma with_right_fields (s : Tree) (c : option Tree) :
  h (with_right s c) = h s /\
  feature_id (with_right s c) = feature_id s /\
  feature_threshold (with_right s c) = feature_threshold s /\
  feature_split (with_right s c) = feature_split s /\
  points (with_right s c) = points s /\
  left (with_right s c) = left s /\
  right (with_right s c) = c.
Proof. destruct s; simpl; auto 10. Qed.

(** What an operation that goes down one level without a rebuild leaves
    of the decisions, given what its local update leaves of the node. *)
Lemma absorbed_step (t s t' : Tree) (fs q : list Q)
      (op : Tree -> result Tree) :
  h s = h t ->
  left s = left t -> right s = right t ->
  feature_id s = feature_id t ->
  feature_threshold s = feature_threshold t ->
  feature_split s = feature_split t ->
  (h t = 0%Z -> points s = points t) ->
  (forall l l', (h s =? 0)%Z = false -> goes_left s fs = Ok true ->
                left t = Some l -> op l = Ok l' -> decide l' q = decide l q) ->
  (forall r r', (h s =? 0)%Z = false -> goes_left s fs = Ok false ->
                right t = Some r -> op r = Ok r' -> decide r' q = decide r q) ->
  (if (h s =? 0)%Z then Ok s
   else
     to_left <- goes_left s fs ;;
     if to_left
     then match left t with
          | Some l => l' <- op l ;; Ok (with_left s (Some l'))
          | None => Raise AttributeError
          end
     else match right t with
          | Some r => r' <- op r ;; Ok (with_right s (Some r'))
          | None => Raise AttributeError
          end) = Ok t' ->
  decide t' q = decide t q.
Proof.
  intros Hh Hl Hr Hfid Hthr Hsp Hp IHl IHr H.
  destruct (h s =? 0)%Z eqn:Ez.
  { injection H as <-. apply decide_congr; trivial.
    - rewrite Hl. apply same_answer_refl.
    - rewrite Hr. apply same_answer_refl. }
  bind_inv H. destruct a.
  - destruct (left t) as [l|] eqn:El; [|discriminate].
    bind_inv H. injection H as <-.
    destruct (with_left_fields s (Some a)) as (F1 & F2 & F3 & F4 & F5 & F6 & F7).
    apply decide_congr; try congruence.
    + intro Hz. rewrite F5. exact (Hp Hz).
    + rewrite F6, El. simpl. exact (IHl l a eq_refl Ha eq_refl Ha0).
    + rewrite F7, Hr. apply same_answer_refl.
  - destruct (right t) as [r|] eqn:Er; [|discriminate].
    bind_inv H. injection H as <-.
    destruct (with_right_fields s (Some a)) as (F1 & F2 & F3 & F4 & F5 & F6 & F7).
    apply decide_congr; try congruence.
    + intro Hz. rewrite F5. exact (Hp Hz).
    + rewrite F6, Hl. apply same_answer_refl.
    + rewrite F7, Er. simpl. exact (IHr r a eq_refl Ha eq_refl Ha0).
Qed.

(** X25. An insertion that meets no rebuild condition on its path
    changes no answer: the tree it returns decides every query, of any
    width, as the tree did before, down to the exception raised if
    any. *)
Theorem absorbed_insertion_keeps_decisions (fs : list Q) (label : bool)
        (q : list Q) :
  forall t t',
    add_absorbed t fs label = true ->
    add_training_point t fs label = Ok t' ->
    decide t' q = decide t q.
Proof.
  induction t as [t IHl IHr] using Tree_induction. intros t' Ha H.
  rewrite add_absorbed_eq in Ha. rewrite add_training_point_eq in H.
  cbv zeta in Ha, H.
  destruct (add_local_fields t fs label)
    as (Fh & _ & _ & Fl & Fr & Ffid & Fthr & Fsp).
  assert (Hp : h t = 0%Z ->
               points (add_local t fs label) = points t)
    by (intro Hz; rewrite add_local_leaf by lia; destruct t; reflexivity).
  set (s := add_local t fs label) in *. clearbody s.
  destruct (rebuild_due s); [discriminate|]. cbn [negb andb] in Ha.
  apply (absorbed_step t s t' fs q
           (fun c => add_training_point c fs label)); trivial.
  - intros l l' Ez Hgo El Hl. apply (IHl l El l'); trivial.
    rewrite Ez, Hgo, El in Ha. exact Ha.
  - intros r r' Ez Hgo Er Hr. apply (IHr r Er r'); trivial.
    rewrite Ez, Hgo, Er in Ha. exact Ha.
Qed.

Lemma absorbed_insertion_keeps_decisions_witness :
  exists t t',
    patient_scenario_tree = Ok t /\
    add_absorbed t [3 # 10; true_cat] true = true /\
    add_training_point t [3 # 10; true_cat] true = Ok t' /\
    decide t' [95 # 100; false_cat] = decide t [95 # 100; false_cat].
Proof.
  do 2 eexists. split; [vm_compute; reflexivity|].
  match goal with
  | |- ?A /\ ?B /\ _ =>
      assert (H1 : A) by (vm_compute; reflexivity);
      assert (H2 : B) by (vm_compute; reflexivity)
  end.
  split; [exact H1|]. split; [exact H2|].
  exact (absorbed_insertion_keeps_decisions _ _ _ _ _ H1 H2).
Defined.

(** X26. A deletion that meets no rebuild condition on its path changes
    no answer either, whether or not it removes a point. *)
Theorem absorbed_deletion_keeps_decisions (fs : list Q) (label : bool)
        (q : list Q) :
  forall t t',
    del_absorbed t fs label = true ->
    del_training_point t fs label = Ok t' ->
    decide t' q = decide t q.
Proof.
  induction t as [t IHl IHr] using Tree_induction. intros t' Ha H.
  rewrite del_absorbed_eq in Ha. rewrite del_training_point_eq in H.
  destruct (del_local t fs) as [s|e] eqn:Es; [|discriminate].
  cbn [bind] in H.
  destruct (del_local_fields t s fs Es)
    as (Fh & _ & _ & Fl & Fr & Ffid & Fthr & Fsp).
  assert (Hp : h t = 0%Z -> points s = points t).
  { intro Hz. rewrite (del_local_leaf t s fs ltac:(lia) Es).
    destruct t; reflexivity. }
  destruct (rebuild_due s); [discriminate|]. cbn [negb andb] in Ha.
  apply (absorbed_step t s t' fs q
           (fun c => del_training_point c fs label)); trivial.
  - intros l l' Ez Hgo El Hl. apply (IHl l El l'); trivial.
    rewrite Ez, Hgo, El in Ha. exact Ha.
  - intros r r' Ez Hgo Er Hr. apply (IHr r Er r'); trivial.
    rewrite Ez, Hgo, Er in Ha. exact Ha.
Qed.

Lemma absorbed_deletion_keeps_decisions_witness :
  exists t t',
    patient_scenario_tree = Ok t /\
    del_absorbed t [2 # 10; true_cat] true = true /\
    del_training_point t [2 # 10; true_cat] true = Ok t' /\
    decide t' [3 # 10; true_cat] = decide t [3 # 10; true_cat].
Proof.
  do 2 eexists. split; [vm_compute; reflexivity|].
  match goal with
  | |- ?A /\ ?B /\ _ =>
      assert (H1 : A) by (vm_compute; reflexivity);
      assert (H2 : B) by (vm_compute; reflexivity)
  end.
  split; [exact H1|]. split; [exact H2|].
  exact (absorbed_deletion_keeps_decisions _ _ _ _ _ H1 H2).
Defined.

(** ** A rebuild against a fresh construction *)

Lemma decides_alike_decide (a b : Tree) (q : list Q) :
  decides_alike a b -> decide a q = decide b q.
Proof.
  intros (Hh & Hp & Hnode). rewrite !decide_eq, <- Hh, Hp.
  destruct (h a =? 0)%Z eqn:Ez; [reflexivity|].
  destruct (Hnode eq_refl) as (Hfid & Hsp & Hthr & Hl & Hr).
  assert (Hgo : goes_left a q = goes_left b q).
  { unfold goes_left. rewrite <- Hsp, <- Hfid.
    destruct (feature_split a); [reflexivity|].
    rewrite (Hthr eq_refl). reflexivity. }
  rewrite Hgo, Hl, Hr. reflexivity.
Qed.

(** [build_tree] reads the height, the points, the floor and the rebuild
    factor of the node, and nothing else; what it leaves of the other
    attributes is not seen by [decide], unless a categorical split was
    there from before. *)
Lemma build_tree_within_alike (budget : nat) (t1 t2 : Tree) :
  (0 <= h t1)%Z ->
  h t1 = h t2 ->
  points t1 = points t2 ->
  min_split_points t1 = min_split_points t2 ->
  beta t1 = beta t2 ->
  feature_split t1 = None ->
  feature_split t2 = None ->
  match build_tree_within budget t1, build_tree_within budget t2 with
  | Ok a, Ok b => decides_alike a b
  | Raise e1, Raise e2 => e1 = e2
  | _, _ => False
  end.
Proof.
  intros H0 Hh Hp Hm Hb Hs1 Hs2.
  destruct t1 as [h1 fid1 thr1 split1 ps1 msp1 cnt1 beta1 l1 r1].
  destruct t2 as [h2 fid2 thr2 split2 ps2 msp2 cnt2 beta2 l2 r2].
  simpl in *. subst h2 ps2 msp2 beta2 split1 split2.
  destruct (h1 >? 0)%Z eqn:E.
  2:{ assert (h1 = 0%Z)
        by (rewrite Z.gtb_ltb in E; apply Z.ltb_ge in E; lia).
      subst h1. destruct budget; simpl;
        (split; [reflexivity|]); (split; [reflexivity|]);
        simpl; discriminate. }
  destruct budget as [|budget]; simpl; rewrite E; [reflexivity|].
  destruct (get_best_gain ps1 (Some msp1)) as [[r ps]|e]; cbn [bind];
    [|reflexivity].
  destruct (fst r) as [fid|].
  2:{ split; [reflexivity|]. split; [reflexivity|]. simpl. discriminate. }
  simpl.
  destruct (index (types ps) fid) as [ty|e]; cbn [bind]; [|reflexivity].
  destruct (get_best_threshold ps) as [thr|e]; cbn [bind]; [|reflexivity].
  destruct ty; cbn [FeaturesTypes_eqb negb]; simpl;
    match goal with
    | |- context [for_each ?xs ?body ?init] =>
        destruct (for_each xs body init) as [parts|e]; cbn [bind];
          [|reflexivity]
    end;
    match goal with
    | |- context [if ?c then _ else _] => destruct c
    end;
    try (split; [reflexivity|]; split; [reflexivity|]; simpl; discriminate);
    match goal with
    | |- context [Tree_init_with ?b ?f ?l ?t ?hh ?m ?be] =>
        destruct (Tree_init_with b f l t hh m be) as [lc|e]; cbn [bind];
          [|reflexivity]
    end;
    match goal with
    | |- context [Tree_init_with ?b ?f ?l ?t ?hh ?m ?be] =>
        destruct (Tree_init_with b f l t hh m be) as [rc|e]; cbn [bind];
          [|reflexivity]
    end;
    (split; [reflexivity|]); (split; [reflexivity|]); simpl; intros _;
    repeat split; try reflexivity; try discriminate.
Qed.

Lemma rebuild_as_fresh (s t' : Tree) (fs : list (list Q)) (ls : list bool)
      (ts : list FeaturesTypes) :
  (0 < h s)%Z ->
  feature_split s = None ->
  points s = PointSet_init fs ls ts ->
  build_tree (with_counter s 0) = Ok t' ->
  exists fresh,
    Tree_init fs ls ts (h s) (min_split_points s) (beta s) = Ok fresh /\
    forall q, decide t' q = decide fresh q.
Proof.
  intros Hh Hsp Hps H. unfold Tree_init, Tree_init_with.
  assert (E : (h s >? 0)%Z = true) by (apply Z.gtb_lt; exact Hh).
  rewrite E. unfold build_tree in *.
  destruct (with_counter_fields s 0) as [Fh Fp].
  rewrite Fh in H. cbn [h].
  pose proof (build_tree_within_alike (Z.to_nat (h s)) (with_counter s 0)
                (mkTree (h s) None None None (PointSet_init fs ls ts)
                        (min_split_points s) 0 (beta s) None None)) as Ha.
  rewrite H in Ha.
  destruct (build_tree_within (Z.to_nat (h s))
              (mkTree (h s) None None None (PointSet_init fs ls ts)
                      (min_split_points s) 0 (beta s) None None))
    as [fresh|e].
  - exists fresh. split; [reflexivity|]. intro q.
    apply decides_alike_decide. apply Ha.
    + rewrite Fh. lia.
    + exact Fh.
    + rewrite Fp. exact Hps.
    + destruct s; reflexivity.
    + destruct s; reflexivity.
    + destruct s; exact Hsp.
    + reflexivity.
  - exfalso. apply Ha.
    + rewrite Fh. lia.
    + exact Fh.
    + rewrite Fp. exact Hps.
    + destruct s; reflexivity.
    + destruct s; reflexivity.
    + destruct s; exact Hsp.
    + reflexivity.
Qed.

(** X27. When an insertion rebuilds a node of positive height that holds
    no categorical split, the tree it returns decides every query as the
    tree the constructor builds from the points of the node with the
    new point appended, at the same height, floor and rebuild factor. *)
Theorem insertion_rebuild_as_fresh (t t' : Tree) (fs : list Q)
        (label : bool) :
  (0 < h t)%Z ->
  feature_split t = None ->
  rebuild_due (add_local t fs label) = true ->
  add_training_point t fs label = Ok t' ->
  exists fresh,
    Tree_init (features (points t) ++ [fs]) (labels (points t) ++ [label])
              (types (points t)) (h t) (min_split_points t) (beta t)
    = Ok fresh /\
    forall q, decide t' q = decide fresh q.
Proof.
  intros Hh Hsp Hdue H. rewrite add_training_point_eq in H. cbv zeta in H.
  rewrite Hdue in H. bind_inv H.
  destruct (add_local_fields t fs label)
    as (Fh & Fb & _ & _ & _ & _ & _ & Fsp).
  assert (Fm : min_split_points (add_local t fs label) = min_split_points t).
  { unfold add_local. destruct t as [h0 a0 b c d e f g l r]; simpl.
    destruct (h0 >? 0)%Z; reflexivity. }
  assert (Fp : points (add_local t fs label)
               = PointSet_init (features (points t) ++ [fs])
                               (labels (points t) ++ [label])
                               (types (points t))).
  { unfold add_local. destruct t as [h0 a0 b c d e f g l r]; simpl in *.
    assert (E : (h0 >? 0)%Z = true) by (apply Z.gtb_lt; exact Hh).
    rewrite E. reflexivity. }
  destruct (rebuild_as_fresh (add_local t fs label) t' _ _ _
              ltac:(rewrite Fh; exact Hh) ltac:(rewrite Fsp; exact Hsp) Fp H)
    as (fresh & Ef & Hq).
  rewrite Fh, Fm, Fb in Ef. exists fresh. split; assumption.
Qed.

Lemma insertion_rebuild_as_fresh_witness :
  exists t t' fresh,
    scenario_tree = Ok t /\
    (0 < h t)%Z /\
    feature_split t = None /\
    rebuild_due (add_local t [3 # 10; true_cat] true) = true /\
    add_training_point t [3 # 10; true_cat] true = Ok t' /\
    Tree_init (features (points t) ++ [[3 # 10; true_cat]])
              (labels (points t) ++ [true])
              (types (points t)) (h t) (min_split_points t) (beta t)
    = Ok fresh /\
    forall q, decide t' q = decide fresh q.
Proof.
  do 2 eexists.
  match goal with
  | |- exists fresh, scenario_tree = Ok ?t /\ _ =>
      assert (H0 : scenario_tree = Ok t) by (vm_compute; reflexivity)
  end.
  match goal with
  | |- exists fresh, _ /\ ?A /\ ?B /\ ?C /\ ?D /\ _ =>
      assert (H1 : A) by (vm_compute; reflexivity);
      assert (H2 : B) by reflexivity;
      assert (H3 : C) by (vm_compute; reflexivity);
      assert (H4 : D) by (vm_compute; reflexivity)
  end.
  destruct (insertion_rebuild_as_fresh _ _ _ _ H1 H2 H3 H4)
    as (fresh & Ef & Hq).
  exists fresh. auto 10.
Defined.

(** X28. When a deletion rebuilds a node of positive height that holds
    no categorical split, the tree it returns decides every query as the
    tree the constructor builds from the points of the node without the
    first point equal to the given one, at the same height, floor and
    rebuild factor. *)
Theorem deletion_rebuild_as_fresh (t s t' : Tree) (fs : list Q)
        (label : bool) :
  (0 < h t)%Z ->
  feature_split t = None ->
  del_local t fs = Ok s ->
  rebuild_due s = true ->
  del_training_point t fs label = Ok t' ->
  exists idx fresh,
    first_match 0 (features (points t)) fs = Ok idx /\
    Tree_init (without idx (features (points t)))
              (without idx (labels (points t)))
              (types (points t)) (h t) (min_split_points t) (beta t)
    = Ok fresh /\
    forall q, decide t' q = decide fresh q.
Proof.
  intros Hh Hsp Hloc Hdue H. rewrite del_training_point_eq in H.
  rewrite Hloc in H. cbn [bind] in H. rewrite Hdue in H.
  destruct (del_local_fields t s fs Hloc)
    as (Fh & Fb & _ & _ & _ & _ & _ & Fsp).
  unfold del_local in Hloc. bind_inv Hloc. exists a.
  assert (E : (h (with_counter t (counter t + 1)) >? 0)%Z = true)
    by (destruct t; simpl in *; apply Z.gtb_lt; exact Hh).
  rewrite E in Hloc. injection Hloc as Hs.
  assert (Fm : min_split_points s = min_split_points t)
    by (subst s; destruct t; reflexivity).
  assert (Fp : points s
               = PointSet_init (without a (features (points t)))
                               (without a (labels (points t)))
                               (types (points t)))
    by (subst s; destruct t; reflexivity).
  destruct (rebuild_as_fresh s t' _ _ _
              ltac:(rewrite Fh; exact Hh) ltac:(rewrite Fsp; exact Hsp) Fp H)
    as (fresh & Ef & Hq).
  rewrite Fh, Fm, Fb in Ef. exists fresh.
  split; [destruct t; exact Ha|]. split; assumption.
Qed.

Lemma deletion_rebuild_as_fresh_witness :
  exists t s t' idx fresh,
    scenario_tree = Ok t /\
    (0 < h t)%Z /\
    feature_split t = None /\
    del_local t [2 # 10; true_cat] = Ok s /\
    rebuild_due s = true /\
    del_training_point t [2 # 10; true_cat] true = Ok t' /\
    first_match 0 (features (points t)) [2 # 10; true_cat] = Ok idx /\
    Tree_init (without idx (features (points t)))
              (without idx (labels (points t)))
              (types (points t)) (h t) (min_split_points t) (beta t)
    = Ok fresh /\
    forall q, decide t' q = decide fresh q.
Proof.
  do 3 eexists.
  match goal with
  | |- exists idx fresh, scenario_tree = Ok ?t /\ _ =>
      assert (H0 : scenario_tree = Ok t) by (vm_compute; reflexivity)
  end.
  match goal with
  | |- exists idx fresh, _ /\ ?A /\ ?B /\ ?C /\ _ =>
      assert (H1 : A) by (vm_compute; reflexivity);
      assert (H2 : B) by reflexivity;
      assert (H3 : C) by (vm_compute; reflexivity)
  end.
  match goal with
  | |- exists idx fresh, _ /\ _ /\ _ /\ _ /\ ?D /\ ?E /\ _ =>
      assert (H4 : D) by (vm_compute; reflexivity);
      assert (H5 : E) by (vm_compute; reflexivity)
  end.
  destruct (deletion_rebuild_as_fresh _ _ _ _ _ H1 H2 H3 H4 H5)
    as (idx & fresh & Ei & Ef & Hq).
  exists idx, fresh. auto 10.
Defined.

(** ** The operation counters *)

Lemma amortized_eq (t : Tree) :
  amortized t
  <-> ((counter t = 0%nat \/ rebuild_due t = false) /\
       (h t = 0%Z \/
        (match left t with Some l => amortized l | None => True end /\
         match right t with Some r => amortized r | None => True end))).
Proof. destruct t; reflexivity. Qed.

Lemma amortized_children (t u : Tree) :
  amortized t ->
  h u = h t -> left u = left t -> right u = right t ->
  (counter u = 0%nat \/ rebuild_due u = false) ->
  amortized u.
Proof.
  intros Ht Hh Hl Hr Hc. apply amortized_eq. apply amortized_eq in Ht.
  split; [exact Hc|]. rewrite Hh, Hl, Hr. exact (proj2 Ht).
Qed.

Lemma Tree_init_with_amortized (budget : nat) (fs : list (list Q))
      (ls : list bool) (ts : list FeaturesTypes) (h0 msp : Z) (b : Q)
      (c : Tree) :
  (forall t t', (0 < h t)%Z -> build_tree_within budget t = Ok t' ->
                amortized t') ->
  Tree_init_with (build_tree_within budget) fs ls ts h0 msp b = Ok c ->
  amortized c.
Proof.
  intros IH H. unfold Tree_init_with in H.
  destruct (h0 >? 0)%Z eqn:E.
  - apply Z.gtb_lt in E. apply (IH _ c) in H; [exact H | exact E].
  - injection H as <-. apply amortized_eq. simpl. auto.
Qed.

Lemma build_tree_within_amortized (budget : nat) :
  forall t t',
    (0 < h t)%Z ->
    build_tree_within budget t = Ok t' ->
    amortized t'.
Proof.
  induction budget as [|budget IH]; intros t t' Hh H.
  { simpl in H. destruct t as [h0 a b c d e f g l r]. simpl in *.
    assert (E : (h0 >? 0)%Z = true) by (apply Z.gtb_lt; lia).
    rewrite E in H. discriminate. }
  pose proof (build_tree_within_counter _ _ _ H) as Hc.
  apply build_tree_within_built in H; [|apply Z.gtb_lt; lia].
  apply amortized_eq. split; [left; exact Hc|].
  destruct H as [r ps Hg _
                |r ps fid ty thr parts Hg _ _ _ _ _
                |r ps fid ty thr parts l r' Hg _ _ _ _ _ El Er].
  - left. destruct t; reflexivity.
  - left. destruct t, ty; reflexivity.
  - right.
    pose proof (Tree_init_with_amortized _ _ _ _ _ _ _ _ IH El) as Hl.
    pose proof (Tree_init_with_amortized _ _ _ _ _ _ _ _ IH Er) as Hr.
    destruct t, ty; simpl; auto.
Qed.

Lemma rebuild_amortized (s t' : Tree) :
  (h s = 0%Z \/
   (match left s with Some l => amortized l | None => True end /\
    match right s with Some r => amortized r | None => True end)) ->
  build_tree (with_counter s 0) = Ok t' ->
  amortized t'.
Proof.
  intros Hs H. destruct (with_counter_fields s 0) as [Fh _].
  destruct (Z_lt_le_dec 0 (h s)) as [Hpos|Hlow].
  - unfold build_tree in H.
    apply (build_tree_within_amortized _ _ t' ltac:(rewrite Fh; exact Hpos) H).
  - rewrite build_tree_low in H by (rewrite Fh; exact Hlow).
    injection H as <-. apply amortized_eq.
    split; [left; destruct s; reflexivity|].
    destruct s; exact Hs.
Qed.

Lemma absorbed_amortized (t s t' : Tree) (fs : list Q)
      (op : Tree -> result Tree) :
  amortized t ->
  h s = h t -> left s = left t -> right s = right t ->
  rebuild_due s = false ->
  (forall l l', left t = Some l -> amortized l -> op l = Ok l' ->
                amortized l') ->
  (forall r r', right t = Some r -> amortized r -> op r = Ok r' ->
                amortized r') ->
  (if (h s =? 0)%Z then Ok s
   else
     to_left <- goes_left s fs ;;
     if to_left
     then match left t with
          | Some l => l' <- op l ;; Ok (with_left s (Some l'))
          | None => Raise AttributeError
          end
     else match right t with
          | Some r => r' <- op r ;; Ok (with_right s (Some r'))
          | None => Raise AttributeError
          end) = Ok t' ->
  amortized t'.
Proof.
  intros Ht Hh Hl Hr Hdue IHl IHr H.
  destruct (Z.eqb_spec (h s) 0) as [Hz|Hnz].
  { injection H as <-. apply (amortized_children t); auto. }
  apply amortized_eq in Ht. destruct Ht as [_ [Hz|[Hal Har]]]; [congruence|].
  bind_inv H. destruct a.
  - destruct (left t) as [l|] eqn:El; [|discriminate].
    bind_inv H. injection H as <-.
    pose proof (IHl l a eq_refl Hal Ha0) as Hl'.
    apply amortized_eq.
    destruct s as [h0 a1 b c d e f g l0 r0]. simpl in *. subst r0.
    split; [right; exact Hdue|]. right. split; [exact Hl' | exact Har].
  - destruct (right t) as [r|] eqn:Er; [|discriminate].
    bind_inv H. injection H as <-.
    pose proof (IHr r a eq_refl Har Ha0) as Hr'.
    apply amortized_eq.
    destruct s as [h0 a1 b c d e f g l0 r0]. simpl in *. subst l0.
    split; [right; exact Hdue|]. right. split; [exact Hal | exact Hr'].
Qed.

Lemma add_training_point_amortized (fs : list Q) (label : bool) :
  forall t t',
    amortized t ->
    add_training_point t fs label = Ok t' ->
    amortized t'.
Proof.
  induction t as [t IHl IHr] using Tree_induction. intros t' Ht H.
  rewrite add_training_point_eq in H. cbv zeta in H.
  destruct (add_local_fields t fs label) as (Fh & _ & _ & Fl & Fr & _).
  set (s := add_local t fs label) in *. clearbody s.
  destruct (rebuild_due s) eqn:Hdue.
  - bind_inv H. apply (rebuild_amortized s t'); [|exact H].
    rewrite Fh, Fl, Fr. apply amortized_eq in Ht. exact (proj2 Ht).
  - apply (absorbed_amortized t s t' fs
             (fun c => add_training_point c fs label)); trivial.
    + intros l l' El Hal Hl. exact (IHl l El l' Hal Hl).
    + intros r r' Er Har Hr. exact (IHr r Er r' Har Hr).
Qed.

Lemma del_training_point_amortized (fs : list Q) (label : bool) :
  forall t t',
    amortized t ->
    del_training_point t fs label = Ok t' ->
    amortized t'.
Proof.
  induction t as [t IHl IHr] using Tree_induction. intros t' Ht H.
  rewrite del_training_point_eq in H.
  destruct (del_local t fs) as [s|e] eqn:Es; [|discriminate].
  cbn [bind] in H.
  destruct (del_local_fields t s fs Es) as (Fh & _ & _ & Fl & Fr & _).
  destruct (rebuild_due s) eqn:Hdue.
  - apply (rebuild_amortized s t'); [|exact H].
    rewrite Fh, Fl, Fr. apply amortized_eq in Ht. exact (proj2 Ht).
  - apply (absorbed_amortized t s t' fs
             (fun c => del_training_point c fs label)); trivial.
    + intros l l' El Hal Hl. exact (IHl l El l' Hal Hl).
    + intros r r' Er Har Hr. exact (IHr r Er r' Har Hr).
Qed.

(** X30. Insertions and deletions keep the operation counters in
    check: if no rebuild is due at any node [decide] can reach before
    the operation, none is due after it.  At every such node the
    counter, which an operation that reaches the node increments and a
    rebuild resets, is 0 or below [beta] times the number of points of
    the node. *)
Theorem updates_keep_amortized (t : Tree) :
  amortized t ->
  (forall fs label t',
      add_training_point t fs label = Ok t' -> amortized t') /\
  (forall fs label t',
      del_training_point t fs label = Ok t' -> amortized t').
Proof.
  intro Ht. split; intros fs label t' H.
  - exact (add_training_point_amortized fs label t t' Ht H).
  - exact (del_training_point_amortized fs label t t' Ht H).
Qed.

Lemma updates_keep_amortized_witness :
  exists t,
    patient_scenario_tree = Ok t /\
    amortized t /\
    (forall fs label t',
        add_training_point t fs label = Ok t' -> amortized t') /\
    (forall fs label t',
        del_training_point t fs label = Ok t' -> amortized t').
Proof.
  eexists.
  match goal with
  | |- ?A /\ _ => assert (H : A) by (vm_compute; reflexivity)
  end.
  split; [exact H|].
  match goal with
  | |- ?A /\ _ =>
      assert (Ha : A)
        by (simpl; unfold rebuild_due; simpl; intuition)
  end.
  split; [exact Ha|].
  exact (updates_keep_amortized _ Ha).
Defined.

(** ** The cut a continuous winner is stored with *)

(** C6. When the search returns a continuous feature [i] with the gain
    [g], the threshold it stores is the one of the cut that won: there
    is a sorted position [k], at which the value differs from its
    predecessor, such that the threshold stored is [values[k]] if
    [k = 0] and the midpoint of [values[k-1]] and [values[k]] otherwise,
    the counts of the cut at [k] are those of the points whose value is
    below [values[k]] against the others, both sides of that cut are
    inhabited and not below the floor, and [g] is the gain lines 144-148
    compute from these counts.  The values are in ascending order, a
    position whose value repeats its predecessor only moves a point
    across the cut and leaves the best split as it is, and two positions
    that are not skipped never hold the same value, so repeated values
    give one cut at most. *)
Theorem continuous_cut_threshold (ps : PointSet) (m : option Z) (i : nat)
        (g : option Q) (ps' : PointSet) :
  length (labels ps) = length (features ps) ->
  get_best_gain ps m = Ok ((Some i, g), ps') ->
  nth_error (types ps) i = Some REAL ->
  let values := sorted_values ps i in
  let total := Z.of_nat (length (labels ps)) in
  (forall a b, (a <= b < length values)%nat ->
               (nth a values 0 <= nth b values 0)%Q) /\
  (forall k sorted_labels st,
      (k = 0%nat \/ (nth k values 0 == nth (k - 1) values 0)%Q) ->
      real_step ps m i values sorted_labels st k
      = Ok (move_point k sorted_labels (fst st), snd st)) /\
  (forall k1 k2,
      (k1 < length values)%nat -> (k2 < length values)%nat ->
      skip_position k1 values = false -> skip_position k2 values = false ->
      (nth k1 values 0 == nth k2 values 0)%Q -> k1 = k2) /\
  exists k,
    (k < length values)%nat /\
    skip_position k values = false /\
    ((0 < k)%nat /\ ~ (nth k values 0 == nth (k - 1) values 0)%Q) /\
    threshold ps'
    = Some (if (k =? 0)%nat then nth k values 0%Q
            else ((nth (k - 1) values 0 + nth k values 0) / 2)%Q) /\
    let c := below_counts (column i (features ps)) (labels ps)
                          (nth k values 0%Q) in
    cut_counts (sorted_labels_of ps i) k = c /\
    (c00 c + c01 c <> 0)%Z /\ (c10 c + c11 c <> 0)%Z /\
    below_floor m c = false /\
    exists parent,
      get_gini ps = Ok parent /\
      g = Some (parent
                - (int_div (c00 c + c01 c) total
                   * (1 - int_div (c00 c) (c00 c + c01 c) ^ 2
                        - int_div (c01 c) (c00 c + c01 c) ^ 2)
                   + int_div (c10 c + c11 c) total
                     * (1 - int_div (c10 c) (c10 c + c11 c) ^ 2
                          - int_div (c11 c) (c10 c + c11 c) ^ 2)))%Q.
Proof.
  intros Hlen H Hty values total.
  assert (Hs : StronglySorted Qle values) by apply argsort_sorted.
  split; [apply sorted_nth; exact Hs|].
  split.
  { intros k sl st Hk. apply real_step_skipped.
    destruct (skip_position k values) eqn:Esk; trivial.
    apply skip_position_false in Esk as [Hpos Hne].
    destruct Hk as [->|Heq]; [lia | contradiction]. }
  split; [intros k1 k2; apply cut_position_unique; exact Hs|].
  pose proof (get_best_gain_recorded ps m i g ps' Hlen H) as Hrec.
  rewrite Hty in Hrec. destruct Hrec as (k & Hk & Hsk & Hthr & Hu & Hg).
  fold values in Hk, Hsk, Hthr.
  exists k. split; [exact Hk|]. split; [exact Hsk|].
  split; [apply skip_position_false; exact Hsk|].
  split; [exact Hthr|].
  pose proof (cut_counts_below ps i k Hlen Hk Hsk) as Hc.
  fold values in Hc. cbv zeta. rewrite <- Hc.
  split; [reflexivity|].
  apply usable_sides in Hu as (H0 & H1 & Hf).
  split; [exact H0|]. split; [exact H1|]. split; [exact Hf|].
  assert (Hne : labels ps <> []).
  { unfold get_best_gain in H.
    destruct (length (features ps) =? 0)%nat eqn:E0; [discriminate|].
    apply Nat.eqb_neq in E0. intro E. rewrite E in Hlen. simpl in Hlen. lia. }
  eexists. split; [apply get_gini_parent; exact Hne|].
  exact Hg.
Qed.

Lemma continuous_cut_threshold_witness :
  let ps := PointSet_init scenario_points [true; true; false; false]
                          [REAL; CLASSES] in
  let values := sorted_values ps 0 in
  let total := Z.of_nat (length (labels ps)) in
  exists g ps',
    length (labels ps) = length (features ps) /\
    get_best_gain ps (Some 1%Z) = Ok ((Some 0%nat, g), ps') /\
    nth_error (types ps) 0 = Some REAL /\
    exists k,
      (k < length values)%nat /\
      skip_position k values = false /\
      ((0 < k)%nat /\ ~ (nth k values 0 == nth (k - 1) values 0)%Q) /\
      threshold ps'
      = Some (if (k =? 0)%nat then nth k values 0%Q
              else ((nth (k - 1) values 0 + nth k values 0) / 2)%Q) /\
      let c := below_counts (column 0 (features ps)) (labels ps)
                            (nth k values 0%Q) in
      cut_counts (sorted_labels_of ps 0) k = c /\
      (c00 c + c01 c <> 0)%Z /\ (c10 c + c11 c <> 0)%Z /\
      below_floor (Some 1%Z) c = false /\
      exists parent,
        get_gini ps = Ok parent /\
        g = Some (parent
                  - (int_div (c00 c + c01 c) total
                     * (1 - int_div (c00 c) (c00 c + c01 c) ^ 2
                          - int_div (c01 c) (c00 c + c01 c) ^ 2)
                     + int_div (c10 c + c11 c) total
                       * (1 - int_div (c10 c) (c10 c + c11 c) ^ 2
                            - int_div (c11 c) (c10 c + c11 c) ^ 2)))%Q.
Proof.
  intros ps values total.
  assert (Hg : {g : option Q & {ps' : PointSet |
                 get_best_gain ps (Some 1%Z) = Ok ((Some 0%nat, g), ps')}})
    by (do 2 eexists; vm_compute; reflexivity).
  destruct Hg as (g & ps' & Hg).
  assert (Hlen : length (labels ps) = length (features ps)) by reflexivity.
  exists g, ps'. split; [exact Hlen|]. split; [exact Hg|].
  split; [reflexivity|].
  exact (proj2 (proj2 (proj2 (continuous_cut_threshold ps (Some 1%Z) 0 g ps'
                                Hlen Hg eq_refl)))).
Defined.

(** ** The depth of a tree through a session *)

Lemma updated_sound (ts : list FeaturesTypes) (h0 : Z) (t t' : Tree) :
  sound t -> types (points t) = ts -> (h t <= h0)%Z ->
  updated ts t t' ->
  sound t' /\ types (points t') = ts /\ (h t' <= h0)%Z.
Proof.
  intros Hs Hty Hh Hu.
  induction Hu as [|t1 t2 fs label _ IH Hfs H|t1 t2 fs label _ IH Hfs H].
  - auto.
  - destruct IH as (Hs1 & Hty1 & Hh1).
    destruct (add_training_point_succeeds fs label t1 Hs1 ltac:(congruence))
      as (t2' & E & Hs2 & Hty2 & Hh2).
    rewrite H in E. injection E as <-.
    split; [exact Hs2|]. split; [congruence|].
    destruct (sound_inv t1 Hs1) as (_ & H0 & _). lia.
  - destruct IH as (Hs1 & Hty1 & Hh1).
    destruct (del_training_point_succeeds fs label t1 Hs1 ltac:(congruence))
      as (t2' & E & Hs2 & Hty2 & Hh2).
    rewrite H in E. injection E as <-.
    split; [exact Hs2|]. split; [congruence|].
    destruct (sound_inv t1 Hs1) as (_ & H0 & _). lia.
Qed.

(** X14. The height given to the constructor bounds the depth of the
    tree it returns on well-formed data, and of every tree obtained from
    it by insertions and deletions of points that have one feature per
    feature type, rebuilds included: [decide] takes at most [h0]
    decisions on any path of such a tree. *)
Theorem depth_within_height (fs : list (list Q)) (ls : list bool)
        (ts : list FeaturesTypes) (h0 msp : Z) (b : Q) (t t' : Tree) :
  well_formed (PointSet_init fs ls ts) ->
  (0 <= h0)%Z ->
  Tree_init fs ls ts h0 msp b = Ok t ->
  updated ts t t' ->
  (depth t' <= Z.to_nat h0)%nat.
Proof.
  intros Hwf Hh H Hu.
  destruct (Tree_init_succeeds fs ls ts h0 msp b Hwf Hh)
    as (t0 & E & Hs & (Hty & _) & Hht).
  rewrite H in E. injection E as <-. simpl in Hty.
  destruct (updated_sound ts h0 t t' Hs Hty ltac:(lia) Hu)
    as (Hs' & _ & Hh').
  pose proof (sound_depth t' Hs') as Hd.
  destruct (sound_inv t' Hs') as (_ & H0 & _). lia.
Qed.

Lemma depth_within_height_witness :
  exists t t1 t2,
    Tree_init scenario_points [true; true; false; false] [REAL; CLASSES]
              1 1 10 = Ok t /\
    add_training_point t [3 # 10; true_cat] true = Ok t1 /\
    del_training_point t1 [2 # 10; true_cat] true = Ok t2 /\
    well_formed (PointSet_init scenario_points [true; true; false; false]
                               [REAL; CLASSES]) /\
    (0 <= 1)%Z /\
    updated [REAL; CLASSES] t t2 /\
    (depth t2 <= Z.to_nat 1)%nat.
Proof.
  do 3 eexists.
  match goal with
  | |- ?A /\ ?B /\ ?C /\ _ =>
      assert (H1 : A) by (vm_compute; reflexivity);
      assert (H2 : B) by (vm_compute; reflexivity);
      assert (H3 : C) by (vm_compute; reflexivity)
  end.
  assert (Hwf : well_formed (PointSet_init scenario_points
                               [true; true; false; false] [REAL; CLASSES]))
    by (split; [reflexivity | repeat constructor]).
  assert (Hh : (0 <= 1)%Z) by lia.
  match goal with
  | |- _ /\ _ /\ _ /\ _ /\ _ /\ ?U /\ _ =>
      assert (Hu : U)
        by (eapply updated_del; [eapply updated_add;
              [apply updated_none | | exact H2] | | exact H3]; reflexivity)
  end.
  split; [exact H1|]. split; [exact H2|]. split; [exact H3|].
  split; [exact Hwf|]. split; [exact Hh|]. split; [exact Hu|].
  exact (depth_within_height _ _ _ _ _ _ _ _ Hwf Hh H1 Hu).
Defined.

(** ** The operation counters of a new tree *)

Lemma counters_reset_eq (t : Tree) :
  counters_reset t
  <-> (counter t = 0%nat /\
       (h t = 0%Z \/
        (match left t with Some l => counters_reset l | None => True end /\
         match right t with Some r => counters_reset r | None => True end))).
Proof. destruct t; reflexivity. Qed.

Lemma build_tree_within_counters (budget : nat) :
  forall t t',
    (0 < h t)%Z ->
    build_tree_within budget t = Ok t' ->
    counters_reset t'.
Proof.
  induction budget as [|budget IH]; intros t t' Hh H.
  { simpl in H. destruct t as [h0 a b c d e f g l r]. simpl in *.
    assert (E : (h0 >? 0)%Z = true) by (apply Z.gtb_lt; lia).
    rewrite E in H. discriminate. }
  pose proof (build_tree_within_counter _ _ _ H) as Hc.
  apply build_tree_within_built in H; [|apply Z.gtb_lt; lia].
  apply counters_reset_eq. split; [exact Hc|].
  assert (Hchild : forall fs ls ts h1 msp b c,
             Tree_init_with (build_tree_within budget) fs ls ts h1 msp b
             = Ok c ->
             counters_reset c).
  { intros fs ls ts h1 msp b c Ec. unfold Tree_init_with in Ec.
    destruct (h1 >? 0)%Z eqn:E.
    - apply Z.gtb_lt in E. apply (IH _ c) in Ec; [exact Ec | exact E].
    - injection Ec as <-. apply counters_reset_eq. simpl. auto. }
  destruct H as [r ps Hg _
                |r ps fid ty thr parts Hg _ _ _ _ _
                |r ps fid ty thr parts l r' Hg _ _ _ _ _ El Er].
  - left. destruct t; reflexivity.
  - left. destruct t, ty; reflexivity.
  - right.
    pose proof (Hchild _ _ _ _ _ _ _ El) as Hl.
    pose proof (Hchild _ _ _ _ _ _ _ Er) as Hr.
    destruct t, ty; simpl; auto.
Qed.

Lemma counters_reset_amortized :
  forall t, counters_reset t -> amortized t.
Proof.
  induction t as [t IHl IHr] using Tree_induction. intro H.
  apply counters_reset_eq in H. destruct H as [Hc Hn].
  apply amortized_eq. split; [left; exact Hc|].
  destruct Hn as [Hz|[Hl Hr]]; [left; exact Hz|]. right. split.
  - destruct (left t) as [l|] eqn:El; [|exact I]. exact (IHl l eq_refl Hl).
  - destruct (right t) as [r|] eqn:Er; [|exact I]. exact (IHr r eq_refl Hr).
Qed.

(** X29. In the tree the constructor returns, every node [decide] can
    reach has its operation counter at 0, so that no rebuild is due at
    any of them. *)
Theorem Tree_init_counters_reset (fs : list (list Q)) (ls : list bool)
        (ts : list FeaturesTypes) (h0 msp : Z) (b : Q) (t : Tree) :
  Tree_init fs ls ts h0 msp b = Ok t ->
  counters_reset t /\ amortized t.
Proof.
  intro H.
  assert (Hc : counters_reset t).
  { unfold Tree_init, Tree_init_with in H. destruct (h0 >? 0)%Z eqn:E.
    - apply Z.gtb_lt in E. unfold build_tree in H.
      apply (build_tree_within_counters _ _ t) in H; [exact H | exact E].
    - injection H as <-. apply counters_reset_eq. simpl. auto. }
  split; [exact Hc | apply counters_reset_amortized; exact Hc].
Qed.

Lemma Tree_init_counters_reset_witness :
  exists t,
    Tree_init scenario_points [true; true; false; false] [REAL; CLASSES]
              1 1 10 = Ok t /\
    counters_reset t /\ amortized t.
Proof.
  eexists.
  match goal with
  | |- ?A /\ _ => assert (H : A) by (vm_compute; reflexivity)
  end.
  split; [exact H|].
  exact (Tree_init_counters_reset _ _ _ _ _ _ _ H).
Defined.
